(** * Encoda: codec matching, the Markdown codec and the JATS codec

    A shallow embedding of three parts of the repository:

    - [Matcher]: [match], [handled] and [encode] of the conversion facade
      (codec resolution from a path, a format hint and content sniffing);
    - [Md]: the Markdown codec's mapping between MDAST and the node model
      (articles, paragraphs, code chunks, the generic extensions);
    - [Jats]: the JATS encoder with its threaded [EncodeState] and the
      deferred population of citation elements.

    JavaScript strings are modelled by [string] (one character per code
    unit below 256) and [undefined] by [None]. Functions of third-party
    packages (the remark parser and stringifier, js-yaml, JSON5, mime,
    the dynamic [import]) are fields of a record of collaborators that the
    embedded functions take as their first argument. *)

From Stdlib Require Import Ascii String ZArith QArith Lia.
From stdpp Require Import base option list strings pretty gmap.

Set Warnings "-register-all,-clear-no-such-hyp".

(** ** JavaScript primitives used by the sources *)

Module JS.

Definition dquote : string := String "034"%char EmptyString.

Definition newline : string := String "010"%char EmptyString.

Definition quoted (s : string) : string := dquote +:+ s +:+ dquote.

(** Truthiness of a [string | undefined]: only a non-empty string is
    truthy. *)
Definition truthy (s : option string) : bool :=
  match s with
  | Some (String _ _) => true
  | _ => false
  end.

(** [x || undefined] *)
Definition orUndefined (s : option string) : option string :=
  if truthy s then s else None.

Fixpoint includesChar (c : ascii) (s : string) : bool :=
  match s with
  | EmptyString => false
  | String d r => if Ascii.eqb c d then true else includesChar c r
  end.

Definition includes (x : string) (l : list string) : bool :=
  existsb (String.eqb x) l.

(** [s.slice(1)] *)
Definition slice1 (s : string) : string :=
  match s with
  | EmptyString => EmptyString
  | String _ r => r
  end.

Fixpoint dropLast (s : string) : string :=
  match s with
  | EmptyString => EmptyString
  | String c r =>
      match r with
      | EmptyString => EmptyString
      | String _ _ => String c (dropLast r)
      end
  end.

(** [s.slice(1, -1)] *)
Definition sliceInner (s : string) : string := dropLast (slice1 s).

Definition lowerChar (c : ascii) : ascii :=
  let n := nat_of_ascii c in
  if (65 <=? n)%nat && (n <=? 90)%nat then ascii_of_nat (n + 32) else c.

Fixpoint toLowerCase (s : string) : string :=
  match s with
  | EmptyString => EmptyString
  | String c r => String (lowerChar c) (toLowerCase r)
  end.

Definition isLowerLetter (c : ascii) : bool :=
  let n := nat_of_ascii c in (97 <=? n)%nat && (n <=? 122)%nat.

(** The class [\s] on code units below 256: tab, line feed, vertical tab,
    form feed, carriage return, space, no-break space. *)
Definition isSpace (c : ascii) : bool :=
  let n := nat_of_ascii c in
  ((9 <=? n)%nat && (n <=? 13)%nat) || (n =? 32)%nat || (n =? 160)%nat.

Definition isNewline (c : ascii) : bool := (nat_of_ascii c =? 10)%nat.

Fixpoint hasSpace (s : string) : bool :=
  match s with
  | EmptyString => false
  | String c r => isSpace c || hasSpace r
  end.

Fixpoint allSpace (s : string) : bool :=
  match s with
  | EmptyString => true
  | String c r => isSpace c && allSpace r
  end.

Fixpoint trimStart (s : string) : string :=
  match s with
  | EmptyString => EmptyString
  | String c r => if isSpace c then trimStart r else s
  end.

Fixpoint trimEnd (s : string) : string :=
  match s with
  | EmptyString => EmptyString
  | String c r =>
      match trimEnd r with
      | EmptyString => if isSpace c then EmptyString else String c EmptyString
      | kept => String c kept
      end
  end.

Definition trim (s : string) : string := trimEnd (trimStart s).

(** [pieces.join(sep)] *)
Definition join (sep : string) (pieces : list string) : string :=
  String.concat sep pieces.

(** [sub] occurs in [s]. *)
Definition embeds (s sub : string) : Prop :=
  exists pre post, s = pre +:+ sub +:+ post.

End JS.

(** ** The codec matcher and the encode entry point *)

Module Matcher.

(** Errors, tagged by the [throw] that raises them. *)
Inductive Failure :=
| MissingOption (message : string)
| NoCodecMatch (message : string)
| CodecFailure (message : string).

Inductive Outcome (A : Type) :=
| Returned (a : A)
| Threw (e : Failure).
Arguments Returned {A} a.
Arguments Threw {A} e.

Record GlobalEncodeOptions := {
  filePath : option string;
  format : option string
}.

Section WithNodes.

Variables Node VFile : Type.

(** The metadata of a codec read by [match] ([sniff] is taken to give its
    answer without raising), and its [encode] ([inl]: the codec raises). *)
Record Codec := {
  codecId : string;
  fileNames : option (list string);
  extNames : option (list string);
  mediaTypes : option (list string);
  sniff : option (string -> bool);
  codecEncode : Node -> GlobalEncodeOptions -> string + VFile
}.

(** What a module exports under a key: a class derived from [Codec], some
    other value, or [null]/[undefined] (reading [.prototype] of it
    raises). *)
Inductive Export :=
| CodecClass (c : Codec)
| OtherValue
| Nullish.

(** The collaborators of [match]: [vfile.isPath], [path.basename],
    [path.extname], [mime.getType] and the dynamic [import] of a module
    specifier ([None] when the import is rejected). *)
Record Env := {
  isPath : string -> bool;
  basename : string -> string;
  extname : string -> string;
  getType : string -> option string;
  import_ : string -> option (list (string * Export))
}.

Definition codecList : list string :=
  [ "http"; "dir"; "dar"; "csv"; "ods"; "tdp"; "xlsx"; "docx"; "gdoc";
    "html"; "ipynb"; "jats"; "jats-pandoc"; "latex"; "md"; "odt"; "pdf";
    "txt"; "xmd"; "dmagic"; "rpng"; "yaml"; "pandoc"; "json5"; "jsonld";
    "json" ].

Fixpoint afterLetters (s : string) : string :=
  match s with
  | String c r => if JS.isLowerLetter c then afterLetters r else s
  | EmptyString => s
  end.

(** [/^[a-z]+:\/\//.test(s)] *)
Definition looksLikeUri (s : string) : bool :=
  match s with
  | String c r => JS.isLowerLetter c && String.prefix "://" (afterLetters r)
  | EmptyString => false
  end.

(** [codecRegexes]: the single pair [['http', /^https?:\/\//]]. *)
Definition codecRegexes : list (string * (string -> bool)) :=
  [ ("http",
     fun s => String.prefix "http://" s || String.prefix "https://" s) ].

Fixpoint firstRegex (rs : list (string * (string -> bool))) (content : string)
  : option string :=
  match rs with
  | [] => None
  | (codecName, regex) :: rest =>
      if regex content then Some codecName else firstRegex rest content
  end.

(** [getCodec]: the first export that is a codec class; [None] when a
    nullish export is met before one is found (a [TypeError]). *)
Fixpoint getCodec (exports : list (string * Export)) : option (option Codec) :=
  match exports with
  | [] => Some None
  | (_, CodecClass c) :: _ => Some (Some c)
  | (_, OtherValue) :: rest => getCodec rest
  | (_, Nullish) :: _ => None
  end.

(** The template string [`./codecs/${name}`]. *)
Definition specifier (name : option string) : string :=
  "./codecs/" +:+ default "undefined" name.

(** [getCodec(await import(...))]; [None] when the import is rejected or
    [getCodec] raises. *)
Definition loadCodec (env : Env) (name : option string)
  : option (option Codec) :=
  match import_ env (specifier name) with
  | None => None
  | Some exports => getCodec exports
  end.

(** One [try { codec = getCodec(await import(...)) } catch (error) {}]:
    when anything raises, the variable [codec] keeps its value. *)
Definition tryLoad (env : Env) (name : option string) (codec : option Codec)
  : option Codec :=
  default codec (loadCodec env name).

Record Keys := {
  fileName : option string;
  extName : option string;
  mediaType : option string
}.

Definition noKeys : Keys :=
  {| fileName := None; extName := None; mediaType := None |}.

(** [if (content && (vfile.isPath(content) || isOutput)) ...] *)
Definition derive (env : Env) (content : option string) (isOutput : bool)
  : Keys :=
  let c := default "" content in
  if JS.truthy content && (isPath env c || isOutput)
  then {| fileName := Some (basename env c);
          extName := Some (JS.toLowerCase (JS.slice1 (extname env c)));
          mediaType := JS.orUndefined (getType env c) |}
  else noKeys.

(** The [else] branch of [if (format)]: the registered regexes. *)
Definition byRegex (content : option string) (k : Keys) : Keys :=
  let c := default "" content in
  if JS.truthy content && looksLikeUri c then
    match firstRegex codecRegexes c with
    | Some codecName =>
        {| fileName := fileName k;
           extName := Some codecName;
           mediaType := mediaType k |}
    | None => k
    end
  else k.

(** The [then] branch of [if (format)]. *)
Definition byFormat (env : Env) (f : string) (k : Keys) : Keys :=
  if JS.includesChar "/"%char f
  then {| fileName := fileName k;
          extName := extName k;
          mediaType := Some f |}
  else {| fileName := fileName k;
          extName := Some f;
          mediaType := JS.orUndefined (getType env f) |}.

(** The variables [fileName], [extName], [mediaType] before the lookup. *)
Definition resolve (env : Env) (content format : option string)
  (isOutput : bool) : Keys :=
  let k := derive env content isOutput in
  if JS.truthy format then byFormat env (default "" format) k
  else byRegex content k.

(** [key && list && list.includes(key)] *)
Definition declared (key : option string) (l : option (list string)) : bool :=
  match l with
  | Some names => JS.truthy key && JS.includes (default "" key) names
  | None => false
  end.

(** [content && codec.sniff && (await codec.sniff(content))] *)
Definition sniffs (content : option string) (codec : Codec) : bool :=
  match sniff codec with
  | Some f => JS.truthy content && f (default "" content)
  | None => false
  end.

(** The four tests of the loop body, in their order. *)
Definition matches (k : Keys) (content : option string) (codec : Codec)
  : bool :=
  declared (fileName k) (fileNames codec)
  || declared (extName k) (extNames codec)
  || declared (mediaType k) (mediaTypes codec)
  || sniffs content codec.

(** The loop [for (const codecName of codecList)]; [codec] is the variable
    declared before it. [None]: the loop ended, exhausted or by [break],
    without returning. *)
Fixpoint scan (env : Env) (k : Keys) (content : option string)
  (names : list string) (codec : option Codec) : option Codec :=
  match names with
  | [] => None
  | codecName :: rest =>
      match tryLoad env (Some codecName) codec with
      | None => None
      | Some c =>
          if matches k content c then Some c
          else scan env k content rest (Some c)
      end
  end.

Definition noCodecMessage (content format : option string) : string :=
  "No codec could be found"
  +:+ (if JS.truthy content
       then " for content " +:+ JS.quoted (default "" content) else "")
  +:+ (if JS.truthy format
       then " for format " +:+ JS.quoted (default "" format) else "")
  +:+ ".".

Definition match_ (env : Env) (content format : option string)
  (isOutput : bool) : Outcome Codec :=
  let k := resolve env content format isOutput in
  match tryLoad env (extName k) None with
  | Some codec => Returned codec
  | None =>
      match scan env k content codecList None with
      | Some codec => Returned codec
      | None => Threw (NoCodecMatch (noCodecMessage content format))
      end
  end.

Definition handled (env : Env) (content format : option string) : bool :=
  match match_ env content format false with
  | Returned _ => true
  | Threw _ => false
  end.

Definition missingOptionMessage : string :=
  "At least one of " +:+ JS.quoted "filePath" +:+ " or "
  +:+ JS.quoted "format" +:+ " option must be provided".

Definition runEncode (codec : Codec) (node : Node)
  (options : GlobalEncodeOptions) : Outcome VFile :=
  match codecEncode codec node options with
  | inl message => Threw (CodecFailure message)
  | inr file => Returned file
  end.

Definition encode (env : Env) (node : Node) (options : GlobalEncodeOptions)
  : Outcome VFile :=
  if negb (JS.truthy (filePath options) || JS.truthy (format options))
  then Threw (MissingOption missingOptionMessage)
  else
    match match_ env (filePath options) (format options) true with
    | Threw e => Threw e
    | Returned codec => runEncode codec node options
    end.

End WithNodes.

Arguments codecId {Node VFile} _.
Arguments fileNames {Node VFile} _.
Arguments extNames {Node VFile} _.
Arguments mediaTypes {Node VFile} _.
Arguments sniff {Node VFile} _.
Arguments codecEncode {Node VFile} _ _ _.
Arguments CodecClass {Node VFile} c.
Arguments OtherValue {Node VFile}.
Arguments Nullish {Node VFile}.
Arguments isPath {Node VFile} _ _.
Arguments basename {Node VFile} _ _.
Arguments extname {Node VFile} _ _.
Arguments getType {Node VFile} _ _.
Arguments import_ {Node VFile} _ _.
Arguments getCodec {Node VFile} exports.
Arguments loadCodec {Node VFile} env name.
Arguments tryLoad {Node VFile} env name codec.
Arguments derive {Node VFile} env content isOutput.
Arguments byFormat {Node VFile} env f k.
Arguments resolve {Node VFile} env content format isOutput.
Arguments sniffs {Node VFile} content codec.
Arguments matches {Node VFile} k content codec.
Arguments scan {Node VFile} env k content names codec.
Arguments match_ {Node VFile} env content format isOutput.
Arguments handled {Node VFile} env content format.
Arguments runEncode {Node VFile} codec node options.
Arguments encode {Node VFile} env node options.

(** *** A small registry, for evaluating the matcher

    The declared metadata of [MdCodec], [JatsCodec], [ODSCodec] and
    [PlosCodec] are those of their classes; the other modules of
    [codecList] export a codec that declares its own name as extension.
    The [sniff] of [JatsCodec] and of [PlosCodec] is given by its answer on
    the contents of the examples, none of which is JATS or an identifier
    of a PLoS article. *)

Definition noEncode : unit -> GlobalEncodeOptions -> string + unit :=
  fun _ _ => inr tt.

Definition mdCodec : Codec unit unit :=
  {| codecId := "MdCodec";
     fileNames := None;
     extNames := None;
     mediaTypes := Some ["text/markdown"; "text/x-markdown"];
     sniff := None;
     codecEncode := noEncode |}.

Definition jatsCodec : Codec unit unit :=
  {| codecId := "JatsCodec";
     fileNames := None;
     extNames := Some ["jats"];
     mediaTypes := Some ["application/jats+xml"];
     sniff := Some (fun _ => false);
     codecEncode := noEncode |}.

Definition odsCodec : Codec unit unit :=
  {| codecId := "ODSCodec";
     fileNames := None;
     extNames := None;
     mediaTypes := Some ["application/vnd.oasis.opendocument.spreadsheet"];
     sniff := None;
     codecEncode := noEncode |}.

(** [PlosCodec], whose module is not named in [codecList]. *)
Definition plosCodec : Codec unit unit :=
  {| codecId := "PlosCodec";
     fileNames := None;
     extNames := None;
     mediaTypes := None;
     sniff := Some (fun _ => false);
     codecEncode :=
       fun _ _ => inl "Encoding to a PLoS article is not yet implemented" |}.

Definition plainCodec (name : string) : Codec unit unit :=
  {| codecId := name;
     fileNames := None;
     extNames := Some [name];
     mediaTypes := None;
     sniff := None;
     codecEncode := noEncode |}.

Fixpoint stripPrefix (p s : string) : option string :=
  match p, s with
  | EmptyString, _ => Some s
  | String a p', String b s' => if Ascii.eqb a b then stripPrefix p' s' else None
  | String _ _, EmptyString => None
  end.

(** Modules present under [./codecs/]; [missing] names modules whose
    import is rejected. *)
Definition registryImport (missing : list string) (spec : string)
  : option (list (string * Export unit unit)) :=
  match stripPrefix "./codecs/" spec with
  | Some name =>
      if JS.includes name missing then None
      else if String.eqb name "md" then Some [("MdCodec", CodecClass mdCodec)]
      else if String.eqb name "jats"
        then Some [("JatsCodec", CodecClass jatsCodec)]
      else if String.eqb name "ods" then Some [("ODSCodec", CodecClass odsCodec)]
      else if String.eqb name "plos"
        then Some [("PlosCodec", CodecClass plosCodec)]
      else if JS.includes name codecList
        then Some [("log", OtherValue); (name, CodecClass (plainCodec name))]
      else None
  | None => None
  end.

(** The part of [s] after its last occurrence of [c], if it has one. *)
Fixpoint afterLast (c : ascii) (s : string) : option string :=
  match s with
  | EmptyString => None
  | String d r =>
      match afterLast c r with
      | Some t => Some t
      | None => if Ascii.eqb c d then Some r else None
      end
  end.

Definition simpleBasename (s : string) : string :=
  default s (afterLast "/"%char s).

Definition simpleExtname (s : string) : string :=
  match afterLast "."%char (JS.slice1 (simpleBasename s)) with
  | Some ext => "." +:+ ext
  | None => ""
  end.

Definition simpleGetType (s : string) : option string :=
  let ext := default s (afterLast "."%char s) in
  if String.eqb ext "md" then Some "text/markdown"
  else if String.eqb ext "jats" then Some "application/jats+xml"
  else None.

Definition registryEnv (missing : list string) : Env unit unit :=
  {| isPath := fun s => negb (String.eqb (simpleExtname s) "");
     basename := simpleBasename;
     extname := simpleExtname;
     getType := simpleGetType;
     import_ := registryImport missing |}.

(** Every module named in [names] exports a codec, and none of these
    codecs passes the tests of the loop. *)
Definition allLoadedFail (env : Env unit unit) (k : Keys)
  (content : option string) (names : list string) : bool :=
  forallb (fun codecName =>
             match loadCodec env (Some codecName) with
             | Some (Some c) => negb (matches k content c)
             | _ => false
             end) names.

(** [provided]: the option is present in the options object. *)
Definition provided (o : option string) : bool :=
  match o with
  | Some _ => true
  | None => false
  end.

(** *** The scan, module by module *)

(** A module of the list is passed over by the loop: it exports a codec
    that fails the four tests or, once a codec has been loaded
    ([loaded]), its import is rejected and the codec loaded before, which
    failed the tests, is tested again. *)
Definition passedOver {Node VFile : Type} (env : Env Node VFile) (k : Keys)
  (content : option string) (loaded : bool) (codecName : string) : Prop :=
  (exists c, loadCodec env (Some codecName) = Some (Some c)
             /\ matches k content c = false)
  \/ (loaded = true /\ loadCodec env (Some codecName) = None).

(** *** [dump] *)

(** [{ ...options, format }] *)
Definition withFormat (options : GlobalEncodeOptions) (f : string)
  : GlobalEncodeOptions :=
  {| filePath := filePath options; format := Some f |}.

(** [dump(node, format, options)]; [vfileDump] is [vfile.dump]. *)
Definition dump {Node VFile : Type} (vfileDump : VFile -> string)
  (env : Env Node VFile) (node : Node) (f : string)
  (options : GlobalEncodeOptions) : Outcome string :=
  match encode env node (withFormat options f) with
  | Returned file => Returned (vfileDump file)
  | Threw e => Threw e
  end.

End Matcher.

(** ** The Markdown codec *)

Module Md.

(** A JavaScript number, up to the rounding of finite values. *)
Inductive number :=
| NaN
| Infinity (negative : bool)
| Finite (value : Q).

(** The node model, restricted to the node types whose Markdown encoders
    and decoders are embedded below. [Article] keeps its [content] apart
    from its other properties; [Quote] holds text runs only, the form
    [decodeQuote] produces. *)
Inductive Node :=
| Null
| Boolean (value : bool)
| Number (value : number)
| Text (value : string)
| Array (items : list Node)
| Object (props : list (string * Node))
| Article (others : list (string * Node)) (content : option (list Node))
| Include (source : string) (content : option (list Node))
| Heading (depth : nat) (content : list Node)
| Paragraph (content : list Node)
| QuoteBlock (content : list Node)
| CodeBlock (text : string) (programmingLanguage : option string)
    (meta : option (list (string * string)))
| CodeChunk (text : string) (programmingLanguage : option string)
    (meta : option (list (string * string))) (outputs : option (list Node))
| Figure (content : option (list Node)) (caption : option (list Node))
    (label : option string)
| ThematicBreak
| Cite (target : string)
| Emphasis (content : list Node)
| Strong (content : list Node)
| Delete (content : list Node)
| Quote (content : list string) (cite : option string).

(** [isBlockContent] of the schema, on these node types. *)
Definition isBlockContent (node : Node) : bool :=
  match node with
  | Include _ _ | Heading _ _ | Paragraph _ | QuoteBlock _
  | CodeBlock _ _ _ | CodeChunk _ _ _ _ | Figure _ _ _ | ThematicBreak => true
  | _ => false
  end.

(** *** Objects as ordered property lists *)

Fixpoint objGet {A : Type} (key : string) (o : list (string * A)) : option A :=
  match o with
  | [] => None
  | (k, v) :: rest => if String.eqb key k then Some v else objGet key rest
  end.

Fixpoint objSet {A : Type} (key : string) (value : A) (o : list (string * A))
  : list (string * A) :=
  match o with
  | [] => [(key, value)]
  | (k, v) :: rest =>
      if String.eqb key k then (k, value) :: rest
      else (k, v) :: objSet key value rest
  end.

Fixpoint objDelete {A : Type} (key : string) (o : list (string * A))
  : list (string * A) :=
  match o with
  | [] => []
  | (k, v) :: rest =>
      if String.eqb key k then objDelete key rest
      else (k, v) :: objDelete key rest
  end.

(** [{ ...target, ...source }] *)
Definition objSpread {A : Type} (source target : list (string * A))
  : list (string * A) :=
  fold_left (fun o kv => objSet (fst kv) (snd kv) o) source target.

(** *** MDAST *)

(** A generic extension node of [remark-generic-extensions]. *)
Record Extension := {
  name : string;
  content : option string;
  argument : option string;
  properties : option (list (string * option string))
}.

(** The MDAST node types that are embedded; [m_undefined] stands for a
    slot of a [children] array that holds [undefined] (an encoder
    returned nothing), [unknown] for a node type without decoder. *)
Inductive Mdast :=
| m_undefined
| root (children : list Mdast)
| yaml (value : string)
| heading (depth : nat) (children : list Mdast)
| paragraph (children : list Mdast)
| blockquote (children : list Mdast)
| code (lang : option string) (meta : option string)
    (hProperties : option (list (string * string))) (value : string)
| thematicBreak
| emphasis (children : list Mdast)
| strong (children : list Mdast)
| delete (children : list Mdast)
| text (value : string)
| html (value : string)
| inlineExtension (ext : Extension)
| blockExtension (ext : Extension)
| unknown (type : string).

(** The third-party functions the codec calls. [parseRoot] is the unified
    parser with its plugins followed by [compact], [resolveReferences] and
    [stringifyHTML], giving the children of the root; [stringify] is the
    remark stringifier; the others are [yaml.safeLoad] ([None]: it raises
    or does not give an object), [yaml.safeDump], [parseFloat],
    [Number.prototype.toString], [JSON5.parse] ([None]: it raises),
    [JSON5.stringify], [JSON.stringify] of a property value and
    [HTMLCodec.decodeHtml]. *)
Record Lib := {
  parseRoot : string -> list Mdast;
  stringify : Mdast -> string;
  safeLoad : string -> option (list (string * Node));
  safeDump : list (string * Node) -> string;
  parseFloat : string -> number;
  numberToString : number -> string;
  json5Parse : string -> option Node;
  json5Stringify : Node -> string;
  jsonStringify : option string -> string;
  decodeHtml : string -> option Node
}.

(** *** Text *)

Inductive WsState := AtStart | AfterText | AfterSpace | Skipping.

(** [s.replace(whiteSpaceRegEx, '$1 ')] with
    [whiteSpaceRegEx = /(^|[^\n\s])[\n]+\s*(?![\n])/g]: a run of line
    feeds that starts the string or follows a character that is not white
    space is replaced, with all the white space after it, by one space. *)
Fixpoint collapseFrom (st : WsState) (s : string) : string :=
  match s with
  | EmptyString => EmptyString
  | String c r =>
      match st with
      | Skipping =>
          if JS.isSpace c then collapseFrom Skipping r
          else String c (collapseFrom AfterText r)
      | AfterSpace =>
          if JS.isSpace c then String c (collapseFrom AfterSpace r)
          else String c (collapseFrom AfterText r)
      | AtStart | AfterText =>
          if JS.isNewline c then String " "%char (collapseFrom Skipping r)
          else if JS.isSpace c then String c (collapseFrom AfterSpace r)
          else String c (collapseFrom AfterText r)
      end
  end.

Definition collapseNewlines (s : string) : string := collapseFrom AtStart s.

Definition decodeText (value : string) : Node := Text (collapseNewlines value).

Definition encodeString (value : string) : Mdast :=
  text (collapseNewlines value).

(** *** Decoding the generic extensions *)

(** [ext.argument ?? ext.content] *)
Definition argumentOrContent (ext : Extension) : option string :=
  match argument ext with
  | Some a => Some a
  | None => content ext
  end.

Definition decodeBoolean (ext : Extension) : bool :=
  if String.eqb (name ext) "true" then true
  else if String.eqb (name ext) "false" then false
  else
    let value := default "true" (argumentOrContent ext) in
    String.eqb value "true" || String.eqb value "1".

Definition decodeNumber (lib : Lib) (ext : Extension) : number :=
  parseFloat lib (default "0" (argumentOrContent ext)).

Definition decodeArray (lib : Lib) (ext : Extension) : option Node :=
  json5Parse lib ("[" +:+ default "" (argumentOrContent ext) +:+ "]").

(** The properties of an extension whose value is not [undefined]. *)
Definition definedProps (props : list (string * option string))
  : list (string * Node) :=
  fold_left
    (fun o kv =>
       match snd kv with
       | Some value => objSet (fst kv) (Text value) o
       | None => o
       end)
    props [].

Definition decodeObject (lib : Lib) (ext : Extension) : option Node :=
  let parsed :=
    json5Parse lib
      ("{" +:+ default "undefined" (argumentOrContent ext) +:+ "}") in
  match properties ext with
  | Some props =>
      match definedProps props with
      | [] => parsed
      | defined => Some (Object defined)
      end
  | None => parsed
  end.

Definition decodeQuote (ext : Extension) : Node :=
  Quote (if JS.truthy (content ext) then [default "" (content ext)] else [])
    (JS.orUndefined (argument ext)).

(** [article.content], when [article] is an [Article]. *)
Definition articleContent (article : Node) : option (list Node) :=
  match article with
  | Article _ c => c
  | _ => None
  end.

Definition decodeInclude (nested : string -> option Node) (ext : Extension)
  : option Node :=
  let source := default "" (argument ext) in
  if JS.truthy (content ext) then
    article ← nested (default "" (content ext));
    Some (Include source
            (Some (filter (fun n => isBlockContent n = true)
                     (default [] (articleContent article)))))
  else Some (Include source None).

Definition decodeFigure (nested : string -> option Node) (ext : Extension)
  : option Node :=
  match content ext with
  | None => Some (Figure None None None)
  | Some md =>
      article ← nested md;
      let nodes := default [] (articleContent article) in
      Some (Figure (Some (take 1 nodes)) (Some (drop 1 nodes)) (argument ext))
  end.

(** [pushOutputs] of [decodeCodeChunk]: the output for one group of
    nodes. *)
Definition pushOutputs (outputs : list Node) (outputNodes : list Node)
  : list Node :=
  match outputNodes with
  | [Paragraph [inner]] => outputs ++ [inner]
  | [node] => outputs ++ [node]
  | _ => outputs ++ [Array outputNodes]
  end.

(** The loop of [decodeCodeChunk] over [nodes.slice(1)], with its two
    variables [outputs] and [outputNodes], and the final [pushOutputs]. *)
Fixpoint collectOutputs (containers : list Node)
  (outputs outputNodes : list Node) : list Node :=
  match containers with
  | [] => pushOutputs outputs outputNodes
  | ThematicBreak :: rest =>
      collectOutputs rest (pushOutputs outputs outputNodes) []
  | outputContainer :: rest =>
      collectOutputs rest outputs (outputNodes ++ [outputContainer])
  end.

Definition decodeCodeChunk (nested : string -> option Node) (ext : Extension)
  : option Node :=
  match content ext with
  | None => Some (CodeChunk "" None None None)
  | Some md =>
      article ← nested md;
      let nodes := default [] (articleContent article) in
      match nodes with
      | CodeBlock source programmingLanguage meta :: rest =>
          let outputs :=
            match rest with
            | [] => []
            | _ => collectOutputs rest [] []
            end in
          Some (CodeChunk source programmingLanguage meta
                  (match outputs with [] => None | _ => Some outputs end))
      | _ => Some (CodeChunk "" None None None)
      end
  end.

Definition decodeCodeblock (lang meta : option string)
  (hProperties : option (list (string * string))) (value : string) : Node :=
  CodeBlock value (JS.orUndefined lang)
    (if JS.truthy meta then hProperties else None).

Definition decodeHTML (lib : Lib) (value : string) : Node :=
  default (Text "") (decodeHtml lib value).

(** The inner [switch (ext.name)] of [decodeNode]. *)
Definition decodeGenericExtension (lib : Lib)
  (nested : string -> option Node) (ext : Extension) : option Node :=
  let n := name ext in
  if String.eqb n "chunk" then decodeCodeChunk nested ext
  else if String.eqb n "figure" then decodeFigure nested ext
  else if String.eqb n "quote" then Some (decodeQuote ext)
  else if String.eqb n "include" then decodeInclude nested ext
  else if String.eqb n "null" then Some Null
  else if String.eqb n "boolean" || String.eqb n "true" || String.eqb n "false"
    then Some (Boolean (decodeBoolean ext))
  else if String.eqb n "number" then Some (Number (decodeNumber lib ext))
  else if String.eqb n "array" then decodeArray lib ext
  else if String.eqb n "object" then decodeObject lib ext
  else Some (Text "").

(** [decodeNode]; [nested] is the call of [decodeMarkdown] on the content
    of a block extension. [None]: an exception is raised. *)
Fixpoint decodeNode (lib : Lib) (nested : string -> option Node)
  (node : Mdast) : option Node :=
  match node with
  | heading depth children =>
      Heading depth <$> mapM (decodeNode lib nested) children
  | paragraph children => Paragraph <$> mapM (decodeNode lib nested) children
  | blockquote children =>
      QuoteBlock <$> mapM (decodeNode lib nested) children
  | code lang meta hProperties value =>
      Some (decodeCodeblock lang meta hProperties value)
  | thematicBreak => Some ThematicBreak
  | emphasis children => Emphasis <$> mapM (decodeNode lib nested) children
  | strong children => Strong <$> mapM (decodeNode lib nested) children
  | delete children => Delete <$> mapM (decodeNode lib nested) children
  | text value => Some (decodeText value)
  | inlineExtension ext | blockExtension ext => decodeGenericExtension lib nested ext
  | html value => Some (decodeHTML lib value)
  | root _ | yaml _ | unknown _ => Some (Text "")
  | m_undefined => None
  end.

(** *** Decoding an article *)

(** The variables [title], [meta] and [content] of [decodeArticle]. *)
Record ArticleVars := {
  title : option Node;
  meta : option (list (string * Node));
  body : list Node
}.

(** [content.length === 1 && typeof content[0] === 'string' ? content[0] : content] *)
Definition headingTitle (content : list Node) : Node :=
  match content with
  | [Text s] => Text s
  | _ => Array content
  end.

Fixpoint decodeArticleLoop (lib : Lib) (nested : string -> option Node)
  (children : list Mdast) (vars : ArticleVars) : option ArticleVars :=
  match children with
  | [] => Some vars
  | child :: rest =>
      match child, title vars with
      | yaml value, _ =>
          frontmatter ← safeLoad lib value;
          decodeArticleLoop lib nested rest
            {| title := match objGet "title" frontmatter with
                        | Some t => Some t
                        | None => title vars
                        end;
               meta := Some frontmatter;
               body := body vars |}
      | heading 1 inlines, None =>
          content ← mapM (decodeNode lib nested) inlines;
          decodeArticleLoop lib nested rest
            {| title := Some (headingTitle content);
               meta := meta vars;
               body := body vars |}
      | _, _ =>
          node ← decodeNode lib nested child;
          decodeArticleLoop lib nested rest
            {| title := title vars;
               meta := meta vars;
               body := body vars ++ [node] |}
      end
  end.

(** [stencila.article({ title, ...meta, content })] *)
Definition article (title : option Node) (meta : option (list (string * Node)))
  (content : list Node) : Node :=
  let props :=
    objSpread (default [] meta)
      (match title with Some t => [("title", t)] | None => [] end) in
  Article (objDelete "content" (objDelete "type" props)) (Some content).

Definition decodeArticle (lib : Lib) (nested : string -> option Node)
  (children : list Mdast) : option Node :=
  vars ← decodeArticleLoop lib nested children
           {| title := None; meta := None; body := [] |};
  Some (article (title vars) (meta vars) (body vars)).

(** [decodeMarkdown]; [fuel] bounds the nesting of block extensions whose
    content is decoded as Markdown in turn. *)
Fixpoint decodeMarkdown (lib : Lib) (fuel : nat) (md : string)
  (isStandalone : bool) : option Node :=
  match fuel with
  | O => None
  | S fuel' =>
      let nested := fun s => decodeMarkdown lib fuel' s true in
      if isStandalone then decodeArticle lib nested (parseRoot lib md)
      else Array <$> mapM (decodeNode lib nested) (parseRoot lib md)
  end.

(** *** The passes over the encoded tree *)

Definition hasChildren (l : list Mdast) : bool :=
  match l with [] => false | _ => true end.

(** [filter(encoded, node => typeof node !== 'undefined')] of
    [unist-util-filter]: undefined slots are removed, and a parent that had
    children and keeps none is removed with them. [None]: [null]. *)
Fixpoint filterDefined (node : Mdast) : option Mdast :=
  let keep (make : list Mdast -> Mdast) (children : list Mdast) :=
    let kept := omap filterDefined children in
    if hasChildren children && negb (hasChildren kept) then None
    else Some (make kept) in
  match node with
  | m_undefined => None
  | root children => keep root children
  | heading depth children => keep (heading depth) children
  | paragraph children => keep paragraph children
  | blockquote children => keep blockquote children
  | emphasis children => keep emphasis children
  | strong children => keep strong children
  | delete children => keep delete children
  | _ => Some node
  end.

Definition propsText (lib : Lib) (props : list (string * option string))
  : string :=
  JS.join " "
    (map (fun kv => fst kv +:+ "=" +:+ jsonStringify lib (snd kv)) props).

(** The string [value] built by [stringifyExtensions] for one node. *)
Definition extensionText (lib : Lib) (inline : bool) (ext : Extension)
  : string :=
  let props :=
    match properties ext with
    | Some ps => "{" +:+ propsText lib ps +:+ "}"
    | None => ""
    end in
  if inline then
    "!" +:+ name ext
    +:+ (if JS.truthy (content ext)
         then "[" +:+ default "" (content ext) +:+ "]" else "")
    +:+ (if JS.truthy (argument ext)
         then "(" +:+ default "" (argument ext) +:+ ")" else "")
    +:+ props
  else
    name ext +:+ ":"
    +:+ (if JS.truthy (argument ext)
         then " " +:+ default "" (argument ext) else "")
    +:+ JS.newline +:+ ":::" +:+ JS.newline
    +:+ default "" (JS.orUndefined (content ext))
    +:+ JS.newline +:+ ":::"
    +:+ props.

Fixpoint stringifyExtensions (lib : Lib) (tree : Mdast) : Mdast :=
  match tree with
  | inlineExtension ext => html (extensionText lib true ext)
  | blockExtension ext => html (extensionText lib false ext)
  | root children => root (map (stringifyExtensions lib) children)
  | heading depth children =>
      heading depth (map (stringifyExtensions lib) children)
  | paragraph children => paragraph (map (stringifyExtensions lib) children)
  | blockquote children => blockquote (map (stringifyExtensions lib) children)
  | emphasis children => emphasis (map (stringifyExtensions lib) children)
  | strong children => strong (map (stringifyExtensions lib) children)
  | delete children => delete (map (stringifyExtensions lib) children)
  | _ => tree
  end.

Definition stringifyMeta (meta : list (string * string)) : string :=
  JS.join " "
    (map (fun kv =>
            let value := snd kv in
            if JS.truthy (Some value) then
              fst kv +:+ "="
              +:+ (if JS.hasSpace value then JS.quoted value else value)
            else fst kv)
       meta).

(** [stringifyAttrs]: of the embedded node types only [code] carries
    [data.hProperties]. *)
Fixpoint stringifyAttrs (lib : Lib) (tree : Mdast) : Mdast :=
  match tree with
  | code _ _ (Some props) _ =>
      html (stringify lib tree +:+ "{" +:+ stringifyMeta props +:+ "}")
  | root children => root (map (stringifyAttrs lib) children)
  | heading depth children => heading depth (map (stringifyAttrs lib) children)
  | paragraph children => paragraph (map (stringifyAttrs lib) children)
  | blockquote children => blockquote (map (stringifyAttrs lib) children)
  | emphasis children => emphasis (map (stringifyAttrs lib) children)
  | strong children => strong (map (stringifyAttrs lib) children)
  | delete children => delete (map (stringifyAttrs lib) children)
  | _ => tree
  end.

(** [encodeMarkdown] after its call of [encodeNode]. [None]: the filter
    gives [null] and the next pass raises. *)
Definition renderEncoded (lib : Lib) (encoded : Mdast) : option string :=
  match encoded with
  | m_undefined => Some ""
  | _ =>
      mdast ← filterDefined encoded;
      Some (stringify lib (stringifyAttrs lib (stringifyExtensions lib mdast)))
  end.

(** *** Encoding *)

Definition nodeType (node : Node) : string :=
  match node with
  | Null => "Null"
  | Boolean _ => "Boolean"
  | Number _ => "Number"
  | Text _ => "Text"
  | Array _ => "Array"
  | Object _ => "Object"
  | Article _ _ => "Article"
  | Include _ _ => "Include"
  | Heading _ _ => "Heading"
  | Paragraph _ => "Paragraph"
  | QuoteBlock _ => "QuoteBlock"
  | CodeBlock _ _ _ => "CodeBlock"
  | CodeChunk _ _ _ _ => "CodeChunk"
  | Figure _ _ _ => "Figure"
  | ThematicBreak => "ThematicBreak"
  | Cite _ => "Cite"
  | Emphasis _ => "Emphasis"
  | Strong _ => "Strong"
  | Delete _ => "Delete"
  | Quote _ _ => "Quote"
  end.

(** The test of [encodeParagraph]: no content, or one text node that is
    empty after [trim]. *)
Definition isEmptyParagraph (content : list Node) : bool :=
  match content with
  | [] => true
  | [first] =>
      String.eqb (nodeType first) "Text"
      && match first with
         | Text s => (String.length (JS.trim s) =? 0)%nat
         | _ => false
         end
  | _ => false
  end.

Definition inlineExt (name : string) (content argument : option string)
  : Mdast :=
  inlineExtension
    {| name := name; content := content; argument := argument;
       properties := None |}.

Definition blockExt (name : string) (content argument : option string)
  : Mdast :=
  blockExtension
    {| name := name; content := content; argument := argument;
       properties := None |}.

Definition encodeNull : Mdast := inlineExt "null" None None.

Definition encodeBoolean (value : bool) : Mdast :=
  inlineExt (if value then "true" else "false") None None.

Definition encodeNumber (lib : Lib) (value : number) : Mdast :=
  inlineExt "number" None (Some (numberToString lib value)).

Definition encodeArray (lib : Lib) (value : Node) : Mdast :=
  inlineExt "array" None (Some (JS.sliceInner (json5Stringify lib value))).

Definition encodeObject (lib : Lib) (value : Node) : Mdast :=
  inlineExt "object" None (Some (JS.sliceInner (json5Stringify lib value))).

Definition encodeCodeBlock (source : string)
  (programmingLanguage : option string)
  (meta : option (list (string * string))) : Mdast :=
  code programmingLanguage
    (Some (match meta with Some m => stringifyMeta m | None => "" end))
    None (JS.trimEnd source).

Definition encodeQuote (content : list string) (cite : option string) : Mdast :=
  inlineExt "quote" (head content) cite.

(** [encodeNode]. The calls [encodeMarkdown({ type: 'Article', content })]
    of [encodeInclude], [encodeCodeChunk] and [encodeFigure] are unfolded
    to the root they encode and [renderEncoded]; see
    [encodeCodeChunk_unfold]. [None]: an exception is raised. *)
Fixpoint encodeNode (lib : Lib) (node : Node) : option Mdast :=
  let nestedMarkdown (children : list Mdast) : option string :=
    JS.trim <$> renderEncoded lib (root children) in
  match node with
  | Article others content =>
      children ← match content with
                 | Some nodes => mapM (encodeNode lib) nodes
                 | None => Some []
                 end;
      Some (root (match others with
                  | [] => children
                  | _ => yaml (JS.trim (safeDump lib others)) :: children
                  end))
  | Include source content =>
      children ← match content with
                 | Some nodes => mapM (encodeNode lib) nodes
                 | None => Some []
                 end;
      md ← nestedMarkdown children;
      Some (blockExt "include" (Some md) (Some source))
  | Heading depth content => heading depth <$> mapM (encodeNode lib) content
  | Paragraph content =>
      if isEmptyParagraph content then Some m_undefined
      else paragraph <$> mapM (encodeNode lib) content
  | QuoteBlock content => blockquote <$> mapM (encodeNode lib) content
  | CodeBlock source programmingLanguage meta =>
      Some (encodeCodeBlock source programmingLanguage meta)
  | CodeChunk source programmingLanguage meta outputs =>
      let block :=
        encodeCodeBlock source (Some (default "text" programmingLanguage))
          meta in
      rest ← match outputs with
             | None => Some []
             | Some outs0 =>
               (fix each (outs : list Node) (index : nat)
                  : option (list Mdast) :=
                match outs with
                | [] => Some []
                | output :: more =>
                    here ← match output with
                           | Array items =>
                               if forallb isBlockContent items
                               then mapM (encodeNode lib) items
                               else m ← encodeNode lib output; Some [m]
                           | _ => m ← encodeNode lib output; Some [m]
                           end;
                    after ← each more (S index);
                    Some ((match index with
                           | O => []
                           | S _ => [thematicBreak]
                           end) ++ here ++ after)
                end) outs0 O
             end;
      md ← nestedMarkdown (block :: rest);
      Some (blockExt "chunk" (Some md) None)
  | Figure content caption label =>
      first ← match content with
              | Some nodes => mapM (encodeNode lib) nodes
              | None => Some []
              end;
      second ← match caption with
               | Some nodes => mapM (encodeNode lib) nodes
               | None => Some []
               end;
      md ← nestedMarkdown (first ++ second);
      Some (blockExt "figure" (Some md) label)
  | ThematicBreak => Some thematicBreak
  | Cite target => Some (text ("@" +:+ target))
  | Emphasis content => emphasis <$> mapM (encodeNode lib) content
  | Strong content => strong <$> mapM (encodeNode lib) content
  | Delete content => delete <$> mapM (encodeNode lib) content
  | Quote content cite => Some (encodeQuote content cite)
  | Text value => Some (encodeString value)
  | Null => Some encodeNull
  | Boolean value => Some (encodeBoolean value)
  | Number value => Some (encodeNumber lib value)
  | Array _ => Some (encodeArray lib node)
  | Object _ => Some (encodeObject lib node)
  end.

Definition encodeMarkdown (lib : Lib) (node : Node) : option string :=
  encoded ← encodeNode lib node;
  renderEncoded lib encoded.



(** *** Splitting and joining outputs, as the specification words them *)

(** The groups of nodes between thematic breaks. *)
Fixpoint splitOnBreaks (nodes : list Node) : list (list Node) :=
  match nodes with
  | [] => [[]]
  | ThematicBreak :: rest => [] :: splitOnBreaks rest
  | node :: rest =>
      match splitOnBreaks rest with
      | group :: groups => (node :: group) :: groups
      | [] => [[node]]
      end
  end.

(** The output that a group stands for: a paragraph holding one child is
    unwrapped to that child, another single node is itself, and any other
    group is the array of its nodes. *)
Definition outputOfGroup (group : list Node) : Node :=
  match group with
  | [Paragraph [inner]] => inner
  | [node] => node
  | _ => Array group
  end.



Definition isThematicBreak (node : Node) : bool :=
  match node with
  | ThematicBreak => true
  | _ => false
  end.


(** *** Collaborators for evaluating the codec on examples

    A stringifier that writes the values of text and html nodes as they
    are, and a parser, a YAML loader, [parseFloat] and [JSON5.parse] that
    know the few texts below. *)

Fixpoint exampleStringify (tree : Mdast) : string :=
  match tree with
  | text value | html value | yaml value => value
  | root children =>
      JS.join (JS.newline +:+ JS.newline) (map exampleStringify children)
  | heading _ children => "# " +:+ JS.join "" (map exampleStringify children)
  | paragraph children | blockquote children | emphasis children
  | strong children | delete children =>
      JS.join "" (map exampleStringify children)
  | code _ _ _ value => "```" +:+ JS.newline +:+ value +:+ JS.newline +:+ "```"
  | thematicBreak => "***"
  | _ => ""
  end.

Definition exampleDocument : string :=
  "---" +:+ JS.newline +:+ "title: Front" +:+ JS.newline +:+ "---"
  +:+ JS.newline +:+ JS.newline +:+ "# Heading"
  +:+ JS.newline +:+ JS.newline +:+ "Body" +:+ JS.newline.

Definition exampleParse (md : string) : list Mdast :=
  if String.eqb md "!true" then [paragraph [inlineExt "true" None None]]
  else if String.eqb md "!false" then [paragraph [inlineExt "false" None None]]
  else if String.eqb md exampleDocument
    then [ yaml "title: Front"; heading 1 [text "Heading"];
           paragraph [text "Body"] ]
  else [paragraph [text md]].

Definition exampleLib : Lib :=
  {| parseRoot := exampleParse;
     stringify := exampleStringify;
     safeLoad := fun value =>
       if String.eqb value "title: Front"
       then Some [("title", Text "Front")] else None;
     safeDump := fun _ => "";
     parseFloat := fun s => if String.eqb s "0" then Finite 0 else NaN;
     numberToString := fun _ => "0";
     json5Parse := fun s => if String.eqb s "[]" then Some (Array []) else None;
     json5Stringify := fun _ => "[]";
     jsonStringify := fun value => JS.quoted (default "" value);
     decodeHtml := fun _ => None |}.

(** *** Notions for the statements *)


Definition extension (n : string) (c a : option string)
  (p : option (list (string * option string))) : Extension :=
  {| name := n; content := c; argument := a; properties := p |}.

Definition booleanLiteral (value : bool) : string :=
  "!" +:+ (if value then "true" else "false").

Definition isYaml (node : Mdast) : bool :=
  match node with
  | yaml _ => true
  | _ => false
  end.

(** [article.title] *)
Definition titleOf (node : Node) : option Node :=
  match node with
  | Article others _ => objGet "title" others
  | _ => None
  end.

(** The first group of [groups] extended in front by the nodes gathered
    so far. *)
Definition extendFirst (gathered : list Node) (groups : list (list Node))
  : list (list Node) :=
  match groups with
  | group :: others => (gathered ++ group) :: others
  | [] => [gathered]
  end.

(** *** Further notions for the statements *)

(** The state of [collapseFrom] in which the text written from state [st]
    is read again: what follows a replaced run of line feeds follows the
    space written for it. *)
Definition settled (st : WsState) : WsState :=
  match st with
  | Skipping => AfterSpace
  | _ => st
  end.

(** An extension node occurs in the tree. *)
Fixpoint hasExtension (tree : Mdast) : bool :=
  match tree with
  | inlineExtension _ | blockExtension _ => true
  | root children | heading _ children | paragraph children
  | blockquote children | emphasis children | strong children
  | delete children => existsb hasExtension children
  | _ => false
  end.

(** The nodes that [encodeNode] and [decodeNode] map back and forth: text
    that [collapseNewlines] leaves as it is, primitive values that the
    parser reads back as the stringifier wrote them, paragraphs that are
    not dropped, code blocks without [meta] whose text does not end in
    white space, quotes of at most one non-empty string, and headings,
    block quotes and marks of such nodes. *)
Fixpoint roundTrips (lib : Lib) (node : Node) : Prop :=
  let each (nodes : list Node) :=
    fold_right and True (map (roundTrips lib) nodes) in
  match node with
  | Null | Boolean _ | ThematicBreak => True
  | Number value => parseFloat lib (numberToString lib value) = value
  | Text value => collapseNewlines value = value
  | Array _ =>
      json5Parse lib
        ("[" +:+ JS.sliceInner (json5Stringify lib node) +:+ "]")
      = Some node
  | Object _ =>
      json5Parse lib
        ("{" +:+ JS.sliceInner (json5Stringify lib node) +:+ "}")
      = Some node
  | Heading _ content | QuoteBlock content | Emphasis content
  | Strong content | Delete content => each content
  | Paragraph content => isEmptyParagraph content = false /\ each content
  | CodeBlock source programmingLanguage meta =>
      JS.trimEnd source = source
      /\ JS.orUndefined programmingLanguage = programmingLanguage
      /\ meta = None
  | Quote content cite =>
      (content = []
       \/ exists s, content = [s] /\ JS.truthy (Some s) = true)
      /\ JS.orUndefined cite = cite
  | _ => False
  end.

(** A child that [decodeArticle] takes for the title when none is set. *)
Definition isTitleHeading (node : Mdast) : bool :=
  match node with
  | heading 1 _ => true
  | _ => false
  end.

(** [stencila.isA('CodeBlock', node)] *)
Definition isCodeBlock (node : Node) : bool :=
  match node with
  | CodeBlock _ _ _ => true
  | _ => false
  end.

(** The thematic breaks among the nodes. *)
Definition countBreaks (nodes : list Node) : nat :=
  length (filter (fun node => isThematicBreak node = true) nodes).

(** [exampleLib] with a YAML dumper that writes the front matter that its
    loader knows. *)
Definition yamlLib : Lib :=
  {| parseRoot := parseRoot exampleLib;
     stringify := stringify exampleLib;
     safeLoad := safeLoad exampleLib;
     safeDump := fun _ => "title: Front";
     parseFloat := parseFloat exampleLib;
     numberToString := numberToString exampleLib;
     json5Parse := json5Parse exampleLib;
     json5Stringify := json5Stringify exampleLib;
     jsonStringify := jsonStringify exampleLib;
     decodeHtml := decodeHtml exampleLib |}.

End Md.

(** ** The JATS encoder *)

Module Jats.

(** An XML element tree as [xml-js] has it. The [<xref ref-type="bibr">]
    elements made by [encodeCite] are objects that stay shared between the
    tree and [EncodeState.citations] and are mutated after their creation:
    they live in a heap and the tree holds their address ([XRef]).
    [XNode] is a node-model object handed to [elem] as a child. *)
Inductive Xml :=
| XElement (name : string) (attributes : list (string * string))
    (elements : list Xml)
| XText (value : string)
| XNode (type : string)
| XRef (address : nat).

(** The mutable part of a citation element; its attributes are [rid] and
    [ref-type="bibr"]. *)
Record XrefObject := {
  xrefRid : string;
  xrefElements : option (list Xml)
}.

Abbreviation Heap := (list XrefObject).

(** [elem(name, attributes, ...children)] of [util/xml]: an element whose
    [elements] array holds the children that are neither [null] nor
    [undefined]. *)
Definition elem (name : string) (attributes : list (string * string))
  (children : list (option Xml)) : Xml :=
  XElement name attributes (omap id children).

Definition attrIf (key : string) (value : option string)
  : list (string * string) :=
  match value with
  | Some v => [(key, v)]
  | None => []
  end.

(** *** The node model, as far as the encoder reads it *)

Record Media := {
  contentUrl : option string;
  mediaFormat : option string;
  metaInline : bool;
  metaUsage : option string;
  metaLinkType : option string
}.

Inductive Node :=
| Text (value : string)
| Heading (content : list Node)
| Paragraph (content : list Node)
| List (order : string) (items : list (list Node))
| Table (id : option string) (title : option string)
    (rows : list (list (list Node)))
| Link (target : string) (content : list Node)
| Emphasis (content : list Node)
| Strong (content : list Node)
| Superscript (content : list Node)
| Subscript (content : list Node)
| MathFragment (mathLanguage : option string) (text : option string)
| MathBlock (mathLanguage : option string) (text : option string)
| Figure (label : option string) (caption : option (list Node))
    (content : option (list Node))
| ImageObject (media : Media)
| MediaObject (media : Media)
| Cite (target : string)
| Collection (parts : list Node) (usage : option string)
| Unhandled (type : string).

(** A string, or an array of nodes. *)
Inductive Phrase :=
| PhraseString (value : string)
| PhraseNodes (nodes : list Node).

Record Person := {
  familyNames : option (list string);
  givenNames : option (list string);
  personName : option string;
  honorificPrefix : option string;
  honorificSuffix : option string
}.

Inductive Author :=
| PersonAuthor (person : Person)
| OrganizationAuthor (legalName name : option string).

Inductive DateValue :=
| DateString (value : string)
| DateObject (value : string).

Record PublicationVolume := {
  volumeTitle : option Phrase;
  volumePageStart : option string;
  volumePageEnd : option string;
  volumeNumber : option string
}.

Record PublicationIssue := {
  issuePageStart : option string;
  issuePageEnd : option string;
  issueNumber : option string;
  issueIsPartOf : option PublicationVolume
}.

Inductive PartOf :=
| PartOfIssue (issue : PublicationIssue)
| PartOfVolume (volume : PublicationVolume)
| PartOfOther.

Record CreativeWork := {
  workId : option string;
  workTitle : option Phrase;
  workAuthors : option (list Author);
  datePublished : option DateValue;
  isPartOf : option PartOf
}.

Inductive Reference :=
| ReferenceString (value : string)
| ReferenceWork (work : CreativeWork).

Record Article := {
  articleTitle : option Phrase;
  articleAuthors : option (list Author);
  articleDescription : option Phrase;
  articleContent : option (list Node);
  articleReferences : option (list Reference)
}.

(** The collaborators: [xml.load] as [encodeMath] uses it (the first
    element of the loaded document, if the text loads and has one) and
    [encodeAuthors], whose affiliation ids come from [crypto.randomBytes]
    and which does not touch the encode state. *)
Record Lib := {
  loadFirstElement : string -> option Xml;
  encodeAuthors : option (list Author) -> Xml
}.

(** *** The encode state *)

(** The names of the properties of [Object.prototype], which an object
    literal inherits. *)
Definition objectPrototype : list string :=
  [ "constructor"; "__defineGetter__"; "__defineSetter__"; "hasOwnProperty";
    "__lookupGetter__"; "__lookupSetter__"; "isPrototypeOf";
    "propertyIsEnumerable"; "toString"; "valueOf"; "__proto__";
    "toLocaleString" ].

Definition inheritedName (key : string) : bool :=
  bool_decide (key ∈ objectPrototype).

(** What [object[key]] gives for an object literal used as a map. *)
Inductive Property (A : Type) : Type :=
| Undefined
| Own (value : A)
| Inherited.

Arguments Undefined {A}.
Arguments Own {A} value.
Arguments Inherited {A}.

(** [citations] and [references] are object literals ([{}]) used as maps
    from reference ids. Such an object is embedded by the finite map of
    its own properties. The code adds a property only under a name whose
    lookup gave [undefined], which the name of a property of
    [Object.prototype] never does: under such a name the lookup gives the
    inherited property, and an entry of the finite map is not read. A
    citation element is held by its address in the heap, since the same
    object is in the encoded tree and in [citations]. *)
Record EncodeState := {
  tables : nat;
  citations : gmap string (list nat);
  references : gmap string string
}.

Definition initialEncodeState : EncodeState :=
  {| tables := 0; citations := ∅; references := ∅ |}.

(** [object[key]] *)
Definition property {A : Type} (object : gmap string A) (key : string)
  : Property A :=
  if inheritedName key then Inherited
  else
    match object !! key with
    | Some value => Own value
    | None => Undefined
    end.

(** What an encoding function returns: its value, the state object after
    the call and the heap after the call. An encoding function gives
    [None] when it raises a [TypeError], which nothing catches before the
    caller of the encoder. *)
Definition Result (A : Type) : Type := A * EncodeState * Heap.

(** [if (xref.elements === undefined) xref.elements = [];
     if (xref.elements.length === 0) xref.elements.push(text)] *)
Definition populateXref (citeText : string) (xref : XrefObject) : XrefObject :=
  match default [] (xrefElements xref) with
  | [] => {| xrefRid := xrefRid xref; xrefElements := Some [XText citeText] |}
  | filled => {| xrefRid := xrefRid xref; xrefElements := Some filled |}
  end.

Definition populateAt (citeText : string) (h : Heap) (address : nat) : Heap :=
  match h !! address with
  | Some xref => <[address := populateXref citeText xref]> h
  | None => h
  end.

(** [populateBibrContent]. Both lookups are of the same name: when one
    gives an inherited property so does the other, and [forEach] is not a
    function of it. *)
Definition populateBibrContent (rid : string) (state : EncodeState) (h : Heap)
  : option Heap :=
  match property (citations state) rid with
  | Undefined => Some h
  | citing =>
      match property (references state) rid with
      | Undefined => Some h
      | cited =>
          match citing, cited with
          | Own xrefs, Own citeText =>
              Some (fold_left (populateAt citeText) xrefs h)
          | _, _ => None
          end
      end
  end.

Definition citeRid (target : string) : string :=
  if String.prefix "#" target then JS.slice1 target else target.

(** [encodeCite]. Where [state.citations[rid]] is an inherited property,
    it is not [undefined] and [push] is not a function of it. *)
Definition encodeCite (target : string) (state : EncodeState) (h : Heap)
  : option (Result (list Xml)) :=
  let rid := citeRid target in
  let address := length h in
  let h1 := h ++ [{| xrefRid := rid; xrefElements := Some [] |}] in
  xrefs ← match property (citations state) rid with
          | Undefined => Some []
          | Own xrefs => Some xrefs
          | Inherited => None
          end;
  let state1 :=
    {| tables := tables state;
       citations := <[rid := xrefs ++ [address]]> (citations state);
       references := references state |} in
  h2 ← populateBibrContent rid state1 h1;
  Some ([XRef address], state1, h2).

(** *** Elements that do not involve the state *)

Fixpoint splitOn (c : ascii) (s : string) : list string :=
  match s with
  | EmptyString => [EmptyString]
  | String d r =>
      if Ascii.eqb c d then EmptyString :: splitOn c r
      else
        match splitOn c r with
        | piece :: pieces => String d piece :: pieces
        | [] => [String d EmptyString]
        end
  end.

Definition applyMimetype (media : Media) : list (string * string) :=
  match mediaFormat media with
  | None => []
  | Some format =>
      if JS.truthy (Some format) then
        let pieces := splitOn "/"%char format in
        attrIf "mimetype" (JS.orUndefined (head pieces))
        ++ attrIf "mime-subtype" (JS.orUndefined (pieces !! 1))
      else []
  end.

Definition encodeMedia (media : Media) (elementName : string) : list Xml :=
  [ elem elementName
      (attrIf "xlink:href" (contentUrl media)
       ++ attrIf "specific-use" (JS.orUndefined (metaUsage media))
       ++ attrIf "xlink:type" (JS.orUndefined (metaLinkType media))
       ++ applyMimetype media)
      [] ].

Definition encodeMath (lib : Lib) (source : option string) : list Xml :=
  match loadFirstElement lib (default "" source) with
  | Some first => [first]
  | None => []
  end.

Definition encodeName (person : Person) : Xml :=
  match familyNames person, givenNames person with
  | None, None => elem "string-name" [] [Some (XText (default "" (personName person)))]
  | _, _ =>
      elem "name" []
        [ (fun names => elem "surname" [] [Some (XText (JS.join " " names))])
            <$> familyNames person;
          (fun names => elem "given-names" [] [Some (XText (JS.join " " names))])
            <$> givenNames person;
          (fun p => elem "prefix" [] [Some (XText p)])
            <$> JS.orUndefined (honorificPrefix person);
          (fun s => elem "suffix" [] [Some (XText s)])
            <$> JS.orUndefined (honorificSuffix person) ]
  end.

Definition persons (authors : list Author) : list Person :=
  omap (fun a => match a with
                 | PersonAuthor p => Some p
                 | OrganizationAuthor _ _ => None
                 end) authors.

Definition dateText (d : DateValue) : string :=
  match d with
  | DateString value => value
  | DateObject value => value
  end.

(** [date.split('-')[0]] *)
Definition publishedYear (date : string) : string :=
  default "" (head (splitOn "-"%char date)).

Definition encodeCitationText (work : CreativeWork) : string :=
  let names :=
    match persons (default [] (workAuthors work)) with
    | firstPerson :: others =>
        match familyNames firstPerson with
        | Some family =>
            JS.join " " family
            +:+ match others with
                | [] => ""
                | [secondPerson] =>
                    match familyNames secondPerson with
                    | Some family2 => "and " +:+ JS.join " " family2
                    | None => ""
                    end
                | _ => " et al."
                end
        | None => ""
        end
    | [] => ""
    end in
  names
  +:+ match datePublished work with
      | Some date => ", " +:+ publishedYear (dateText date)
      | None => ""
      end.

(** *** Encoding nodes *)

(** [items.map(item => f(item, state))] flattened by
    [reduce((prev, curr) => [...prev, ...curr], [])]: the calls are made in
    the order of the array, each on the state and the heap that the one
    before left. *)
Definition sequence {A : Type}
  (f : A -> EncodeState -> Heap -> option (Result (list Xml)))
  : list A -> EncodeState -> Heap -> option (Result (list Xml)) :=
  fix each (items : list A) (state : EncodeState) (h : Heap) :=
    match items with
    | [] => Some ([], state, h)
    | first :: rest =>
        '(a, state1, h1) ← f first state h;
        '(b, state2, h2) ← each rest state1 h1;
        Some (a ++ b, state2, h2)
    end.

(** [elem(name, attributes, ...elements)] around encoded elements. *)
Definition wrapped (name : string) (attributes : list (string * string))
  (r : Result (list Xml)) : Result (list Xml) :=
  let '(els, state, h) := r in ([XElement name attributes els], state, h).

(** [encodeFigure]: the content is encoded by [encodeNodes(content)], that
    is with a state of its own, the caption with the state given. *)
Definition encodeFigureWith
  (encodeNodes : list Node -> EncodeState -> Heap -> option (Result (list Xml)))
  (label : option string) (caption content : option (list Node))
  (state : EncodeState) (h : Heap) : option (Result (list Xml)) :=
  '(children, _, h1) ←
    match content with
    | Some nodes => encodeNodes nodes initialEncodeState h
    | None => Some ([], initialEncodeState, h)
    end;
  '(captionElements, state2, h2) ←
    match caption with
    | Some nodes => wrapped "caption" [] <$> encodeNodes nodes state h1
    | None => Some ([], state, h1)
    end;
  Some ([ XElement "fig" []
            (match label with
             | Some l => [XElement "label" [] [XText l]]
             | None => []
             end
             ++ captionElements
             ++ match children with
                | [] => []
                | [only] => [only]
                | _ => [XElement "alternatives" [] children]
                end) ],
        state2, h2).

Fixpoint encodeNode (lib : Lib) (node : Node) (state : EncodeState) (h : Heap)
  {struct node} : option (Result (list Xml)) :=
  let encodeNodes := sequence (encodeNode lib) in
  match node with
  | Heading content => wrapped "title" [] <$> encodeNodes content state h
  | Paragraph content => wrapped "p" [] <$> encodeNodes content state h
  | List order items =>
      wrapped "list"
        [("list-type",
          if String.eqb order "unordered" then "bullet" else "order")]
      <$> sequence
            (fun item state h =>
               wrapped "list-item" [] <$> encodeNodes item state h)
            items state h
  | Table id title rows =>
      let counted :=
        {| tables := S (tables state);
           citations := citations state;
           references := references state |} in
      let label :=
        XElement "label" []
          [XText ("Table " +:+ pretty (tables counted) +:+ ".")] in
      let caption :=
        XElement "caption" []
          match JS.orUndefined title with
          | Some t => [XElement "title" [] [XText t]]
          | None => []
          end in
      '(encoded, state1, h1) ←
        sequence
          (fun row state h =>
             wrapped "tr" []
             <$> sequence
                   (fun cell state h =>
                      wrapped "tr" [] <$> encodeNodes cell state h)
                   row state h)
          rows counted h;
      Some ([ XElement "table-wrap" (attrIf "id" (JS.orUndefined id))
                [ label; caption;
                  XElement "table" [] [XElement "tbody" [] encoded] ] ],
            state1, h1)
  | Link target content =>
      wrapped "ext-link" [("ext-link-type", "uri"); ("xlink:href", target)]
      <$> encodeNodes content state h
  | Emphasis content => wrapped "italic" [] <$> encodeNodes content state h
  | Strong content => wrapped "bold" [] <$> encodeNodes content state h
  | Superscript content => wrapped "sup" [] <$> encodeNodes content state h
  | Subscript content => wrapped "sub" [] <$> encodeNodes content state h
  | MathFragment _ source | MathBlock _ source =>
      Some (encodeMath lib source, state, h)
  | Figure label caption content =>
      encodeFigureWith encodeNodes label caption content state h
  | ImageObject media =>
      Some (encodeMedia media
              (if metaInline media then "inline-graphic" else "graphic"),
            state, h)
  | MediaObject media => Some (encodeMedia media "media", state, h)
  | Cite target => encodeCite target state h
  | Text value => Some ([XText value], state, h)
  | Collection parts usage =>
      if bool_decide (usage = Some "figGroup") then
        wrapped "fig-group" []
        <$> sequence
              (fun part state h =>
                 match part with
                 | Figure label caption content =>
                     encodeFigureWith encodeNodes label caption content state h
                 | _ => Some ([], state, h)
                 end)
              parts state h
      else Some ([], state, h)
  | Unhandled _ => Some ([], state, h)
  end.

Definition encodeNodes (lib : Lib)
  : list Node -> EncodeState -> Heap -> option (Result (list Xml)) :=
  sequence (encodeNode lib).

(** [encodeNodes(phrase)] and [encodeNodes(phrase, initialEncodeState())]:
    a string is encoded as the single text node it is. *)
Definition encodePhrase (lib : Lib) (phrase : Phrase) (h : Heap)
  : option (list Xml * Heap) :=
  match phrase with
  | PhraseString value => Some ([XText value], h)
  | PhraseNodes nodes =>
      '(els, _, h1) ← encodeNodes lib nodes initialEncodeState h;
      Some (els, h1)
  end.

Definition phraseTruthy (phrase : option Phrase) : bool :=
  match phrase with
  | Some (PhraseString value) => JS.truthy (Some value)
  | Some (PhraseNodes _) => true
  | None => false
  end.

(** *** The body *)

Definition isHeading (node : Node) : bool :=
  match node with
  | Heading _ => true
  | _ => false
  end.

(** [section.elements.push(...el)] on the section pushed last. *)
Fixpoint pushToLast (sections : list (list Xml)) (el : list Xml)
  : list (list Xml) :=
  match sections with
  | [] => []
  | [section] => [section ++ el]
  | section :: rest => section :: pushToLast rest el
  end.

(** The loop of [encodeBody]; the variable [section] is the last element
    of [sections], when there is one. *)
Fixpoint encodeBodyLoop (lib : Lib) (nodes : list Node)
  (sections : list (list Xml)) (state : EncodeState) (h : Heap)
  : option (Result (list (list Xml))) :=
  match nodes with
  | [] => Some (sections, state, h)
  | node :: rest =>
      let opened := if isHeading node then sections ++ [[]] else sections in
      '(el, state1, h1) ← encodeNode lib node state h;
      let ensured := match opened with [] => [[]] | _ => opened end in
      encodeBodyLoop lib rest (pushToLast ensured el) state1 h1
  end.

Definition encodeBody (lib : Lib) (nodes : list Node) (state : EncodeState)
  (h : Heap) : option (Result Xml) :=
  '(sections, state1, h1) ← encodeBodyLoop lib nodes [] state h;
  Some (XElement "body" [] (map (XElement "sec" []) sections), state1, h1).

(** *** References *)

Definition optionalPhrase (lib : Lib) (name : string) (phrase : option Phrase)
  (h : Heap) : option (list Xml * Heap) :=
  match phrase with
  | Some p =>
      '(els, h1) ← encodePhrase lib p h;
      Some ([XElement name [] els], h1)
  | None => Some ([], h)
  end.

Definition optionalText (name : string) (value : option string) : list Xml :=
  match value with
  | Some v => [XElement name [] [XText v]]
  | None => []
  end.

Definition encodeVolumeOfIssue (lib : Lib) (volume : PublicationVolume)
  (h : Heap) : option (list Xml * Heap) :=
  '(source, h1) ← optionalPhrase lib "source" (volumeTitle volume) h;
  Some (source ++ optionalText "volume" (volumeNumber volume), h1).

Definition encodePartOf (lib : Lib) (part : option PartOf) (h : Heap)
  : option (list Xml * Heap) :=
  match part with
  | Some (PartOfIssue issue) =>
      '(volume, h1) ←
        match issueIsPartOf issue with
        | Some v => encodeVolumeOfIssue lib v h
        | None => Some ([], h)
        end;
      Some (optionalText "fpage" (issuePageStart issue)
            ++ optionalText "lpage" (issuePageEnd issue)
            ++ optionalText "issue" (issueNumber issue)
            ++ volume, h1)
  | Some (PartOfVolume volume) =>
      '(source, h1) ← optionalPhrase lib "source" (volumeTitle volume) h;
      Some (source
            ++ optionalText "fpage" (volumePageStart volume)
            ++ optionalText "lpage" (volumePageEnd volume)
            ++ optionalText "volume" (volumeNumber volume), h1)
  | _ => Some ([], h)
  end.

(** The guarded block of [encodeReference]:
    [if (rid && state.references[rid] === undefined) { ... }] *)
Definition registerReference (work : CreativeWork) (state : EncodeState)
  (h : Heap) : option (EncodeState * Heap) :=
  match workId work with
  | Some rid =>
      if JS.truthy (Some rid) then
        match property (references state) rid with
        | Undefined =>
            let state1 :=
              {| tables := tables state;
                 citations := citations state;
                 references :=
                   <[rid := encodeCitationText work]> (references state) |} in
            h1 ← populateBibrContent rid state1 h;
            Some (state1, h1)
        | _ => Some (state, h)
        end
      else Some (state, h)
  | None => Some (state, h)
  end.

Definition hasAuthors (work : CreativeWork) : bool :=
  match workAuthors work with
  | Some (_ :: _) => true
  | _ => false
  end.

Definition encodeYear (date : option DateValue) : list Xml :=
  match date with
  | Some (DateString value) =>
      if JS.truthy (Some value)
      then [XElement "year" [("iso-8601-date", value)] [XText value]]
      else []
  | Some (DateObject value) =>
      [XElement "year" [("iso-8601-date", value)] [XNode "Date"]]
  | None => []
  end.

Definition encodeReference (lib : Lib) (reference : Reference)
  (state : EncodeState) (h : Heap) : option (Result Xml) :=
  match reference with
  | ReferenceString _ => Some (elem "ref" [] [], state, h)
  | ReferenceWork work =>
      '(titleElements, h1) ←
        (if phraseTruthy (workTitle work)
         then optionalPhrase lib "article-title" (workTitle work) h
         else Some ([], h));
      '(personGroup, state2, h2) ←
        (if hasAuthors work then
           let group :=
             XElement "person-group" [("person-group-type", "author")]
               (map encodeName (persons (default [] (workAuthors work)))) in
           '(state2, h2) ← registerReference work state h1;
           Some ([group], state2, h2)
         else Some ([], state, h1));
      '(partElements, h3) ← encodePartOf lib (isPartOf work) h2;
      let citation :=
        XElement "element-citation" []
          (titleElements ++ personGroup ++ encodeYear (datePublished work)
           ++ partElements) in
      Some (elem "ref" (attrIf "id" (workId work)) [Some citation], state2, h3)
  end.

Fixpoint encodeReferenceList (lib : Lib) (refs : list Reference)
  (state : EncodeState) (h : Heap) : option (Result (list Xml)) :=
  match refs with
  | [] => Some ([], state, h)
  | reference :: rest =>
      '(one, state1, h1) ← encodeReference lib reference state h;
      '(more, state2, h2) ← encodeReferenceList lib rest state1 h1;
      Some (one :: more, state2, h2)
  end.

Definition encodeReferences (lib : Lib) (refs : option (list Reference))
  (state : EncodeState) (h : Heap) : option (Result (list Xml)) :=
  match refs with
  | None => Some ([], state, h)
  | Some list =>
      '(encoded, state1, h1) ← encodeReferenceList lib list state h;
      Some ([ XElement "ref-list" []
                (XElement "title" [] [XText "References"] :: encoded) ],
            state1, h1)
  end.

(** *** The article *)

Definition encodeTitle (lib : Lib) (title : option Phrase) (h : Heap)
  : option (Xml * Heap) :=
  '(els, h1) ← encodePhrase lib (default (PhraseString "") title) h;
  Some (XElement "title-group" [] [XElement "article-title" [] els], h1).

Definition encodeAbstract (lib : Lib) (description : option Phrase) (h : Heap)
  : option (option Xml * Heap) :=
  match description with
  | None => Some (None, h)
  | Some phrase =>
      '(els, h1) ← encodePhrase lib phrase h;
      Some (Some (XElement "abstract" [] [XElement "p" [] els]), h1)
  end.

(** The encoded article, split into its three children, with the encode
    state and the heap at the end of [encodeArticle]. *)
Record Encoded := {
  front : Xml;
  bodyElement : Xml;
  back : Xml;
  finalState : EncodeState;
  finalHeap : Heap
}.

Definition encodeArticle (lib : Lib) (article : Article) : option Encoded :=
  '(title, h1) ← encodeTitle lib (articleTitle article) [];
  let authors := encodeAuthors lib (Some (default [] (articleAuthors article))) in
  '(abstract, h2) ← encodeAbstract lib (articleDescription article) h1;
  let front :=
    XElement "front" []
      [elem "article-meta" [] [Some title; Some authors; abstract]] in
  '(body, state1, h3) ←
    encodeBody lib (default [] (articleContent article)) initialEncodeState h2;
  '(refs, state2, h4) ←
    encodeReferences lib (articleReferences article) state1 h3;
  Some {| front := front;
          bodyElement := body;
          back := XElement "back" [] refs;
          finalState := state2;
          finalHeap := h4 |}.

(** The element that the serializer sees for a tree: every address is
    replaced by the [<xref>] element stored there. *)
Fixpoint resolve (h : Heap) (tree : Xml) : Xml :=
  match tree with
  | XElement name attributes elements =>
      XElement name attributes (map (resolve h) elements)
  | XRef address =>
      match h !! address with
      | Some xref =>
          XElement "xref" [("rid", xrefRid xref); ("ref-type", "bibr")]
            (default [] (xrefElements xref))
      | None => tree
      end
  | _ => tree
  end.

(** The addresses of the citation elements in a tree. *)
Fixpoint xrefsIn (tree : Xml) : list nat :=
  match tree with
  | XElement _ _ elements => concat (map xrefsIn elements)
  | XRef address => [address]
  | _ => []
  end.

(** The reference ids cited by the [Cite] nodes that [encodeNode] encodes
    with the state it is given, in the order of encoding: those in the
    content of a figure are not among them. *)
Fixpoint citedIn (node : Node) : list string :=
  let inNodes (nodes : list Node) := concat (map citedIn nodes) in
  let inCaption (caption : option (list Node)) :=
    match caption with
    | Some nodes => inNodes nodes
    | None => []
    end in
  match node with
  | Heading content | Paragraph content | Link _ content | Emphasis content
  | Strong content | Superscript content | Subscript content =>
      inNodes content
  | List _ items => concat (map inNodes items)
  | Table _ _ rows => concat (map (fun row => concat (map inNodes row)) rows)
  | Figure _ caption _ => inCaption caption
  | Cite target => [citeRid target]
  | Collection parts usage =>
      if bool_decide (usage = Some "figGroup") then
        concat (map (fun part =>
                       match part with
                       | Figure _ caption _ => inCaption caption
                       | _ => []
                       end) parts)
      else []
  | _ => []
  end.

Definition citedInNodes (nodes : list Node) : list string :=
  concat (map citedIn nodes).

(** The test of the guarded block of [encodeReference] for recording the
    citation text of a work under [rid], in a state that has none for it:
    the id of the work is [rid], and it is neither empty nor the name of
    a property of [Object.prototype], for which the lookup is never
    [undefined]. *)
Definition recordedBy (work : CreativeWork) (rid : string) : bool :=
  JS.truthy (workId work) && bool_decide (workId work = Some rid)
  && negb (inheritedName rid).

(** The test of [encodeReference] for recording the citation text of a
    work under [rid]. *)
Definition registers (work : CreativeWork) (rid : string) : bool :=
  hasAuthors work && recordedBy work rid.

(** The work whose citation text [encodeReferences] records for [rid]:
    the first reference that is a work with that id and with authors. *)
Fixpoint registeringWork (refs : list Reference) (rid : string)
  : option CreativeWork :=
  match refs with
  | [] => None
  | ReferenceWork work :: rest =>
      if registers work rid then Some work else registeringWork rest rid
  | ReferenceString _ :: rest => registeringWork rest rid
  end.

(** The reference ids of all the [Cite] nodes that [encodeNode] encodes
    for a node, with whatever state: those in the content of a figure are
    among them. *)
Fixpoint allCitedIn (node : Node) : list string :=
  let inNodes (nodes : list Node) := concat (map allCitedIn nodes) in
  let inOptional (nodes : option (list Node)) :=
    match nodes with
    | Some nodes => inNodes nodes
    | None => []
    end in
  let inFigure (caption content : option (list Node)) :=
    inOptional content ++ inOptional caption in
  match node with
  | Heading content | Paragraph content | Link _ content | Emphasis content
  | Strong content | Superscript content | Subscript content =>
      inNodes content
  | List _ items => concat (map inNodes items)
  | Table _ _ rows => concat (map (fun row => concat (map inNodes row)) rows)
  | Figure _ caption content => inFigure caption content
  | Cite target => [citeRid target]
  | Collection parts usage =>
      if bool_decide (usage = Some "figGroup") then
        concat (map (fun part =>
                       match part with
                       | Figure _ caption content => inFigure caption content
                       | _ => []
                       end) parts)
      else []
  | _ => []
  end.

Definition allCitedInNodes (nodes : list Node) : list string :=
  concat (map allCitedIn nodes).

Definition phraseCites (phrase : option Phrase) : list string :=
  match phrase with
  | Some (PhraseNodes nodes) => allCitedInNodes nodes
  | _ => []
  end.

Definition partOfCites (part : option PartOf) : list string :=
  match part with
  | Some (PartOfIssue issue) =>
      match issueIsPartOf issue with
      | Some volume => phraseCites (volumeTitle volume)
      | None => []
      end
  | Some (PartOfVolume volume) => phraseCites (volumeTitle volume)
  | _ => []
  end.

Definition referenceCites (reference : Reference) : list string :=
  match reference with
  | ReferenceString _ => []
  | ReferenceWork work =>
      phraseCites (workTitle work) ++ partOfCites (isPartOf work)
  end.

(** The reference ids of all the [Cite] nodes that [encodeArticle]
    encodes: those of the title, of the description, of the content and
    of the titles in the references. *)
Definition articleCites (article : Article) : list string :=
  phraseCites (articleTitle article)
  ++ phraseCites (articleDescription article)
  ++ allCitedInNodes (default [] (articleContent article))
  ++ concat (map referenceCites (default [] (articleReferences article))).

(** None of the ids is the name of a property of [Object.prototype]. *)
Definition ownNames (ids : list string) : bool :=
  forallb (fun id => negb (inheritedName id)) ids.

(** The call raises when one of [ids] is the name of a property of
    [Object.prototype]; otherwise it returns, and what it returns
    satisfies [P]. *)
Definition returnsWhen {A : Type} (ids : list string) (call : option A)
  (P : A -> Prop) : Prop :=
  match call with
  | Some r => ownNames ids = true /\ P r
  | None => ownNames ids = false
  end.

(** *** Notions for the statements *)

(** The citation elements recorded for [rid]: [state.citations[rid]],
    where that is an array of the state. *)
Definition citationsOf (state : EncodeState) (rid : string) : list nat :=
  match property (citations state) rid with
  | Own xrefs => xrefs
  | _ => []
  end.

(** The citation text recorded for [rid]: [state.references[rid]], where
    that is a string of the state. *)
Definition citationTextOf (state : EncodeState) (rid : string)
  : option string :=
  match property (references state) rid with
  | Own citeText => Some citeText
  | _ => None
  end.

(** The citation element has no content. *)
Definition emptyXref (xref : XrefObject) : Prop :=
  default [] (xrefElements xref) = [].

Definition xrefsOf (elements : list Xml) : list nat :=
  concat (map xrefsIn elements).

(** What a call that encodes nodes citing [cites] does, from a state
    without recorded reference: it records no reference, it adds citation
    elements without content to the heap and leaves the others as they
    are, and for each reference id it appends to the citations of that id
    as many new addresses as [cites] has occurrences of it, each the
    address of an element for that id that occurs in the result. *)
Definition Extends (cites : list string) (state : EncodeState) (h : Heap)
  (elements : list Xml) (state' : EncodeState) (h' : Heap) : Prop :=
  references state' = references state
  /\ (exists new, h' = h ++ new /\ Forall emptyXref new)
  /\ forall rid, exists added,
       citationsOf state' rid = citationsOf state rid ++ added
       /\ length added = length (filter (fun r => r = rid) cites)
       /\ Forall (fun address =>
                    length h <= address
                    /\ (exists xref, h' !! address = Some xref
                                     /\ xrefRid xref = rid)
                    /\ address ∈ xrefsOf elements) added.

Definition ExtendsBy (cites : list string) (state : EncodeState) (h : Heap)
  (r : Result (list Xml)) : Prop :=
  Extends cites state h r.1.1 r.1.2 r.2.

(** What holds of the result of a call when the call returns. *)
Definition whenReturned {A : Type} (call : option A) (P : A -> Prop) : Prop :=
  forall r, call = Some r -> P r.

(** Every citation element recorded in the state is in the heap, is an
    element for the id it is recorded under, and holds the citation text of
    that id when the state has one, and nothing otherwise. *)
Definition Populated (state : EncodeState) (h : Heap) : Prop :=
  forall rid address,
    address ∈ citationsOf state rid ->
    exists xref,
      h !! address = Some xref
      /\ xrefRid xref = rid
      /\ match citationTextOf state rid with
         | Some citeText => xrefElements xref = Some [XText citeText]
         | None => emptyXref xref
         end.

(** *** An article for evaluating the encoder *)

Definition exampleLib : Lib :=
  {| loadFirstElement := fun _ => None;
     encodeAuthors := fun _ => XElement "contrib-group" [] [] |}.

Definition examplePerson (family : string) : Author :=
  PersonAuthor
    {| familyNames := Some [family]; givenNames := None; personName := None;
       honorificPrefix := None; honorificSuffix := None |}.

Definition exampleWork (authors : option (list Author)) : CreativeWork :=
  {| workId := Some "bib1";
     workTitle := Some (PhraseString "On things");
     workAuthors := authors;
     datePublished := Some (DateString "1990-05-01");
     isPartOf := None |}.

Definition exampleArticle (content : list Node)
  (authors : option (list Author)) : Article :=
  {| articleTitle := Some (PhraseString "Title");
     articleAuthors := None;
     articleDescription := None;
     articleContent := Some content;
     articleReferences := Some [ReferenceWork (exampleWork authors)] |}.

Definition exampleThreeAuthors : option (list Author) :=
  Some [examplePerson "Smith"; examplePerson "Jones"; examplePerson "Brown"].

(** *** Counting tables *)

(** The [Table] nodes that [encodeNode] counts in [state.tables] when it
    encodes [node] with the state it is given, those nested in cells
    included: the tables in the content of a figure are counted in a state
    of their own. *)
Fixpoint tablesIn (node : Node) : nat :=
  let inNodes (nodes : list Node) := sum_list (map tablesIn nodes) in
  let inCaption (caption : option (list Node)) :=
    match caption with
    | Some nodes => inNodes nodes
    | None => 0
    end in
  match node with
  | Heading content | Paragraph content | Link _ content | Emphasis content
  | Strong content | Superscript content | Subscript content =>
      inNodes content
  | List _ items => sum_list (map inNodes items)
  | Table _ _ rows =>
      S (sum_list (map (fun row => sum_list (map inNodes row)) rows))
  | Figure _ caption _ => inCaption caption
  | Collection parts usage =>
      if bool_decide (usage = Some "figGroup") then
        sum_list (map (fun part =>
                         match part with
                         | Figure _ caption _ => inCaption caption
                         | _ => 0
                         end) parts)
      else 0
  | _ => 0
  end.

Definition tablesInNodes (nodes : list Node) : nat :=
  sum_list (map tablesIn nodes).

(** A call that adds [n] to [state.tables]. *)
Definition Counts (n : nat) (state : EncodeState) (r : Result (list Xml))
  : Prop :=
  tables r.1.2 = tables state + n.

(** *** The sections of the body *)

(** The section begins with the [<title>] of a heading. *)
Definition startsWithTitle (section : list Xml) : Prop :=
  exists elements rest, section = XElement "title" [] elements :: rest.

(** The number of [<sec>] elements in the body of [nodes]: one for each
    heading, and one before them when the first node is not a heading. *)
Definition sectionCount (nodes : list Node) : nat :=
  length (filter (fun node => isHeading node = true) nodes)
  + match nodes with
    | first :: _ => if isHeading first then 0 else 1
    | [] => 0
    end.

(** *** The reference list *)

(** The [<ref>] element of a reference: a string gives an element without
    attribute and content, a work an element with the id of the work, if
    it has one, around one [<element-citation>]. *)
Definition isRefOf (reference : Reference) (element : Xml) : Prop :=
  match reference with
  | ReferenceString _ => element = XElement "ref" [] []
  | ReferenceWork work =>
      exists children,
        element
        = XElement "ref" (attrIf "id" (workId work))
            [XElement "element-citation" [] children]
  end.

(** *** Reading attributes back *)

(** The value of the attribute [name] among [attributes]. *)
Fixpoint attributeOf (attributes : list (string * string)) (name : string)
  : option string :=
  match attributes with
  | [] => None
  | (key, value) :: rest =>
      if String.eqb key name then Some value else attributeOf rest name
  end.

(** The functions of [util/xml] that the decoders read attributes with.
    They are not among the sources, and are taken as given. *)
Record XmlReader := {
  attr : Xml -> string -> option string;
  attrOrUndefined : Xml -> string -> option string
}.

(** What is assumed of [attr(elem, name)]: it gives the value of the
    attribute of that name of an element, and [null] ([None]) when the
    element has none. *)
Definition readsAttributes (xml : XmlReader) : Prop :=
  forall name attributes children key,
    attr xml (XElement name attributes children) key
    = attributeOf attributes key.

(** A reader that looks the attribute up in the element. *)
Definition exampleReader : XmlReader :=
  let read (elem : Xml) (key : string) :=
    match elem with
    | XElement _ attributes _ => attributeOf attributes key
    | _ => None
    end in
  {| attr := read; attrOrUndefined := read |}.

(** [extractMimetype] *)
Definition extractMimetype (xml : XmlReader) (elem : Xml) : string :=
  let mimetype := default "" (attr xml elem "mimetype") in
  let mimeSubtype := default "" (attr xml elem "mime-subtype") in
  let joiner :=
    if negb (String.length mimetype =? 0)%nat
       && negb (String.length mimeSubtype =? 0)%nat
    then "/" else "" in
  mimetype +:+ joiner +:+ mimeSubtype.

(** The attributes that [encodeMedia] gives its element. *)
Definition mediaAttributes (media : Media) : list (string * string) :=
  attrIf "xlink:href" (contentUrl media)
  ++ attrIf "specific-use" (JS.orUndefined (metaUsage media))
  ++ attrIf "xlink:type" (JS.orUndefined (metaLinkType media))
  ++ applyMimetype media.

(** [id.replace(/\./g, '-')] *)
Fixpoint replaceDots (id : string) : string :=
  match id with
  | EmptyString => EmptyString
  | String c r =>
      String (if Ascii.eqb c "."%char then "-"%char else c) (replaceDots r)
  end.

(** [decodeInternalId]; [None] is [null]. *)
Definition decodeInternalId (id : option string) : string :=
  match id with
  | None => ""
  | Some value => replaceDots value
  end.

(** What [decodeXRef] makes of an [<xref>] element: a [Cite]
    ([decodeBibr]) when [ref-type] is [bibr] and a [Link] ([decodeLink])
    otherwise, with its [target] and, for a link, its [relation]. The
    content of the node, decoded from the children of the element, is not
    part of it. *)
Inductive XRefTarget :=
| CiteTarget (target : string)
| LinkTarget (target : string) (relation : option string).

Definition decodeXRefTarget (xml : XmlReader) (elem : Xml) : XRefTarget :=
  if bool_decide (attr xml elem "ref-type" = Some "bibr")
  then CiteTarget (decodeInternalId (attr xml elem "rid"))
  else LinkTarget ("#" +:+ decodeInternalId (attr xml elem "rid"))
         (attrOrUndefined xml elem "ref-type").

End Jats.

(** * Properties *)

(** ** Strings *)

Module JSFacts.

Import JS.

Lemma append_assoc (a b c : string) : (a +:+ b) +:+ c = a +:+ (b +:+ c).
Proof.
  induction a as [|x a IH]; [reflexivity|].
  change ((String x a +:+ b) +:+ c) with (String x ((a +:+ b) +:+ c)).
  change (String x a +:+ (b +:+ c)) with (String x (a +:+ (b +:+ c))).
  by rewrite IH.
Qed.

Lemma embeds_here (sub post : string) : embeds (sub +:+ post) sub.
Proof. by exists "", post. Qed.

Lemma embeds_empty (s : string) : embeds s "".
Proof. by exists "", s. Qed.

Lemma embeds_after (pre s sub : string) : embeds s sub -> embeds (pre +:+ s) sub.
Proof.
  intros (a & b & ->). exists (pre +:+ a), b. by rewrite append_assoc.
Qed.

Lemma embeds_before (s post sub : string) :
  embeds s sub -> embeds (s +:+ post) sub.
Proof.
  intros (a & b & ->). exists a, (b +:+ post).
  by rewrite !append_assoc.
Qed.

Lemma embeds_quoted (s : string) : embeds (quoted s) s.
Proof. unfold quoted. apply embeds_after, embeds_here. Qed.

Lemma truthy_Some (s : string) : truthy (Some s) = negb (String.eqb s "").
Proof. by destruct s. Qed.

Lemma truthy_false_inv (o : option string) :
  truthy o = false -> o = None \/ o = Some "".
Proof. destruct o as [[|]|]; naive_solver. Qed.

Lemma trimStart_allSpace (s : string) :
  trimStart s = "" <-> allSpace s = true.
Proof.
  induction s as [|c s IH]; simpl; [done|].
  destruct (isSpace c); simpl; [done|]. split; discriminate.
Qed.




End JSFacts.

(** ** The matcher *)

Module MatcherFacts.

Import JS Matcher JSFacts.

Section Matching.

Context {Node VFile : Type}.

Implicit Types (env : Env Node VFile) (c : Codec Node VFile).
Implicit Types (k : Keys) (content format name : option string).

Lemma tryLoad_rejected env name (codec : option (Codec Node VFile)) :
  import_ env (specifier name) = None -> tryLoad env name codec = codec.
Proof. intros H. unfold tryLoad, loadCodec. by rewrite H. Qed.

Lemma tryLoad_loaded env name (codec : option (Codec Node VFile)) c :
  loadCodec env name = Some (Some c) -> tryLoad env name codec = Some c.
Proof. intros H. unfold tryLoad. by rewrite H. Qed.

(** A module of the list that cannot be loaded while no codec has been
    loaded yet ends the loop: the names after it are not tried. *)
Lemma scan_break_unloaded env k content (codecName : string) rest :
  tryLoad env (Some codecName) None = None ->
  scan env k content (codecName :: rest) None = None.
Proof. intros H. simpl. by rewrite H. Qed.

(** After a codec has been loaded, a module that cannot be loaded leaves
    that codec in the variable; it is tested again and the loop goes on. *)
Lemma scan_skip_rejected env k content (codecName : string) rest c :
  import_ env (specifier (Some codecName)) = None ->
  matches k content c = false ->
  scan env k content (codecName :: rest) (Some c)
  = scan env k content rest (Some c).
Proof.
  intros Himport Hmiss. simpl.
  rewrite (tryLoad_rejected _ _ _ Himport). by rewrite Hmiss.
Qed.

Lemma scan_found env k content (codecName : string) rest codec c :
  loadCodec env (Some codecName) = Some (Some c) ->
  matches k content c = true ->
  scan env k content (codecName :: rest) codec = Some c.
Proof.
  intros Hload Hhit. simpl.
  rewrite (tryLoad_loaded _ _ _ _ Hload). by rewrite Hhit.
Qed.

Lemma scan_none_match env k content (names : list string)
  (codec : option (Codec Node VFile)) :
  (forall codecName c, codecName ∈ names ->
     loadCodec env (Some codecName) = Some (Some c) ->
     matches k content c = false) ->
  (forall c, codec = Some c -> matches k content c = false) ->
  scan env k content names codec = None.
Proof.
  revert codec. induction names as [|codecName rest IH]; intros codec Hlist Hcur.
  - reflexivity.
  - simpl. unfold tryLoad.
    destruct (loadCodec env (Some codecName)) as [[c|]|] eqn:Hload; simpl.
    + rewrite (Hlist codecName c); [|by left|done].
      apply IH.
      * intros n c' Hin. apply Hlist. by right.
      * intros c' [= <-]. apply (Hlist codecName); [by left|done].
    + reflexivity.
    + destruct codec as [c|]; [|reflexivity].
      rewrite (Hcur c eq_refl).
      apply IH; [|done].
      intros n c' Hin. apply Hlist. by right.
Qed.

Lemma matches_without_keys c : matches noKeys None c = false.
Proof.
  unfold matches, declared, sniffs. simpl.
  by destruct (fileNames c), (extNames c), (mediaTypes c), (sniff c).
Qed.

Lemma noCodecMessage_embeds content format :
  let message := noCodecMessage content format in
  embeds message "No codec could be found"
  /\ (forall s, content = Some s -> embeds message s)
  /\ (forall s, format = Some s -> embeds message s).
Proof.
  unfold noCodecMessage. split; [apply embeds_here|]. split.
  - intros s ->. destruct s as [|x s]; [apply embeds_empty|]. simpl.
    apply embeds_after, embeds_before, embeds_after, embeds_quoted.
  - intros s ->. destruct s as [|x s]; [apply embeds_empty|]. simpl.
    apply embeds_after, embeds_after, embeds_before, embeds_after,
      embeds_quoted.
Qed.

(** The direct lookup of the module named after the resolved extension
    wins over everything else. *)
Lemma match_direct env content format isOutput c :
  tryLoad env (extName (resolve env content format isOutput)) None = Some c ->
  match_ env content format isOutput = Returned c.
Proof. intros H. unfold match_. by rewrite H. Qed.

(** A format hint that is a media type replaces the media type only:
    the extension derived from the path is kept, and the module named
    after it is returned when it exports a codec. *)
Lemma match_media_type_keeps_extension env (path hint : string) isOutput c :
  truthy (Some path) = true ->
  isPath env path || isOutput = true ->
  truthy (Some hint) = true ->
  includesChar "/"%char hint = true ->
  loadCodec env (Some (toLowerCase (slice1 (extname env path))))
  = Some (Some c) ->
  match_ env (Some path) (Some hint) isOutput = Returned c.
Proof.
  intros Hpath Hp Hhint Hslash Hload. apply match_direct.
  unfold resolve, derive, byFormat. cbn [default from_option id].
  rewrite Hhint, Hpath, Hp, Hslash. simpl. by apply tryLoad_loaded.
Qed.

(** With no format hint and a path as content, the extension of the path
    is the resolved extension name (unless a registered regex applies). *)
Lemma resolve_path_extension env (path : string) isOutput :
  truthy (Some path) = true ->
  isPath env path = true ->
  looksLikeUri path = false ->
  extName (resolve env (Some path) None isOutput)
  = Some (toLowerCase (slice1 (extname env path))).
Proof.
  intros Ht Hp Hu. unfold resolve, derive, byRegex.
  change (truthy None) with false. cbn [default from_option id].
  rewrite Ht, Hp, Hu. reflexivity.
Qed.

(** C5, as the code has it: when the direct lookup of the module named
    after the resolved extension gives no codec and every codec of the
    list fails the four tests, [match] raises the error of its last line;
    the message says that no codec could be found and holds the content
    and the format that were supplied. *)
Theorem match_no_codec_error env content format isOutput :
  let k := resolve env content format isOutput in
  tryLoad env (extName k) None = None ->
  (forall codecName c, codecName ∈ codecList ->
     loadCodec env (Some codecName) = Some (Some c) ->
     matches k content c = false) ->
  match_ env content format isOutput
  = Threw (NoCodecMatch (noCodecMessage content format))
  /\ embeds (noCodecMessage content format) "No codec could be found"
  /\ (forall s, content = Some s -> embeds (noCodecMessage content format) s)
  /\ (forall s, format = Some s -> embeds (noCodecMessage content format) s).
Proof.
  intros k Hdirect Hlist. split; [|apply noCodecMessage_embeds].
  unfold match_. fold k. rewrite Hdirect.
  by rewrite (scan_none_match env k content codecList None Hlist).
Qed.

(** [match(undefined, undefined)]: nothing can match. *)
Lemma match_nothing_given env isOutput :
  tryLoad env None None = None ->
  match_ env None None isOutput
  = Threw (NoCodecMatch "No codec could be found.").
Proof.
  intros Hdirect. unfold match_.
  change (resolve env None None isOutput) with noKeys.
  simpl extName. rewrite Hdirect.
  rewrite (scan_none_match env noKeys None codecList None); [done| |done].
  intros ? c _ _. apply matches_without_keys.
Qed.

(** C9, as the code has it: [encode] raises its own error exactly when
    neither [filePath] nor [format] is a non-empty string, and otherwise
    goes on to match a codec for an output and to run its [encode]. *)
Theorem encode_requires_truthy_option env (node : Node)
  (options : GlobalEncodeOptions) :
  (encode env node options = Threw (MissingOption missingOptionMessage)
   <-> truthy (filePath options) = false /\ truthy (format options) = false)
  /\ (truthy (filePath options) || truthy (format options) = true ->
      encode env node options
      = match match_ env (filePath options) (format options) true with
        | Threw e => Threw e
        | Returned codec => runEncode codec node options
        end).
Proof.
  unfold encode.
  destruct (truthy (filePath options) || truthy (format options)) eqn:E; simpl.
  - split; [|done]. split.
    + unfold match_, runEncode.
      destruct (tryLoad _ _ _) as [c|].
      * destruct (codecEncode c node options); discriminate.
      * destruct (scan _ _ _ _ _) as [c|]; [|discriminate].
        destruct (codecEncode c node options); discriminate.
    + intros [H1 H2]. rewrite H1, H2 in E. discriminate.
  - split; [|discriminate]. split; [|done].
    intros _. by apply orb_false_iff.
Qed.

End Matching.

(** C9 as the claim states it fails for an option given as the empty
    string: [format] is provided, and [encode] raises its own error. *)
Lemma encode_empty_format_refused :
  let options := {| filePath := None; format := Some "" |} in
  provided (filePath options) || provided (format options) = true
  /\ encode (registryEnv []) tt options
     = Threw (MissingOption missingOptionMessage).
Proof. split; reflexivity. Qed.

Lemma encode_requires_truthy_option_witness :
  let options := {| filePath := Some "out.md"; format := None |} in
  truthy (filePath options) || truthy (format options) = true
  /\ encode (registryEnv []) tt options = Returned tt.
Proof.
  intros options. split; [reflexivity|].
  rewrite (proj2 (encode_requires_truthy_option (registryEnv []) tt options));
    reflexivity.
Defined.

(** C5 as the claim states it fails for the format [plos]: every codec
    of the list is loaded and fails the four tests, and [match] returns
    the codec of the module [./codecs/plos], which the list does not
    name. *)
Lemma match_direct_lookup_outside_list :
  let env := registryEnv [] in
  allLoadedFail env (resolve env None (Some "plos") false) None codecList
  = true
  /\ match_ env None (Some "plos") false = Returned plosCodec.
Proof. split; reflexivity. Qed.

Lemma match_no_codec_error_witness :
  tryLoad (registryEnv []) None None = None
  /\ match_ (registryEnv []) None None false
     = Threw (NoCodecMatch "No codec could be found.").
Proof.
  split; [reflexivity|].
  apply (match_no_codec_error (registryEnv []) None None false).
  - reflexivity.
  - intros codecName c _ _. apply matches_without_keys.
Defined.

(** C2: with the path [a.md] and the explicit format
    [application/jats+xml], [match] returns the Markdown codec, which does
    not declare that media type, although the JATS codec does: the
    extension taken from the path is kept beside the media type and the
    direct lookup of [./codecs/md] returns first. *)
Theorem match_media_type_hint_with_md_path :
  match_ (registryEnv []) (Some "a.md") (Some "application/jats+xml") false
  = Returned mdCodec
  /\ declared (Some "application/jats+xml") (mediaTypes mdCodec) = false
  /\ declared (Some "application/jats+xml") (mediaTypes jatsCodec) = true
  /\ match_ (registryEnv []) (Some "a.unknown") (Some "application/jats+xml")
       false
     = Returned jatsCodec
  /\ match_ (registryEnv []) (Some "a.md") None false = Returned mdCodec.
Proof. repeat split; reflexivity. Qed.

(** C4: when the module of the first codec of the list, [http], cannot be
    loaded, [match] raises for the format [text/markdown], although the
    module of [md] can be loaded; when every module loads, or when a module
    after the first one cannot be loaded, the Markdown codec is returned. *)
Theorem match_first_module_rejected :
  match_ (registryEnv ["http"]) None (Some "text/markdown") false
  = Threw (NoCodecMatch
             ("No codec could be found for format "
              +:+ quoted "text/markdown" +:+ "."))
  /\ loadCodec (registryEnv ["http"]) (Some "md") = Some (Some mdCodec)
  /\ match_ (registryEnv []) None (Some "text/markdown") false
     = Returned mdCodec
  /\ match_ (registryEnv ["dir"]) None (Some "text/markdown") false
     = Returned mdCodec.
Proof. repeat split; reflexivity. Qed.

(** *** The scan, module by module *)

Section Scanning.

Context {Node VFile : Type}.

Implicit Types (env : Env Node VFile) (c : Codec Node VFile).
Implicit Types (k : Keys) (content format name : option string).

Lemma scan_passed_over env k content (before : list string)
  (codecName : string) (after : list string) c0 c :
  matches k content c0 = false ->
  Forall (passedOver env k content true) before ->
  loadCodec env (Some codecName) = Some (Some c) ->
  matches k content c = true ->
  scan env k content (before ++ codecName :: after) (Some c0) = Some c.
Proof.
  intros Hc0 Hbefore Hload Hhit. revert c0 Hc0.
  induction Hbefore as [|skipped rest Hskipped _ IH]; intros c0 Hc0.
  - simpl. by rewrite (tryLoad_loaded _ _ _ _ Hload), Hhit.
  - cbn [app scan].
    destruct Hskipped as [(c' & Hload' & Hmiss) | (_ & Hrejected)].
    + rewrite (tryLoad_loaded _ _ _ _ Hload'), Hmiss. by apply IH.
    + unfold tryLoad. rewrite Hrejected. simpl. rewrite Hc0. by apply IH.
Qed.

(** X1: when the direct lookup gives no codec, [match] returns the codec
    of the first module of the list that passes one of the four tests,
    provided that every module before it exports a codec that fails them
    or - for a module other than the first of the list - cannot be
    imported. *)
Theorem match_first_listed env content format isOutput
  (before : list string) (codecName : string) (after : list string) c :
  let k := resolve env content format isOutput in
  codecList = before ++ codecName :: after ->
  tryLoad env (extName k) None = None ->
  (forall i skipped,
     before !! i = Some skipped ->
     passedOver env k content (bool_decide (0 < i)) skipped) ->
  loadCodec env (Some codecName) = Some (Some c) ->
  matches k content c = true ->
  match_ env content format isOutput = Returned c.
Proof.
  intros k Hlist Hdirect Hbefore Hload Hhit.
  unfold match_. fold k. rewrite Hdirect, Hlist.
  destruct before as [|first others].
  - simpl. by rewrite (tryLoad_loaded _ _ _ _ Hload), Hhit.
  - destruct (Hbefore 0 first eq_refl)
      as [(c0 & Hload0 & Hmiss0) | (Hfalse & _)]; [|done].
    cbn [app scan]. rewrite (tryLoad_loaded _ _ _ _ Hload0), Hmiss0.
    rewrite (scan_passed_over env k content others codecName after c0 c);
      [done | done | | done | done].
    apply Forall_lookup. intros i skipped Hi.
    destruct (Hbefore (S i) skipped Hi) as [Hleft | (_ & Hrejected)].
    + by left.
    + by right.
Qed.

Lemma prefix_app (p s : string) :
  String.prefix p s = true -> exists rest, s = p +:+ rest.
Proof.
  revert s. induction p as [|a p IH]; intros s; [by exists s|].
  destruct s as [|b s]; [done|]. simpl.
  destruct (ascii_dec a b) as [->|]; [|done].
  intros (rest & ->)%IH. by exists rest.
Qed.

(** X2: content that starts with [http://] or [https://], given without
    format, is looked up under the extension name [http], whatever the
    extension of its path is, and [match] returns the codec that the
    module [./codecs/http] exports. *)
Theorem match_url_content env (url : string) isOutput c :
  String.prefix "http://" url || String.prefix "https://" url = true ->
  loadCodec env (Some "http") = Some (Some c) ->
  extName (resolve env (Some url) None isOutput) = Some "http"
  /\ match_ env (Some url) None isOutput = Returned c.
Proof.
  intros Hprefix Hload.
  assert (truthy (Some url) = true /\ looksLikeUri url = true
          /\ firstRegex codecRegexes url = Some "http") as (Ht & Hu & Hr).
  { split; [|split].
    - destruct url; [done|done].
    - apply orb_true_iff in Hprefix as [H | H];
        apply prefix_app in H as (rest & ->); by destruct rest.
    - simpl. by rewrite Hprefix. }
  assert (extName (resolve env (Some url) None isOutput) = Some "http") as Hext.
  { unfold resolve, byRegex. change (truthy None) with false.
    cbn [default from_option id]. by rewrite Ht, Hu, Hr. }
  split; [done|]. apply match_direct. rewrite Hext.
  by apply tryLoad_loaded.
Qed.

(** X3: a format without [/] is taken as the extension name in place of
    the one of the path, the media type being the one that [mime] knows
    for it, and [match] returns the codec of the module of that name when
    it exports one, whatever the content is. *)
Theorem match_extension_hint env content (hint : string) isOutput c :
  truthy (Some hint) = true ->
  includesChar "/"%char hint = false ->
  loadCodec env (Some hint) = Some (Some c) ->
  extName (resolve env content (Some hint) isOutput) = Some hint
  /\ mediaType (resolve env content (Some hint) isOutput)
     = orUndefined (getType env hint)
  /\ match_ env content (Some hint) isOutput = Returned c.
Proof.
  intros Hhint Hslash Hload.
  assert (resolve env content (Some hint) isOutput
          = {| fileName := fileName (derive env content isOutput);
               extName := Some hint;
               mediaType := orUndefined (getType env hint) |}) as Hresolve.
  { unfold resolve, byFormat. cbn [default from_option id].
    by rewrite Hhint, Hslash. }
  rewrite Hresolve. split; [done|]. split; [done|].
  apply match_direct. rewrite Hresolve. by apply tryLoad_loaded.
Qed.

(** X4: [dump] raises the error of [encode] for missing options exactly
    when its format is the empty string and the options hold no non-empty
    [filePath]; given a non-empty format without [/] that names a module
    exporting a codec, it is that codec that encodes the node, with the
    format in place of the one of the options, and the dumped file is
    returned. *)
Theorem dump_by_format (vfileDump : VFile -> string) env (node : Node)
  (f : string) (options : GlobalEncodeOptions) :
  (dump vfileDump env node f options
   = Threw (MissingOption missingOptionMessage)
   <-> f = "" /\ truthy (filePath options) = false)
  /\ (forall c,
        truthy (Some f) = true ->
        includesChar "/"%char f = false ->
        loadCodec env (Some f) = Some (Some c) ->
        dump vfileDump env node f options
        = match codecEncode c node (withFormat options f) with
          | inl message => Threw (CodecFailure message)
          | inr file => Returned (vfileDump file)
          end).
Proof.
  unfold dump, encode. cbn [withFormat filePath format]. split.
  - destruct (truthy (filePath options)) eqn:Hpath,
      (truthy (Some f)) eqn:Hf; cbn [orb negb].
    4:{ split; [|done]. intros _. by destruct f. }
    all: split; [|by intros [-> ?]; discriminate].
    all: unfold match_, runEncode;
      destruct (tryLoad _ _ _) as [c|];
      [ destruct (codecEncode c _ _); discriminate |];
      destruct (scan _ _ _ _ _) as [c|]; [|discriminate];
      destruct (codecEncode c _ _); discriminate.
  - intros c Hf Hslash Hload. rewrite Hf, orb_true_r. cbn [negb].
    assert (match_ env (filePath options) (Some f) true = Returned c) as ->.
    { apply match_direct. unfold resolve, byFormat.
      cbn [default from_option id]. rewrite Hf, Hslash. cbn [extName].
      by apply tryLoad_loaded. }
    unfold runEncode. by destruct (codecEncode c node _).
Qed.

End Scanning.

Lemma match_first_listed_witness :
  match_ (registryEnv ["dir"]) None (Some "text/markdown") false
  = Returned mdCodec.
Proof.
  apply (match_first_listed (registryEnv ["dir"]) None (Some "text/markdown")
           false
           [ "http"; "dir"; "dar"; "csv"; "ods"; "tdp"; "xlsx"; "docx";
             "gdoc"; "html"; "ipynb"; "jats"; "jats-pandoc"; "latex" ]
           "md"
           [ "odt"; "pdf"; "txt"; "xmd"; "dmagic"; "rpng"; "yaml"; "pandoc";
             "json5"; "jsonld"; "json" ]
           mdCodec).
  - reflexivity.
  - reflexivity.
  - intros i skipped Hi.
    destruct i as [|[|i]].
    + injection Hi as <-. left. eexists. split; reflexivity.
    + injection Hi as <-. right. split; reflexivity.
    + do 12 (destruct i as [|i];
             [injection Hi as <-; left; eexists; split; reflexivity|]).
      discriminate.
  - reflexivity.
  - reflexivity.
Defined.

Lemma match_url_content_witness :
  match_ (registryEnv []) (Some "https://example.org/a.md") None false
  = Returned (plainCodec "http").
Proof.
  apply (match_url_content (registryEnv []) "https://example.org/a.md" false
           (plainCodec "http")); reflexivity.
Defined.

Lemma match_extension_hint_witness :
  match_ (registryEnv []) (Some "a.md") (Some "jats") false
  = Returned jatsCodec.
Proof.
  apply (match_extension_hint (registryEnv []) (Some "a.md") "jats" false
           jatsCodec); reflexivity.
Defined.

Lemma dump_by_format_witness :
  dump (fun _ : unit => "text") (registryEnv []) tt "md"
    {| filePath := None; format := Some "application/jats+xml" |}
  = Returned "text".
Proof.
  rewrite (proj2 (dump_by_format (fun _ : unit => "text") (registryEnv []) tt
                    "md" _) mdCodec); reflexivity.
Defined.

End MatcherFacts.

(** ** The Markdown codec *)

Module MdFacts.

Import JS Md JSFacts.


(** *** Paragraphs *)




(** *** The primitive extensions *)

(** C10: an inline extension [!boolean], [!number] or [!array] that has
    neither argument nor content decodes to [true], to the number parsed
    from the text [0] and to the array parsed from the text of the empty
    array; when it has both, the result is the one of the argument
    alone. *)
Theorem primitive_extension_defaults (lib : Lib)
  (nested : string -> option Node)
  (p : option (list (string * option string))) :
  parseFloat lib "0" = Finite 0 ->
  json5Parse lib "[]" = Some (Array []) ->
  decodeNode lib nested (inlineExtension (extension "boolean" None None p))
  = Some (Boolean true)
  /\ decodeNode lib nested (inlineExtension (extension "number" None None p))
     = Some (Number (Finite 0))
  /\ decodeNode lib nested (inlineExtension (extension "array" None None p))
     = Some (Array [])
  /\ forall a c,
       decodeNode lib nested
         (inlineExtension (extension "boolean" (Some c) (Some a) p))
       = Some (Boolean (String.eqb a "true" || String.eqb a "1"))
       /\ decodeNode lib nested
            (inlineExtension (extension "number" (Some c) (Some a) p))
          = Some (Number (parseFloat lib a))
       /\ decodeNode lib nested
            (inlineExtension (extension "array" (Some c) (Some a) p))
          = json5Parse lib ("[" +:+ a +:+ "]").
Proof.
  intros Hzero Hempty. repeat split.
  - simpl. unfold decodeGenericExtension, decodeNumber. simpl. by rewrite Hzero.
  - simpl. unfold decodeGenericExtension, decodeArray. simpl.
    change ("[" +:+ "" +:+ "]") with "[]". by rewrite Hempty.
Qed.

Lemma primitive_extension_defaults_witness :
  parseFloat exampleLib "0" = Finite 0
  /\ json5Parse exampleLib "[]" = Some (Array [])
  /\ decodeNode exampleLib (fun _ => None)
       (inlineExtension (extension "number" None None None))
     = Some (Number (Finite 0))
  /\ decodeNode exampleLib (fun _ => None)
       (inlineExtension (extension "boolean" (Some "false") (Some "1") None))
     = Some (Boolean true).
Proof.
  split; [reflexivity|]. split; [reflexivity|].
  pose proof (primitive_extension_defaults exampleLib (fun _ => None) None
                eq_refl eq_refl) as (_ & Hnumber & _ & Hboth).
  split; [exact Hnumber|]. exact (proj1 (Hboth "1" "false")).
Defined.

(** *** Booleans through Markdown text *)

(** C6: a boolean in a paragraph is encoded to Markdown text that holds
    [!true] (or [!false]), and decoding that text gives the paragraph with
    the boolean back, provided that the stringifier writes the value of an
    html node as it is and that the parser reads the written text as the
    inline extension of that name. *)
Theorem boolean_extension_round_trip (lib : Lib) (value : bool) (fuel : nat) :
  let literal := booleanLiteral value in
  let written := stringify lib (paragraph [html literal]) in
  embeds written literal ->
  (exists ext,
     name ext = (if value then "true" else "false")
     /\ parseRoot lib written = [paragraph [inlineExtension ext]]) ->
  encodeMarkdown lib (Paragraph [Boolean value]) = Some written
  /\ embeds written literal
  /\ decodeMarkdown lib (S fuel) written false
     = Some (Array [Paragraph [Boolean value]])
  /\ decodeMarkdown lib (S fuel) written true
     = Some (Article [] (Some [Paragraph [Boolean value]])).
Proof.
  intros literal written Hwritten (ext & Hname & Hparse).
  assert (encodeMarkdown lib (Paragraph [Boolean value]) = Some written)
    as Hencode by (by destruct value).
  assert (decodeGenericExtension lib
            (fun s => decodeMarkdown lib fuel s true) ext
          = Some (Boolean value)) as Hext.
  { unfold decodeGenericExtension, decodeBoolean. rewrite Hname. by destruct value. }
  repeat split; [done..| |].
  - simpl. rewrite Hparse. simpl. by rewrite Hext.
  - simpl. rewrite Hparse. unfold decodeArticle. simpl. by rewrite Hext.
Qed.

Lemma boolean_extension_round_trip_witness :
  encodeMarkdown exampleLib (Paragraph [Boolean true]) = Some "!true"
  /\ decodeMarkdown exampleLib 1 "!true" true
     = Some (Article [] (Some [Paragraph [Boolean true]])).
Proof.
  pose proof (boolean_extension_round_trip exampleLib true 0) as H.
  destruct H as (Henc & _ & _ & Hdec).
  - apply (embeds_here "!true" "").
  - by exists (extension "true" None None None).
  - split; [exact Henc | exact Hdec].
Defined.

(** *** Articles *)

Lemma objGet_objSet_eq {A : Type} (key : string) (v : A) o :
  objGet key (objSet key v o) = Some v.
Proof.
  induction o as [|[k w] o IH]; simpl.
  - by rewrite String.eqb_refl.
  - destruct (String.eqb key k) eqn:E; simpl; by rewrite E.
Qed.

Lemma objGet_objSet_ne {A : Type} (key other : string) (v : A) o :
  key <> other -> objGet key (objSet other v o) = objGet key o.
Proof.
  intros Hne. apply String.eqb_neq in Hne.
  induction o as [|[k w] o IH]; simpl.
  - by rewrite Hne.
  - destruct (String.eqb other k) eqn:E; simpl.
    + apply String.eqb_eq in E as ->. by rewrite Hne.
    + by rewrite IH.
Qed.

Lemma objGet_objDelete_ne {A : Type} (key other : string)
  (o : list (string * A)) :
  key <> other -> objGet key (objDelete other o) = objGet key o.
Proof.
  intros Hne. apply String.eqb_neq in Hne.
  induction o as [|[k w] o IH]; simpl; [done|].
  destruct (String.eqb other k) eqn:E; simpl.
  - apply String.eqb_eq in E as ->. by rewrite Hne.
  - by rewrite IH.
Qed.

Lemma objGet_absent {A : Type} (key : string) (o : list (string * A)) :
  key ∉ o.*1 -> objGet key o = None.
Proof.
  induction o as [|[k w] o IH]; simpl; [done|].
  intros Hnot. apply not_elem_of_cons in Hnot as [Hne Hnot].
  apply String.eqb_neq in Hne. rewrite Hne. by apply IH.
Qed.

(** After [{ ...target, ...source }] a key has its value in [source], if
    it has one there, and else its value in [target]. *)
Lemma objGet_objSpread {A : Type} (key : string)
  (source target : list (string * A)) :
  NoDup source.*1 ->
  objGet key (objSpread source target)
  = match objGet key source with
    | Some v => Some v
    | None => objGet key target
    end.
Proof.
  unfold objSpread. revert target.
  induction source as [|[k w] source IH]; intros target Hnodup; simpl; [done|].
  apply NoDup_cons in Hnodup as [Hk Hnodup]. simpl in Hk.
  rewrite (IH _ Hnodup).
  destruct (String.eqb key k) eqn:E.
  - apply String.eqb_eq in E as ->.
    by rewrite (objGet_absent _ _ Hk), objGet_objSet_eq.
  - apply String.eqb_neq in E. by rewrite (objGet_objSet_ne _ _ _ _ E).
Qed.

Lemma titleOf_article (t : Node) (frontmatter : list (string * Node))
  (nodes : list Node) :
  NoDup frontmatter.*1 ->
  titleOf (article (Some t) (Some frontmatter) nodes)
  = Some (default t (objGet "title" frontmatter)).
Proof.
  intros Hnodup. unfold article, titleOf.
  rewrite !objGet_objDelete_ne by done.
  rewrite (objGet_objSpread _ _ _ Hnodup). simpl.
  by destruct (objGet "title" frontmatter).
Qed.

(** Once the title is set, every child that is not front matter is
    decoded into the body. *)
Lemma decodeArticleLoop_titled (lib : Lib) (nested : string -> option Node)
  (children : list Mdast) (vars : ArticleVars) (t : Node) :
  title vars = Some t ->
  Forall (fun child => isYaml child = false) children ->
  decodeArticleLoop lib nested children vars
  = (nodes ← mapM (decodeNode lib nested) children;
     Some {| title := Some t; meta := meta vars;
             body := body vars ++ nodes |}).
Proof.
  revert vars. induction children as [|child rest IH]; intros vars Ht Hrest.
  - simpl. rewrite app_nil_r. destruct vars; simpl in *. by subst.
  - apply Forall_cons in Hrest as [Hchild Hrest].
    assert (decodeArticleLoop lib nested (child :: rest) vars
            = (node ← decodeNode lib nested child;
               decodeArticleLoop lib nested rest
                 {| title := title vars; meta := meta vars;
                    body := body vars ++ [node] |})) as ->.
    { destruct child as [| | |[|[|depth]] ?| | | | | | | | | | | |];
        try discriminate; simpl; by rewrite ?Ht. }
    change (mapM (decodeNode lib nested) (child :: rest))
      with (y ← decodeNode lib nested child;
            k ← mapM (decodeNode lib nested) rest; Some (y :: k)).
    destruct (decodeNode lib nested child) as [node|]; simpl; [|done].
    rewrite (IH {| title := title vars; meta := meta vars;
                   body := body vars ++ [node] |} Ht Hrest). simpl.
    destruct (mapM (decodeNode lib nested) rest) as [nodes|]; simpl; [|done].
    by rewrite <-app_assoc.
Qed.

Lemma decodeArticleLoop_after_title (lib : Lib)
  (nested : string -> option Node) (children : list Mdast) (t : Node)
  (m : option (list (string * Node))) (b : list Node) :
  Forall (fun child => isYaml child = false) children ->
  decodeArticleLoop lib nested children {| title := Some t; meta := m; body := b |}
  = (nodes ← mapM (decodeNode lib nested) children;
     Some {| title := Some t; meta := m; body := b ++ nodes |}).
Proof.
  intros H.
  exact (decodeArticleLoop_titled lib nested children
           {| title := Some t; meta := m; body := b |} t eq_refl H).
Qed.

(** C3, as the code has it: a [title] in the front matter is the title
    of the article, and a level-1 heading that follows the front matter is
    decoded into the body like any other child; the heading gives the
    title, and is left out of the body, only when the front matter has no
    [title] or when there is no front matter. *)
Theorem decodeArticle_title (lib : Lib) (nested : string -> option Node)
  (inlines rest : list Mdast) :
  Forall (fun child => isYaml child = false) rest ->
  let decode := decodeNode lib nested in
  (forall value frontmatter t,
     safeLoad lib value = Some frontmatter ->
     NoDup frontmatter.*1 ->
     objGet "title" frontmatter = Some t ->
     decodeArticle lib nested (yaml value :: heading 1 inlines :: rest)
     = (content ← mapM decode inlines;
        nodes ← mapM decode rest;
        Some (article (Some t) (Some frontmatter)
                (Heading 1 content :: nodes)))
     /\ decodeArticle lib nested (yaml value :: rest)
        = (nodes ← mapM decode rest;
           Some (article (Some t) (Some frontmatter) nodes))
     /\ forall nodes,
          titleOf (article (Some t) (Some frontmatter) nodes) = Some t
          /\ articleContent (article (Some t) (Some frontmatter) nodes)
             = Some nodes)
  /\ (forall value frontmatter,
        safeLoad lib value = Some frontmatter ->
        NoDup frontmatter.*1 ->
        objGet "title" frontmatter = None ->
        decodeArticle lib nested (yaml value :: heading 1 inlines :: rest)
        = (content ← mapM decode inlines;
           nodes ← mapM decode rest;
           Some (article (Some (headingTitle content)) (Some frontmatter)
                   nodes))
        /\ forall content nodes,
             titleOf (article (Some (headingTitle content)) (Some frontmatter)
                        nodes)
             = Some (headingTitle content))
  /\ decodeArticle lib nested (heading 1 inlines :: rest)
     = (content ← mapM decode inlines;
        nodes ← mapM decode rest;
        Some (article (Some (headingTitle content)) None nodes)).
Proof.
  intros Hrest decode. split; [|split].
  - intros value frontmatter t Hload Hnodup Htitle. split; [|split].
    + unfold decodeArticle. simpl. rewrite Hload. simpl. rewrite Htitle.
      fold decode. destruct (mapM decode inlines) as [content|]; simpl; [|done].
      rewrite (decodeArticleLoop_after_title _ _ _ _ _ _ Hrest). simpl.
      fold decode. by destruct (mapM decode rest).
    + unfold decodeArticle. simpl. rewrite Hload. simpl. rewrite Htitle.
      rewrite (decodeArticleLoop_after_title _ _ _ _ _ _ Hrest). simpl.
      fold decode. by destruct (mapM decode rest).
    + intros nodes. rewrite (titleOf_article _ _ _ Hnodup), Htitle. done.
  - intros value frontmatter Hload Hnodup Htitle. split.
    + unfold decodeArticle. simpl. rewrite Hload. simpl. rewrite Htitle.
      simpl. fold decode.
      destruct (mapM decode inlines) as [content|]; simpl; [|done].
      rewrite (decodeArticleLoop_after_title _ _ _ _ _ _ Hrest).
      simpl. fold decode. by destruct (mapM decode rest).
    + intros content nodes.
      by rewrite (titleOf_article _ _ _ Hnodup), Htitle.
  - unfold decodeArticle. simpl. fold decode.
    destruct (mapM decode inlines) as [content|]; simpl; [|done].
    rewrite (decodeArticleLoop_after_title _ _ _ _ _ _ Hrest).
    simpl. fold decode. by destruct (mapM decode rest).
Qed.

(** C3 as the claim states it fails on a document with a front matter
    title followed by a level-1 heading: the title is the one of the front
    matter and the heading is the first node of the body. *)
Lemma decodeArticle_front_matter_title_wins :
  decodeMarkdown exampleLib 1 exampleDocument true
  = Some (Article [("title", Text "Front")]
            (Some [Heading 1 [Text "Heading"]; Paragraph [Text "Body"]]))
  /\ parseRoot exampleLib exampleDocument
     = [ yaml "title: Front"; heading 1 [text "Heading"];
         paragraph [text "Body"] ]
  /\ Text "Front" <> Text "Heading".
Proof. split; [reflexivity|]. split; [reflexivity | discriminate]. Qed.

Lemma decodeArticle_title_witness :
  Forall (fun child => isYaml child = false) [paragraph [text "Body"]]
  /\ decodeArticle exampleLib (fun _ => None)
       [yaml "title: Front"; heading 1 [text "Heading"];
        paragraph [text "Body"]]
     = Some (Article [("title", Text "Front")]
               (Some [Heading 1 [Text "Heading"]; Paragraph [Text "Body"]]))
  /\ decodeArticle exampleLib (fun _ => None)
       [heading 1 [text "Heading"]; paragraph [text "Body"]]
     = Some (Article [("title", Text "Heading")]
               (Some [Paragraph [Text "Body"]])).
Proof.
  assert (Forall (fun child => isYaml child = false) [paragraph [text "Body"]])
    as Hrest by (by repeat constructor).
  pose proof (decodeArticle_title exampleLib (fun _ => None)
                [text "Heading"] [paragraph [text "Body"]] Hrest)
    as (Hfront & _ & Hnone).
  split; [exact Hrest|]. split.
  - rewrite (proj1 (Hfront "title: Front" [("title", Text "Front")]
                      (Text "Front") eq_refl
                      ltac:(repeat constructor; set_solver) eq_refl)).
    reflexivity.
  - rewrite Hnone. reflexivity.
Defined.

(** *** Code chunks *)

Lemma pushOutputs_group (outputs group : list Node) :
  pushOutputs outputs group = outputs ++ [outputOfGroup group].
Proof.
  unfold pushOutputs, outputOfGroup.
  destruct group as [|first others]; [done|].
  destruct first, others; try reflexivity;
    match goal with
    | c : list Node |- _ => destruct c as [|? [|? ?]]; reflexivity
    end.
Qed.

Lemma splitOnBreaks_cons (nodes : list Node) :
  exists group groups, splitOnBreaks nodes = group :: groups.
Proof.
  induction nodes as [|node rest (g & gs & IH)]; [by eexists _, _|].
  destruct node; simpl; rewrite ?IH; by eexists _, _.
Qed.

Lemma splitOnBreaks_step (node : Node) (rest : list Node) :
  isThematicBreak node = false ->
  splitOnBreaks (node :: rest) = extendFirst [node] (splitOnBreaks rest).
Proof.
  intros Hnode. destruct (splitOnBreaks_cons rest) as (g & gs & Hsplit).
  destruct node; try discriminate; simpl; by rewrite Hsplit.
Qed.

Lemma collectOutputs_step (node : Node) (rest outputs gathered : list Node) :
  isThematicBreak node = false ->
  collectOutputs (node :: rest) outputs gathered
  = collectOutputs rest outputs (gathered ++ [node]).
Proof. intros Hnode. by destruct node. Qed.

(** The loop of [decodeCodeChunk] computes the outputs of the groups
    between the thematic breaks. *)
Lemma collectOutputs_split (nodes outputs gathered : list Node) :
  collectOutputs nodes outputs gathered
  = outputs
    ++ map outputOfGroup (extendFirst gathered (splitOnBreaks nodes)).
Proof.
  revert outputs gathered.
  induction nodes as [|node rest IH]; intros outputs gathered.
  - simpl. by rewrite pushOutputs_group, app_nil_r.
  - destruct (isThematicBreak node) eqn:Hnode.
    + destruct node; try discriminate. simpl.
      rewrite IH, pushOutputs_group, app_nil_r, <-app_assoc. simpl.
      by destruct (splitOnBreaks_cons rest) as (g & gs & ->).
    + rewrite (collectOutputs_step _ _ _ _ Hnode), IH,
        (splitOnBreaks_step _ _ Hnode).
      destruct (splitOnBreaks_cons rest) as (g & gs & ->). simpl.
      by rewrite <-app_assoc.
Qed.
















(** *** Text *)

Lemma isNewline_isSpace (c : ascii) : isNewline c = true -> isSpace c = true.
Proof.
  unfold isNewline, isSpace. intros H%Nat.eqb_eq. by rewrite H.
Qed.

Lemma isNewline_line_feed (c : ascii) :
  isNewline c = Ascii.eqb "010"%char c.
Proof.
  unfold isNewline. destruct (Ascii.eqb "010"%char c) eqn:E.
  - apply Ascii.eqb_eq in E as <-. reflexivity.
  - apply Nat.eqb_neq. intros Hc. apply Ascii.eqb_neq in E. apply E.
    by rewrite <-(ascii_nat_embedding c), Hc.
Qed.

(** Reading again the text that [collapseFrom] wrote changes nothing. *)
Lemma collapseFrom_settled (s : string) (st : WsState) :
  collapseFrom (settled st) (collapseFrom st s) = collapseFrom st s.
Proof.
  revert st. induction s as [|c r IH]; intros st; [by destruct st|].
  assert (isNewline " " = false /\ isSpace " " = true) as [Hn Hs] by done.
  pose proof (IH Skipping) as Hk. pose proof (IH AfterSpace) as Ha.
  pose proof (IH AfterText) as Ht. cbn [settled] in Hk, Ha, Ht.
  assert (isSpace c = false -> isNewline c = false) as Hnot.
  { intros Hc. destruct (isNewline c) eqn:E; [|done].
    apply isNewline_isSpace in E. congruence. }
  destruct (isSpace c) eqn:Hspace, (isNewline c) eqn:Hnewline;
    try (specialize (Hnot eq_refl); discriminate);
    destruct st; cbn [collapseFrom settled];
    rewrite ?Hspace, ?Hnewline; cbn [collapseFrom];
    rewrite ?Hspace, ?Hnewline, ?Hn, ?Hs;
    by rewrite ?Hk, ?Ha, ?Ht.
Qed.

Lemma collapseFrom_no_line_feed (s : string) (st : WsState) :
  st <> Skipping ->
  includesChar "010"%char s = false ->
  collapseFrom st s = s.
Proof.
  revert st. induction s as [|c r IH]; intros st Hst Hnone; [done|].
  cbn [includesChar] in Hnone. rewrite <-isNewline_line_feed in Hnone.
  destruct (isNewline c) eqn:Hc; [done|].
  assert (forall st', st' <> Skipping -> collapseFrom st' r = r) as Hr
    by (intros st' Hst'; by apply IH).
  destruct st; [| | |done]; cbn [collapseFrom]; rewrite ?Hc;
    destruct (isSpace c); by rewrite Hr.
Qed.

(** X5: the replacement of line feeds that [decodeText] and
    [encodeString] apply is idempotent, so that decoding the text node
    that [encodeString] makes gives the text that was encoded, with its
    line feeds replaced once; and a text without line feed is left as it
    is. *)
Theorem collapseNewlines_idempotent (s : string) :
  collapseNewlines (collapseNewlines s) = collapseNewlines s
  /\ (forall lib nested,
        decodeNode lib nested (encodeString s)
        = Some (Text (collapseNewlines s)))
  /\ (includesChar "010"%char s = false -> collapseNewlines s = s).
Proof.
  assert (collapseNewlines (collapseNewlines s) = collapseNewlines s)
    as Hidem by exact (collapseFrom_settled s AtStart).
  split; [done|]. split.
  - intros lib nested. unfold encodeString. cbn [decodeNode].
    unfold decodeText. by rewrite Hidem.
  - by apply collapseFrom_no_line_feed.
Qed.

Lemma collapseNewlines_idempotent_witness :
  includesChar "010"%char "two words" = false
  /\ collapseNewlines "two words" = "two words".
Proof.
  split; [reflexivity|].
  apply (proj2 (proj2 (collapseNewlines_idempotent "two words"))).
  reflexivity.
Defined.

(** *** The pass over the extensions *)

Lemma Mdast_nested_ind (P : Mdast -> Prop) :
  (forall children, Forall P children -> P (root children)) ->
  (forall depth children, Forall P children -> P (heading depth children)) ->
  (forall children, Forall P children -> P (paragraph children)) ->
  (forall children, Forall P children -> P (blockquote children)) ->
  (forall children, Forall P children -> P (emphasis children)) ->
  (forall children, Forall P children -> P (strong children)) ->
  (forall children, Forall P children -> P (delete children)) ->
  (forall tree,
     match tree with
     | root _ | heading _ _ | paragraph _ | blockquote _ | emphasis _
     | strong _ | delete _ => False
     | _ => True
     end -> P tree) ->
  forall tree, P tree.
Proof.
  intros Hroot Hheading Hparagraph Hblockquote Hemphasis Hstrong Hdelete
    Hleaf.
  fix IH 1. intros tree.
  pose (nodes := fun l : list Mdast =>
          list_ind (Forall P) (Forall_nil_2 P)
            (fun first rest => Forall_cons_2 P first rest (IH first)) l).
  destruct tree;
    first [ apply Hroot, nodes | apply Hheading, nodes
          | apply Hparagraph, nodes | apply Hblockquote, nodes
          | apply Hemphasis, nodes | apply Hstrong, nodes
          | apply Hdelete, nodes | by apply Hleaf ].
Qed.

Lemma existsb_map_false {A : Type} (f : A -> A) (p : A -> bool) (l : list A) :
  Forall (fun x => p (f x) = false) l -> existsb p (map f l) = false.
Proof. induction 1 as [|x l Hx _ IH]; [done|]. simpl. by rewrite Hx, IH. Qed.

Lemma map_fixed {A : Type} (f : A -> A) (p : A -> bool) (l : list A) :
  Forall (fun x => p x = false -> f x = x) l ->
  existsb p l = false -> map f l = l.
Proof.
  induction 1 as [|x l Hx _ IH]; [done|]. simpl.
  intros [Hp Hl]%orb_false_iff. by rewrite (Hx Hp), (IH Hl).
Qed.

(** X6: after [stringifyExtensions] no inline or block extension is left
    anywhere in the tree, and a tree without extension is left as it
    is. *)
Theorem stringifyExtensions_leaves_none (lib : Lib) (tree : Mdast) :
  hasExtension (stringifyExtensions lib tree) = false
  /\ (hasExtension tree = false -> stringifyExtensions lib tree = tree).
Proof.
  induction tree as [children IH|depth children IH|children IH|children IH
                     |children IH|children IH|children IH|tree Hleaf]
    using Mdast_nested_ind;
    try (split;
         [ simpl; apply existsb_map_false;
           eapply Forall_impl; [exact IH|]; by intros ? [? _]
         | simpl; intros Hnone; f_equal;
           apply (map_fixed _ hasExtension); [|done];
           eapply Forall_impl; [exact IH|]; by intros ? [_ ?] ]).
  by destruct tree.
Qed.

Lemma stringifyExtensions_leaves_none_witness :
  hasExtension (paragraph [text "a"; emphasis [text "b"]]) = false
  /\ stringifyExtensions exampleLib (paragraph [text "a"; emphasis [text "b"]])
     = paragraph [text "a"; emphasis [text "b"]].
Proof.
  split; [reflexivity|].
  apply (proj2 (stringifyExtensions_leaves_none exampleLib
                  (paragraph [text "a"; emphasis [text "b"]]))).
  reflexivity.
Defined.

(** *** Encoding and decoding MDAST nodes *)

(** Induction over the nodes whose content is a list of nodes. *)
Lemma Node_content_ind (P : Node -> Prop) :
  (forall depth content, Forall P content -> P (Heading depth content)) ->
  (forall content, Forall P content -> P (Paragraph content)) ->
  (forall content, Forall P content -> P (QuoteBlock content)) ->
  (forall content, Forall P content -> P (Emphasis content)) ->
  (forall content, Forall P content -> P (Strong content)) ->
  (forall content, Forall P content -> P (Delete content)) ->
  (forall node,
     match node with
     | Heading _ _ | Paragraph _ | QuoteBlock _ | Emphasis _ | Strong _
     | Delete _ => False
     | _ => True
     end -> P node) ->
  forall node, P node.
Proof.
  intros HHeading HParagraph HQuoteBlock HEmphasis HStrong HDelete Hother.
  fix IH 1. intros node.
  pose (nodes := fun l : list Node =>
          list_ind (Forall P) (Forall_nil_2 P)
            (fun first rest => Forall_cons_2 P first rest (IH first)) l).
  destruct node;
    first [ apply HHeading, nodes | apply HParagraph, nodes
          | apply HQuoteBlock, nodes | apply HEmphasis, nodes
          | apply HStrong, nodes | apply HDelete, nodes
          | by apply Hother ].
Qed.

Lemma each_Forall (P : Node -> Prop) (nodes : list Node) :
  fold_right and True (map P nodes) <-> Forall P nodes.
Proof.
  induction nodes as [|node rest IH]; simpl.
  - split; [by constructor | done].
  - rewrite Forall_cons. tauto.
Qed.

Lemma mapM_round_trip {A B : Type} (enc : A -> option B) (dec : B -> option A)
  (items : list A) :
  Forall (fun item => exists m, enc item = Some m /\ dec m = Some item) items ->
  exists ms, mapM enc items = Some ms /\ mapM dec ms = Some items.
Proof.
  induction 1 as [|item rest (m & Henc & Hdec) _ (ms & Hencs & Hdecs)].
  - by exists [].
  - exists (m :: ms). split.
    + change (mapM enc (item :: rest))
        with (y ← enc item; k ← mapM enc rest; Some (y :: k)).
      by rewrite Henc, Hencs.
    + change (mapM dec (m :: ms))
        with (y ← dec m; k ← mapM dec ms; Some (y :: k)).
      by rewrite Hdec, Hdecs.
Qed.

Lemma roundTrips_encode_decode (lib : Lib) (nested : string -> option Node)
  (node : Node) :
  roundTrips lib node ->
  exists m, encodeNode lib node = Some m /\ decodeNode lib nested m = Some node.
Proof.
  induction node as [depth content IH|content IH|content IH|content IH
                     |content IH|content IH|node Hother]
    using Node_content_ind; intros Hnode.
  all: try (
    (try destruct Hnode as [Hfilled Hnode]);
    apply each_Forall in Hnode;
    destruct (mapM_round_trip (encodeNode lib) (decodeNode lib nested) content)
      as (ms & Henc & Hdec);
    [ rewrite Forall_forall in IH, Hnode; apply Forall_forall;
      intros item Hin; by apply IH, Hnode
    | cbn [encodeNode]; rewrite ?Hfilled, Henc; eexists; split; [done|];
      cbn [decodeNode]; by rewrite Hdec ]).
  destruct node; try done; cbn [roundTrips] in Hnode.
  - (* Null *) by eexists.
  - (* Boolean *) eexists. split; [done|]. by destruct value.
  - (* Number *)
    eexists. split; [done|]. cbn.
    unfold decodeGenericExtension, decodeNumber. cbn. by rewrite Hnode.
  - (* Text *)
    eexists. split; [done|]. unfold encodeString. cbn [decodeNode].
    unfold decodeText. by rewrite !Hnode.
  - (* Array *)
    eexists. split; [done|]. cbn.
    unfold decodeGenericExtension, decodeArray. cbn. exact Hnode.
  - (* Object *)
    eexists. split; [done|]. cbn.
    unfold decodeGenericExtension, decodeObject. cbn. exact Hnode.
  - (* CodeBlock *)
    destruct Hnode as (Htrim & Hlang & ->).
    eexists. split; [done|]. cbn. unfold decodeCodeblock.
    rewrite Htrim, Hlang. cbn. done.
  - (* ThematicBreak *) by eexists.
  - (* Quote *)
    destruct Hnode as (Hcontent & Hcite).
    eexists. split; [done|]. cbn.
    unfold decodeGenericExtension, decodeQuote. cbn. rewrite Hcite.
    destruct Hcontent as [-> | (s & -> & Hs)]; cbn; [done|].
    by destruct s.
Qed.

Lemma roundTrips_not_yaml (lib : Lib) (node : Node) (m : Mdast) :
  roundTrips lib node -> encodeNode lib node = Some m -> isYaml m = false.
Proof.
  destruct node; try done; cbn [encodeNode];
    try (intros _ [= <-]; reflexivity);
    try (intros _; destruct (mapM (encodeNode lib) _); simpl;
         intros [= <-]; reflexivity).
  intros [-> _]. destruct (mapM (encodeNode lib) _); simpl;
    intros [= <-]; reflexivity.
Qed.

Lemma roundTrips_all (lib : Lib) (nested : string -> option Node)
  (nodes : list Node) :
  Forall (roundTrips lib) nodes ->
  exists children,
    mapM (encodeNode lib) nodes = Some children
    /\ mapM (decodeNode lib nested) children = Some nodes
    /\ Forall (fun child => isYaml child = false) children.
Proof.
  induction 1 as [|node rest Hnode _ (children & Henc & Hdec & Hyaml)].
  - exists []. by repeat split.
  - destruct (roundTrips_encode_decode lib nested node Hnode)
      as (m & Hm & Hback).
    exists (m :: children). split; [|split].
    + change (mapM (encodeNode lib) (node :: rest))
        with (y ← encodeNode lib node;
              k ← mapM (encodeNode lib) rest; Some (y :: k)).
      by rewrite Hm, Henc.
    + change (mapM (decodeNode lib nested) (m :: children))
        with (y ← decodeNode lib nested m;
              k ← mapM (decodeNode lib nested) children; Some (y :: k)).
      by rewrite Hback, Hdec.
    + apply Forall_cons. split; [|done].
      by eapply roundTrips_not_yaml.
Qed.

(** X7: for the nodes of [roundTrips], [encodeNode] gives an MDAST node
    and [decodeNode] gives the node back from it; the same holds for a
    list of such nodes, encoded and decoded one by one. *)
Theorem encodeNode_decodeNode (lib : Lib) (nested : string -> option Node) :
  (forall node,
     roundTrips lib node ->
     exists m, encodeNode lib node = Some m
               /\ decodeNode lib nested m = Some node)
  /\ (forall nodes,
        Forall (roundTrips lib) nodes ->
        exists children,
          mapM (encodeNode lib) nodes = Some children
          /\ mapM (decodeNode lib nested) children = Some nodes).
Proof.
  split; [apply roundTrips_encode_decode|].
  intros nodes Hnodes.
  destruct (roundTrips_all lib nested nodes Hnodes) as (children & ? & ? & _).
  by exists children.
Qed.

Lemma encodeNode_decodeNode_witness :
  let node :=
    Paragraph [Text "See "; Emphasis [Boolean true]; Number (Finite 0)] in
  roundTrips exampleLib node
  /\ exists m, encodeNode exampleLib node = Some m
               /\ decodeNode exampleLib (fun _ => None) m = Some node.
Proof.
  intros node.
  assert (roundTrips exampleLib node) as Hnode
    by (simpl; repeat split; reflexivity).
  split; [exact Hnode|].
  exact (proj1 (encodeNode_decodeNode exampleLib (fun _ => None)) node Hnode).
Defined.

(** *** Articles, again *)

Lemma objSet_absent {A : Type} (key : string) (value : A)
  (o : list (string * A)) :
  key ∉ o.*1 -> objSet key value o = o ++ [(key, value)].
Proof.
  induction o as [|[k w] o IH]; [done|]. simpl.
  intros [Hne Hnot]%not_elem_of_cons.
  apply String.eqb_neq in Hne. by rewrite Hne, IH.
Qed.

Lemma objSpread_fresh {A : Type} (source target : list (string * A)) :
  NoDup (target.*1 ++ source.*1) ->
  objSpread source target = target ++ source.
Proof.
  unfold objSpread. revert target.
  induction source as [|[key value] source IH]; intros target Hnodup; simpl.
  - by rewrite app_nil_r.
  - rewrite objSet_absent.
    + rewrite IH; [by rewrite <-app_assoc|].
      rewrite fmap_app, <-app_assoc. done.
    + apply NoDup_app in Hnodup as (_ & Hdisjoint & _).
      intros Hin. apply (Hdisjoint key Hin). by left.
Qed.

Lemma objDelete_absent {A : Type} (key : string) (o : list (string * A)) :
  key ∉ o.*1 -> objDelete key o = o.
Proof.
  induction o as [|[k w] o IH]; [done|]. simpl.
  intros [Hne Hnot]%not_elem_of_cons.
  apply String.eqb_neq in Hne. by rewrite Hne, IH.
Qed.

(** X8: an article whose first property is its [title], with other
    properties of distinct names and content of nodes that round trip, is
    encoded to a root that starts with the front matter, and
    [decodeArticle] gives the article back from the children of that
    root - a level-1 heading of the content included - provided that the
    YAML loader reads back what the dumper wrote. *)
Theorem article_round_trip (lib : Lib) (nested : string -> option Node)
  (t : Node) (others : list (string * Node)) (nodes : list Node) :
  let properties := ("title", t) :: others in
  NoDup properties.*1 ->
  "type" ∉ properties.*1 ->
  "content" ∉ properties.*1 ->
  safeLoad lib (trim (safeDump lib properties)) = Some properties ->
  Forall (roundTrips lib) nodes ->
  exists children,
    encodeNode lib (Article properties (Some nodes))
    = Some (root (yaml (trim (safeDump lib properties)) :: children))
    /\ decodeArticle lib nested
         (yaml (trim (safeDump lib properties)) :: children)
       = Some (Article properties (Some nodes)).
Proof.
  intros properties Hnodup Htype Hcontent Hyaml Hnodes.
  destruct (roundTrips_all lib nested nodes Hnodes)
    as (children & Henc & Hdec & Hnotyaml).
  exists children. split.
  - cbn [encodeNode]. by rewrite Henc.
  - unfold decodeArticle. cbn [decodeArticleLoop]. rewrite Hyaml. simpl.
    rewrite (decodeArticleLoop_after_title _ _ _ _ _ _ Hnotyaml).
    rewrite Hdec. simpl. unfold article.
    assert (objSpread (default [] (Some properties)) [("title", t)]
            = properties) as ->.
    { subst properties. unfold objSpread. cbn [default from_option id].
      cbn [fold_left fst snd objSet]. rewrite String.eqb_refl.
      change (fold_left _ others ?target) with (objSpread others target).
      by rewrite objSpread_fresh. }
    rewrite (objDelete_absent "type") by done.
    by rewrite (objDelete_absent "content").
Qed.

Lemma article_round_trip_witness :
  let nodes := [Heading 1 [Text "Heading"]; Paragraph [Text "Body"]] in
  exists children,
    encodeNode yamlLib (Article [("title", Text "Front")] (Some nodes))
    = Some (root (yaml "title: Front" :: children))
    /\ decodeArticle yamlLib (fun _ => None) (yaml "title: Front" :: children)
       = Some (Article [("title", Text "Front")] (Some nodes)).
Proof.
  intros nodes.
  apply (article_round_trip yamlLib (fun _ => None) (Text "Front") [] nodes).
  - apply NoDup_singleton.
  - by intros ?%list_elem_of_singleton.
  - by intros ?%list_elem_of_singleton.
  - reflexivity.
  - repeat constructor; reflexivity.
Defined.

Lemma decodeArticleLoop_untitled (lib : Lib) (nested : string -> option Node)
  (children inlines after : list Mdast) (b : list Node) :
  Forall (fun child => isYaml child = false /\ isTitleHeading child = false)
    children ->
  Forall (fun child => isYaml child = false) after ->
  decodeArticleLoop lib nested (children ++ heading 1 inlines :: after)
    {| title := None; meta := None; body := b |}
  = (first ← mapM (decodeNode lib nested) children;
     content ← mapM (decodeNode lib nested) inlines;
     rest ← mapM (decodeNode lib nested) after;
     Some {| title := Some (headingTitle content); meta := None;
             body := (b ++ first) ++ rest |}).
Proof.
  intros Hall Hafter. revert b.
  set (decode := decodeNode lib nested).
  induction Hall as [|child others [Hyaml Htitle] _ IH]; intros b.
  - simpl. fold decode.
    destruct (mapM decode inlines) as [content|]; simpl; [|done].
    rewrite (decodeArticleLoop_after_title _ _ _ _ _ _ Hafter).
    fold decode. destruct (mapM decode after); simpl; [|done].
    by rewrite app_nil_r.
  - rewrite <-app_comm_cons.
    assert (decodeArticleLoop lib nested
              (child :: others ++ heading 1 inlines :: after)
              {| title := None; meta := None; body := b |}
            = (node ← decode child;
               decodeArticleLoop lib nested
                 (others ++ heading 1 inlines :: after)
                 {| title := None; meta := None; body := b ++ [node] |}))
      as ->.
    { destruct child as [| | |[|[|depth]] ?| | | | | | | | | | | |];
        try discriminate; reflexivity. }
    change (mapM decode (child :: others))
      with (y ← decode child; k ← mapM decode others; Some (y :: k)).
    destruct (decode child) as [node|]; simpl; [|done].
    rewrite IH.
    destruct (mapM decode others) as [first|]; simpl; [|done].
    destruct (mapM decode inlines) as [content|]; simpl; [|done].
    destruct (mapM decode after) as [rest|]; simpl; [|done].
    by rewrite <-!app_assoc.
Qed.

(** X9: without front matter, the first level-1 heading among the
    children of the root gives the title of the article wherever it
    stands, also after other content, and is left out of the content; the
    children before and after it, a later level-1 heading included, are
    decoded into the content in their order. *)
Theorem decodeArticle_first_heading (lib : Lib)
  (nested : string -> option Node) (before inlines after : list Mdast) :
  Forall (fun child => isYaml child = false /\ isTitleHeading child = false)
    before ->
  Forall (fun child => isYaml child = false) after ->
  let decode := decodeNode lib nested in
  decodeArticle lib nested (before ++ heading 1 inlines :: after)
  = (first ← mapM decode before;
     content ← mapM decode inlines;
     rest ← mapM decode after;
     Some (article (Some (headingTitle content)) None (first ++ rest))).
Proof.
  intros Hbefore Hafter decode. unfold decodeArticle.
  rewrite (decodeArticleLoop_untitled _ _ _ _ _ _ Hbefore Hafter).
  fold decode.
  destruct (mapM decode before) as [first|]; simpl; [|done].
  destruct (mapM decode inlines) as [content|]; simpl; [|done].
  by destruct (mapM decode after) as [rest|].
Qed.

Lemma decodeArticle_first_heading_witness :
  decodeArticle exampleLib (fun _ => None)
    [paragraph [text "Intro"]; heading 1 [text "Heading"];
     heading 1 [text "Again"]]
  = Some (Article [("title", Text "Heading")]
            (Some [Paragraph [Text "Intro"]; Heading 1 [Text "Again"]])).
Proof.
  change [paragraph [text "Intro"]; heading 1 [text "Heading"];
          heading 1 [text "Again"]]
    with ([paragraph [text "Intro"]]
          ++ heading 1 [text "Heading"] :: [heading 1 [text "Again"]]).
  rewrite (decodeArticle_first_heading exampleLib (fun _ => None)
             [paragraph [text "Intro"]] [text "Heading"]
             [heading 1 [text "Again"]]).
  - reflexivity.
  - by repeat constructor.
  - by repeat constructor.
Defined.


(** *** Block extensions *)

Lemma splitOnBreaks_length (nodes : list Node) :
  length (splitOnBreaks nodes) = S (countBreaks nodes).
Proof.
  unfold countBreaks. induction nodes as [|node rest IH]; [done|].
  destruct (isThematicBreak node) eqn:Hnode.
  - destruct node; try discriminate.
    rewrite filter_cons_True by done.
    cbn [splitOnBreaks length]. by rewrite IH.
  - rewrite (splitOnBreaks_step _ _ Hnode).
    rewrite filter_cons_False by (rewrite Hnode; done).
    destruct (splitOnBreaks_cons rest) as (g & gs & E). rewrite E in *.
    simpl in *. lia.
Qed.

(** X10: a [chunk] extension whose content starts with a code block
    decodes to a chunk with the text, language and meta of that block;
    without further nodes it has no [outputs], and otherwise it has one
    output more than there are thematic breaks after the code block (an
    empty group giving an empty array). When the content does not start
    with a code block, the chunk has the empty text and nothing else. *)
Theorem decodeCodeChunk_outputs_count (lib : Lib)
  (nested : string -> option Node) (ext : Extension) (md : string)
  (chunkArticle : Node) :
  name ext = "chunk" ->
  content ext = Some md ->
  nested md = Some chunkArticle ->
  (forall source lang info rest,
     articleContent chunkArticle
     = Some (CodeBlock source lang info :: rest) ->
     exists outputs,
       decodeNode lib nested (blockExtension ext)
       = Some (CodeChunk source lang info outputs)
       /\ (rest = [] -> outputs = None)
       /\ (rest <> [] ->
           exists outs, outputs = Some outs
                        /\ length outs = S (countBreaks rest)))
  /\ ((forall first,
         head (default [] (articleContent chunkArticle)) = Some first ->
         isCodeBlock first = false) ->
      decodeNode lib nested (blockExtension ext)
      = Some (CodeChunk "" None None None)).
Proof.
  intros Hname Hcontent Hnested.
  assert (decodeNode lib nested (blockExtension ext)
          = decodeCodeChunk nested ext) as ->.
  { cbn [decodeNode]. unfold decodeGenericExtension. by rewrite Hname. }
  unfold decodeCodeChunk. rewrite Hcontent. simpl. rewrite Hnested. simpl.
  split.
  - intros source lang info rest ->. cbn [default from_option id].
    cbv beta iota.
    destruct rest as [|node rest].
    + eexists. split; [done|]. split; [done|]. done.
    + rewrite collectOutputs_split.
      pose proof (splitOnBreaks_length (node :: rest)) as Hlen.
      destruct (splitOnBreaks_cons (node :: rest)) as (g & gs & E).
      rewrite E in Hlen |- *. cbn [extendFirst app map].
      eexists. split; [done|]. split; [done|].
      intros _. eexists. split; [done|].
      cbn [length] in *. rewrite length_map. lia.
  - intros Hnot. destruct (articleContent chunkArticle) as [[|first rest]|];
      simpl; try done.
    specialize (Hnot first eq_refl). by destruct first.
Qed.

Lemma decodeCodeChunk_outputs_count_witness :
  let nested := fun _ : string =>
    Some (Article []
            (Some [CodeBlock "x" None None; Paragraph [Text "a"];
                   ThematicBreak]))
  in
  exists outputs,
    decodeNode exampleLib nested
      (blockExtension (extension "chunk" (Some "x") None None))
    = Some (CodeChunk "x" None None (Some outputs))
    /\ length outputs = 2.
Proof.
  intros nested.
  destruct (proj1 (decodeCodeChunk_outputs_count exampleLib nested
                     (extension "chunk" (Some "x") None None) "x"
                     (Article []
                        (Some [CodeBlock "x" None None; Paragraph [Text "a"];
                               ThematicBreak]))
                     eq_refl eq_refl eq_refl)
              "x" None None [Paragraph [Text "a"]; ThematicBreak] eq_refl)
    as (outputs & Hdecode & _ & Hsome).
  destruct (Hsome ltac:(discriminate)) as (outs & -> & Hlen).
  by exists outs.
Defined.

(** X11: a [figure] extension decodes to a figure whose [content] is the
    first node of the decoded content of the extension, whose [caption]
    is the nodes after it and whose [label] is the argument; when the
    nodes are those of a figure with exactly one content node, content
    and caption are the ones of that figure. *)
Theorem decodeFigure_splits (lib : Lib) (nested : string -> option Node)
  (ext : Extension) (md : string) (figureArticle : Node) (nodes : list Node) :
  name ext = "figure" ->
  content ext = Some md ->
  nested md = Some figureArticle ->
  articleContent figureArticle = Some nodes ->
  exists first caption,
    decodeNode lib nested (blockExtension ext)
    = Some (Figure (Some first) (Some caption) (argument ext))
    /\ first ++ caption = nodes
    /\ length first = min 1 (length nodes)
    /\ forall content others,
         nodes = content ++ others -> length content = 1 ->
         first = content /\ caption = others.
Proof.
  intros Hname Hcontent Hnested Harticle.
  exists (take 1 nodes), (drop 1 nodes). split.
  - cbn [decodeNode]. unfold decodeGenericExtension, decodeFigure.
    rewrite Hname, Hcontent. simpl. rewrite Hnested. simpl.
    by rewrite Harticle.
  - split; [apply take_drop|]. split; [apply length_take|].
    intros content others -> Hlen.
    destruct content as [|node [|second more]]; try discriminate. done.
Qed.

Lemma decodeFigure_splits_witness :
  let nested := fun _ : string =>
    Some (Article []
            (Some [CodeBlock "x" None None; Paragraph [Text "Caption"]]))
  in
  decodeNode exampleLib nested
    (blockExtension (extension "figure" (Some "x") (Some "Figure 1") None))
  = Some (Figure (Some [CodeBlock "x" None None])
            (Some [Paragraph [Text "Caption"]]) (Some "Figure 1")).
Proof.
  intros nested.
  destruct (decodeFigure_splits exampleLib nested
              (extension "figure" (Some "x") (Some "Figure 1") None) "x"
              (Article []
                 (Some [CodeBlock "x" None None; Paragraph [Text "Caption"]]))
              [CodeBlock "x" None None; Paragraph [Text "Caption"]]
              eq_refl eq_refl eq_refl eq_refl)
    as (first & caption & Hdecode & _ & _ & Hone).
  destruct (Hone [CodeBlock "x" None None] [Paragraph [Text "Caption"]]
              eq_refl eq_refl) as [-> ->].
  exact Hdecode.
Defined.

(** X12: an [include] extension decodes to an [Include] whose [source] is
    the argument (the empty string without one); its [content] is
    undefined when the extension has no content or empty content, and
    otherwise holds exactly the block content nodes of the decoded
    content, in their order. *)
Theorem decodeInclude_block_content (lib : Lib)
  (nested : string -> option Node) (ext : Extension) :
  name ext = "include" ->
  (truthy (content ext) = false ->
   decodeNode lib nested (blockExtension ext)
   = Some (Include (default "" (argument ext)) None))
  /\ (forall md included,
        content ext = Some md -> truthy (Some md) = true ->
        nested md = Some included ->
        exists nodes,
          decodeNode lib nested (blockExtension ext)
          = Some (Include (default "" (argument ext)) (Some nodes))
          /\ nodes = filter (fun node => isBlockContent node = true)
                       (default [] (articleContent included))
          /\ Forall (fun node => isBlockContent node = true) nodes).
Proof.
  intros Hname.
  assert (decodeNode lib nested (blockExtension ext)
          = decodeInclude nested ext) as ->.
  { cbn [decodeNode]. unfold decodeGenericExtension. by rewrite Hname. }
  unfold decodeInclude. split.
  - by intros ->.
  - intros md included Hcontent Htruthy Hnested.
    rewrite Hcontent, Htruthy. simpl. rewrite Hnested. simpl.
    eexists. split; [done|]. split; [done|].
    apply Forall_forall. by intros node [? _]%list_elem_of_filter.
Qed.

Lemma decodeInclude_block_content_witness :
  let nested := fun _ : string =>
    Some (Article [] (Some [Paragraph [Text "a"]; Text "b"; ThematicBreak]))
  in
  decodeNode exampleLib nested
    (blockExtension (extension "include" (Some "x") (Some "a.md") None))
  = Some (Include "a.md" (Some [Paragraph [Text "a"]; ThematicBreak])).
Proof.
  intros nested.
  destruct (proj2 (decodeInclude_block_content exampleLib nested
                     (extension "include" (Some "x") (Some "a.md") None)
                     eq_refl)
              "x" _ eq_refl eq_refl eq_refl) as (nodes & Hdecode & -> & _).
  exact Hdecode.
Defined.

(** *** The object extension *)

Lemma definedProps_from (props : list (string * option string))
  (o : list (string * Node)) :
  fold_left
    (fun o kv =>
       match snd kv with
       | Some value => objSet (fst kv) (Text value) o
       | None => o
       end)
    props o = []
  <-> o = [] /\ Forall (fun kv => snd kv = None) props.
Proof.
  revert o. induction props as [|[key value] rest IH]; intros o; simpl.
  - split; [by intros -> | by intros [-> _]].
  - rewrite IH, Forall_cons. simpl. destruct value as [v|].
    + split.
      * intros [Hset _]. destruct o as [|[k w] o]; [done|].
        simpl in Hset. by destruct (String.eqb key k).
      * by intros (_ & ? & _).
    + tauto.
Qed.

(** X13: an [object] extension with at least one property that is not
    undefined decodes to the object of those properties, whatever its
    argument and content are; otherwise the text between the braces given
    to [JSON5.parse] is the argument, or else the content, and with
    neither it is the text [undefined] - not the empty text, as it is for
    [array]. *)
Theorem decodeObject_precedence (lib : Lib) (ext : Extension) :
  (forall props,
     properties ext = Some props ->
     Exists (fun kv => snd kv <> None) props ->
     decodeObject lib ext = Some (Object (definedProps props))
     /\ definedProps props <> [])
  /\ ((forall props, properties ext = Some props ->
                     Forall (fun kv => snd kv = None) props) ->
      decodeObject lib ext
      = json5Parse lib
          ("{" +:+ match argument ext, content ext with
                   | Some a, _ => a
                   | None, Some c => c
                   | None, None => "undefined"
                   end +:+ "}")).
Proof.
  unfold decodeObject. split.
  - intros props -> Hsome.
    assert (definedProps props <> []) as Hdefined.
    { intros [_ Hall]%definedProps_from.
      apply Exists_exists in Hsome as (kv & Hin & Hkv).
      rewrite Forall_forall in Hall. by apply Hkv, Hall. }
    split; [|done]. by destruct (definedProps props).
  - intros Hnone. unfold argumentOrContent.
    destruct (properties ext) as [props|].
    + assert (definedProps props = []) as ->.
      { apply definedProps_from. split; [done|]. by apply Hnone. }
      by destruct (argument ext), (content ext).
    + by destruct (argument ext), (content ext).
Qed.

Lemma decodeObject_precedence_witness :
  decodeObject exampleLib
    (extension "object" None (Some "a: 1")
       (Some [("id", None); ("key", Some "value")]))
  = Some (Object [("key", Text "value")])
  /\ decodeObject exampleLib
       (extension "object" None None (Some [("id", None)]))
     = json5Parse exampleLib "{undefined}".
Proof.
  split.
  - apply (proj1 (decodeObject_precedence exampleLib
                    (extension "object" None (Some "a: 1")
                       (Some [("id", None); ("key", Some "value")])))
             [("id", None); ("key", Some "value")] eq_refl).
    apply Exists_cons_tl, Exists_cons_hd. discriminate.
  - apply (proj2 (decodeObject_precedence exampleLib
                    (extension "object" None None (Some [("id", None)])))).
    intros props [= <-]. by repeat constructor.
Defined.

End MdFacts.

(** ** The JATS encoder *)

Module JatsFacts.

Import JS Jats.

Implicit Types (state : EncodeState) (h : Heap) (rid : string).

(** *** Induction over nodes *)

Lemma Node_nested_ind (P : Node -> Prop) :
  (forall value, P (Text value)) ->
  (forall content, Forall P content -> P (Heading content)) ->
  (forall content, Forall P content -> P (Paragraph content)) ->
  (forall order items, Forall (Forall P) items -> P (List order items)) ->
  (forall id title rows,
     Forall (Forall (Forall P)) rows -> P (Table id title rows)) ->
  (forall target content, Forall P content -> P (Link target content)) ->
  (forall content, Forall P content -> P (Emphasis content)) ->
  (forall content, Forall P content -> P (Strong content)) ->
  (forall content, Forall P content -> P (Superscript content)) ->
  (forall content, Forall P content -> P (Subscript content)) ->
  (forall language source, P (MathFragment language source)) ->
  (forall language source, P (MathBlock language source)) ->
  (forall label caption content,
     Forall P (default [] caption) -> Forall P (default [] content) ->
     P (Figure label caption content)) ->
  (forall media, P (ImageObject media)) ->
  (forall media, P (MediaObject media)) ->
  (forall target, P (Cite target)) ->
  (forall parts usage, Forall P parts -> P (Collection parts usage)) ->
  (forall type, P (Unhandled type)) ->
  forall node, P node.
Proof.
  intros HText HHeading HParagraph HList HTable HLink HEmphasis HStrong
    HSuperscript HSubscript HMathFragment HMathBlock HFigure HImage HMedia
    HCite HCollection HUnhandled.
  fix IH 1. intros node.
  pose (nodes := fun l : list Node =>
          list_ind (Forall P) (Forall_nil_2 P)
            (fun first rest => Forall_cons_2 P first rest (IH first)) l).
  pose (items := fun l : list (list Node) =>
          list_ind (Forall (Forall P)) (Forall_nil_2 _)
            (fun first rest => Forall_cons_2 _ first rest (nodes first)) l).
  pose (rows := fun l : list (list (list Node)) =>
          list_ind (Forall (Forall (Forall P))) (Forall_nil_2 _)
            (fun first rest => Forall_cons_2 _ first rest (items first)) l).
  destruct node as [| | | | | | | | | | | |? caption content| | | | |];
    [apply HText | apply HHeading | apply HParagraph | apply HList
    | apply HTable | apply HLink | apply HEmphasis | apply HStrong
    | apply HSuperscript | apply HSubscript | apply HMathFragment
    | apply HMathBlock
    | apply HFigure;
      [ destruct caption; [apply nodes | constructor]
      | destruct content; [apply nodes | constructor] ]
    | apply HImage | apply HMedia
    | apply HCite | apply HCollection | apply HUnhandled];
    try apply nodes; try apply items; try apply rows.
Qed.

(** *** Lookups in the objects of the state *)

Lemma property_inherited {A : Type} (object : gmap string A) (key : string) :
  inheritedName key = true -> property object key = Inherited.
Proof. intros H. unfold property. by rewrite H. Qed.

Lemma property_own_name {A : Type} (object : gmap string A) (key : string) :
  inheritedName key = false ->
  property object key
  = match object !! key with
    | Some value => Own value
    | None => Undefined
    end.
Proof. intros H. unfold property. by rewrite H. Qed.

Lemma property_Own {A : Type} (object : gmap string A) (key : string)
  (value : A) :
  property object key = Own value ->
  inheritedName key = false /\ object !! key = Some value.
Proof.
  unfold property. destruct (inheritedName key); [done|].
  destruct (object !! key); [|done]. by intros [= ->].
Qed.

Lemma property_Undefined {A : Type} (object : gmap string A) (key : string) :
  property object key = Undefined ->
  inheritedName key = false /\ object !! key = None.
Proof.
  unfold property. destruct (inheritedName key); [done|].
  by destruct (object !! key).
Qed.

Lemma citationsOf_inherited state rid :
  inheritedName rid = true -> citationsOf state rid = [].
Proof. intros H. unfold citationsOf. by rewrite property_inherited. Qed.

Lemma citationsOf_own_name state rid :
  inheritedName rid = false ->
  citationsOf state rid = default [] (citations state !! rid).
Proof.
  intros H. unfold citationsOf. rewrite property_own_name by done.
  by destruct (citations state !! rid).
Qed.

Lemma citationsOf_elem state rid (address : nat) :
  address ∈ citationsOf state rid -> inheritedName rid = false.
Proof.
  intros Hin. destruct (inheritedName rid) eqn:E; [|done].
  rewrite citationsOf_inherited in Hin by done. by apply elem_of_nil in Hin.
Qed.

Lemma citationTextOf_own_name state rid :
  inheritedName rid = false ->
  citationTextOf state rid = references state !! rid.
Proof.
  intros H. unfold citationTextOf. rewrite property_own_name by done.
  by destruct (references state !! rid).
Qed.

Lemma ownNames_app (a b : list string) :
  ownNames (a ++ b) = ownNames a && ownNames b.
Proof. apply forallb_app. Qed.

Lemma ownNames_concat {A : Type} (ids : A -> list string) (items : list A) :
  ownNames (concat (map ids items))
  = forallb (fun item => ownNames (ids item)) items.
Proof.
  induction items as [|item rest IH]; [done|].
  simpl. by rewrite ownNames_app, IH.
Qed.

(** *** Calls that return *)

Lemma whenReturned_fmap {A B : Type} (f : A -> B) (call : option A)
  (P : A -> Prop) (Q : B -> Prop) :
  (forall r, P r -> Q (f r)) ->
  whenReturned call P -> whenReturned (f <$> call) Q.
Proof.
  intros Hf Hcall r Hr. destruct call as [a|]; [|done].
  injection Hr as <-. by apply Hf, Hcall.
Qed.

Lemma whenReturned_Some {A : Type} (a : A) (P : A -> Prop) :
  P a -> whenReturned (Some a) P.
Proof. by intros H r [= <-]. Qed.

Lemma returnsWhen_split {A : Type} (ids : list string) (call : option A)
  (P : A -> Prop) :
  (is_Some call <-> ownNames ids = true) ->
  whenReturned call P ->
  returnsWhen ids call P.
Proof.
  intros Hiff Hp. unfold returnsWhen. destruct call as [r|].
  - split; [by apply Hiff | by apply Hp].
  - destruct (ownNames ids); [|done].
    by destruct (proj2 Hiff eq_refl).
Qed.

(** *** Calls that only extend the citations and the heap *)

Lemma Extends_refl state h (elements : list Xml) :
  Extends [] state h elements state h.
Proof.
  split; [done|]. split; [exists []; by rewrite app_nil_r|].
  intros rid. exists []. by rewrite app_nil_r.
Qed.

Lemma xrefsOf_app (a b : list Xml) : xrefsOf (a ++ b) = xrefsOf a ++ xrefsOf b.
Proof. unfold xrefsOf. by rewrite map_app, concat_app. Qed.

Lemma xrefsOf_element (elementName : string) (attributes : list (string * string))
  (elements : list Xml) :
  xrefsOf [XElement elementName attributes elements] = xrefsOf elements.
Proof. unfold xrefsOf. simpl. by rewrite app_nil_r. Qed.

Lemma Extends_trans (c1 c2 : list string) state h (e1 : list Xml) state1 h1
  (e2 : list Xml) state2 h2 :
  Extends c1 state h e1 state1 h1 ->
  Extends c2 state1 h1 e2 state2 h2 ->
  Extends (c1 ++ c2) state h (e1 ++ e2) state2 h2.
Proof.
  intros (Hr1 & (n1 & -> & Hn1) & Hc1) (Hr2 & (n2 & -> & Hn2) & Hc2).
  split; [congruence|]. split.
  { exists (n1 ++ n2). rewrite app_assoc. split; [done|]. by apply Forall_app. }
  intros rid.
  destruct (Hc1 rid) as (a1 & E1 & L1 & F1).
  destruct (Hc2 rid) as (a2 & E2 & L2 & F2).
  exists (a1 ++ a2). split; [by rewrite E2, E1, app_assoc|].
  split; [rewrite filter_app, !length_app; lia|].
  apply Forall_app. split.
  - eapply Forall_impl; [exact F1|].
    intros address (Hle & (xref & Hx & Hrid) & Hin).
    split; [done|]. split.
    + exists xref. split; [|done].
      rewrite lookup_app_l; [done|]. by eapply lookup_lt_Some.
    + rewrite xrefsOf_app. apply elem_of_app. by left.
  - eapply Forall_impl; [exact F2|].
    intros address (Hle & Hx & Hin).
    rewrite length_app in Hle. split; [lia|]. split; [done|].
    rewrite xrefsOf_app. apply elem_of_app. by right.
Qed.

Lemma Extends_elements (cites : list string) state h (e e' : list Xml)
  state' h' :
  (forall address, address ∈ xrefsOf e -> address ∈ xrefsOf e') ->
  Extends cites state h e state' h' ->
  Extends cites state h e' state' h'.
Proof.
  intros Hsub (Hr & Hh & Hc). split; [done|]. split; [done|].
  intros rid. destruct (Hc rid) as (added & E & L & F).
  exists added. split; [done|]. split; [done|].
  eapply Forall_impl; [exact F|]. naive_solver.
Qed.

Lemma ExtendsBy_wrapped (cites : list string) state h (elementName : string)
  (attributes : list (string * string)) (r : Result (list Xml)) :
  ExtendsBy cites state h r ->
  ExtendsBy cites state h (wrapped elementName attributes r).
Proof.
  destruct r as [[els state'] h']. unfold ExtendsBy. simpl.
  apply Extends_elements. intros address. by rewrite xrefsOf_element.
Qed.

Lemma extends_wrapped (cites : list string) state h (elementName : string)
  (attributes : list (string * string)) (call : option (Result (list Xml))) :
  whenReturned call (ExtendsBy cites state h) ->
  whenReturned (wrapped elementName attributes <$> call)
    (ExtendsBy cites state h).
Proof. apply whenReturned_fmap. intros r. apply ExtendsBy_wrapped. Qed.

(** A call on a state of its own leaves the state of the caller as it is;
    only the heap grows. *)
Lemma Extends_fresh (cites : list string) state h (e e' : list Xml)
  state1 h1 :
  Extends cites initialEncodeState h e state1 h1 ->
  Extends [] state h e' state h1.
Proof.
  intros (_ & Hh & _). split; [done|]. split; [done|].
  intros rid. exists []. by rewrite app_nil_r.
Qed.

Lemma Extends_same_maps (cites : list string) state state0 h (e : list Xml)
  state' h' :
  citations state0 = citations state ->
  references state0 = references state ->
  Extends cites state0 h e state' h' ->
  Extends cites state h e state' h'.
Proof.
  intros Hc Hr (Hr' & Hh & Hcs). split; [congruence|]. split; [done|].
  intros rid. destruct (Hcs rid) as (added & E & L & F).
  exists added. split; [|done]. unfold citationsOf in *. by rewrite <-Hc.
Qed.

Lemma populateBibrContent_no_reference rid state h :
  property (references state) rid = Undefined ->
  populateBibrContent rid state h = Some h.
Proof.
  intros H. unfold populateBibrContent. rewrite H.
  by destruct (property (citations state) rid).
Qed.

Lemma encodeCite_returns (target : string) state h :
  is_Some (encodeCite target state h)
  <-> inheritedName (citeRid target) = false.
Proof.
  unfold encodeCite. set (rid := citeRid target).
  destruct (inheritedName rid) eqn:Hname.
  - rewrite property_inherited by done. simpl. split; [|done].
    by intros [r Hr].
  - split; [done|]. intros _.
    rewrite (property_own_name (citations state)) by done.
    assert (forall xrefs,
              is_Some (populateBibrContent rid
                {| tables := tables state;
                   citations := <[rid := xrefs ++ [length h]]> (citations state);
                   references := references state |}
                (h ++ [{| xrefRid := rid; xrefElements := Some [] |}])))
      as Hpopulate.
    { intros xrefs. unfold populateBibrContent. cbn [citations references].
      rewrite !property_own_name by done. rewrite lookup_insert_eq.
      by destruct (references state !! rid). }
    destruct (citations state !! rid) as [xrefs|]; simpl.
    + destruct (Hpopulate xrefs) as [h2 Hh2]. by rewrite Hh2.
    + destruct (Hpopulate []) as [h2 Hh2]. simpl in Hh2. by rewrite Hh2.
Qed.

Lemma encodeCite_extends (target : string) state h :
  references state = ∅ ->
  whenReturned (encodeCite target state h)
    (ExtendsBy [citeRid target] state h).
Proof.
  intros Hrefs r Hr.
  assert (inheritedName (citeRid target) = false) as Hname
    by (apply (encodeCite_returns target state h); by exists r).
  unfold encodeCite in Hr.
  rewrite (property_own_name (citations state)) in Hr by done.
  set (xrefs := default [] (citations state !! citeRid target)).
  assert (r = ([XRef (length h)],
               {| tables := tables state;
                  citations := <[citeRid target := xrefs ++ [length h]]>
                                 (citations state);
                  references := references state |},
               h ++ [{| xrefRid := citeRid target; xrefElements := Some [] |}]))
    as ->.
  { subst xrefs.
    destruct (citations state !! citeRid target) as [found|]; simpl in Hr;
      rewrite populateBibrContent_no_reference in Hr
        by (cbn [references]; rewrite property_own_name by done;
            by rewrite Hrefs, lookup_empty);
      simpl in Hr; by injection Hr as <-. }
  unfold ExtendsBy. cbn [fst snd].
  split; [done|]. split.
  { eexists. split; [done|]. by repeat constructor. }
  intros rid.
  destruct (inheritedName rid) eqn:Hrid.
  { exists []. rewrite !citationsOf_inherited by done.
    split; [done|]. split; [|done].
    rewrite filter_cons_False; [done|]. intros Heq. congruence. }
  rewrite !citationsOf_own_name by done. cbn [citations].
  destruct (decide (citeRid target = rid)) as [<-|Hne].
  - exists [length h]. rewrite lookup_insert_eq. simpl.
    split; [done|]. split.
    + rewrite filter_cons_True by done. done.
    + apply Forall_singleton. split; [done|]. split.
      * exists {| xrefRid := citeRid target; xrefElements := Some [] |}.
        split; [|done]. by rewrite lookup_app_r, Nat.sub_diag.
      * unfold xrefsOf. simpl. set_solver.
  - exists []. rewrite lookup_insert_ne by done. rewrite app_nil_r.
    split; [done|]. split; [|done].
    by rewrite filter_cons_False by done.
Qed.

Lemma bind_returns {A B : Type} (call : option A) (f : A -> option B) :
  (forall a, is_Some (f a)) -> is_Some (call ≫= f) <-> is_Some call.
Proof.
  intros Hf. destruct call as [a|]; simpl; [|done].
  split; [done|]. intros _. apply Hf.
Qed.

Lemma sequence_cons_Some {A : Type}
  (f : A -> EncodeState -> Heap -> option (Result (list Xml)))
  (first : A) (rest : list A) state h (r : Result (list Xml)) :
  sequence f (first :: rest) state h = Some r ->
  exists a state1 h1 b state2 h2,
    f first state h = Some (a, state1, h1)
    /\ sequence f rest state1 h1 = Some (b, state2, h2)
    /\ r = (a ++ b, state2, h2).
Proof.
  cbn [sequence]. intros Hr.
  destruct (f first state h) as [[[a state1] h1]|] eqn:Ha; [|done].
  cbn [mbind option_bind] in Hr.
  destruct (sequence f rest state1 h1) as [[[b state2] h2]|] eqn:Hb; [|done].
  cbn [mbind option_bind] in Hr. injection Hr as <-.
  by eexists _, _, _, _, _, _.
Qed.

Lemma sequence_returns {A : Type}
  (f : A -> EncodeState -> Heap -> option (Result (list Xml)))
  (ok : A -> bool) (items : list A) :
  Forall (fun item => forall state h,
            is_Some (f item state h) <-> ok item = true) items ->
  forall state h,
    is_Some (sequence f items state h) <-> forallb ok items = true.
Proof.
  induction 1 as [|item rest Hitem _ IH]; intros state h.
  - by split.
  - cbn [sequence forallb]. specialize (Hitem state h).
    destruct (f item state h) as [[[a state1] h1]|].
    + rewrite (proj1 Hitem) by done. cbn [mbind option_bind andb].
      rewrite bind_returns by (by intros [[b state2] h2]). apply IH.
    + cbn [mbind option_bind].
      destruct (ok item); [|split; [by intros [? ?] | done]].
      by destruct (proj2 Hitem eq_refl).
Qed.

Lemma sequence_extends {A : Type}
  (f : A -> EncodeState -> Heap -> option (Result (list Xml)))
  (cited : A -> list string) (items : list A) :
  Forall (fun item => forall state h,
            references state = ∅ ->
            whenReturned (f item state h) (ExtendsBy (cited item) state h))
    items ->
  forall state h,
    references state = ∅ ->
    whenReturned (sequence f items state h)
      (ExtendsBy (concat (map cited items)) state h).
Proof.
  induction 1 as [|item rest Hitem _ IH]; intros state h Hrefs r Hr.
  - injection Hr as <-. apply Extends_refl.
  - apply sequence_cons_Some in Hr
      as (a & state1 & h1 & b & state2 & h2 & Ha & Hb & ->).
    pose proof (Hitem state h Hrefs _ Ha) as H1.
    unfold ExtendsBy in H1. cbn [fst snd] in H1.
    assert (references state1 = ∅) as Hrefs1
      by (destruct H1 as (-> & _); done).
    pose proof (IH state1 h1 Hrefs1 _ Hb) as H2.
    by apply (Extends_trans _ _ _ _ _ state1 h1).
Qed.

Lemma encodeFigureWith_returns
  (encodeSome : list Node -> EncodeState -> Heap -> option (Result (list Xml)))
  (ok : list Node -> bool)
  (label : option string) (caption content : option (list Node)) :
  (forall nodes state h,
     caption = Some nodes \/ content = Some nodes ->
     is_Some (encodeSome nodes state h) <-> ok nodes = true) ->
  forall state h,
    is_Some (encodeFigureWith encodeSome label caption content state h)
    <-> match content with Some nodes => ok nodes | None => true end
        && match caption with Some nodes => ok nodes | None => true end
        = true.
Proof.
  intros Hnodes state h. unfold encodeFigureWith.
  destruct content as [nodes|].
  - pose proof (Hnodes nodes initialEncodeState h (or_intror eq_refl)) as Hc.
    destruct (encodeSome nodes initialEncodeState h) as [[[children s0] h1]|].
    + rewrite (proj1 Hc) by done. cbn [mbind option_bind andb].
      rewrite bind_returns by (by intros [[els state2] h2]).
      destruct caption as [captionNodes|]; [|by split].
      rewrite fmap_is_Some. apply Hnodes. by left.
    + cbn [mbind option_bind].
      destruct (ok nodes); [|split; [by intros [? ?] | done]].
      by destruct (proj2 Hc eq_refl).
  - cbn [mbind option_bind andb].
    rewrite bind_returns by (by intros [[els state2] h2]).
    destruct caption as [captionNodes|]; [|by split].
    rewrite fmap_is_Some. apply Hnodes. by left.
Qed.

Lemma encodeFigureWith_extends
  (encodeSome : list Node -> EncodeState -> Heap -> option (Result (list Xml)))
  (label : option string) (caption content : option (list Node)) :
  (forall nodes state h,
     references state = ∅ ->
     caption = Some nodes \/ content = Some nodes ->
     whenReturned (encodeSome nodes state h)
       (ExtendsBy (concat (map citedIn nodes)) state h)) ->
  forall state h,
    references state = ∅ ->
    whenReturned (encodeFigureWith encodeSome label caption content state h)
      (ExtendsBy
         (match caption with
          | Some nodes => concat (map citedIn nodes)
          | None => []
          end)
         state h).
Proof.
  intros Hnodes state h Hrefs r Hr. unfold encodeFigureWith in Hr.
  apply bind_Some in Hr as ([[children state0] h1] & Hchildren & Hr).
  assert (Extends [] state h [] state h1) as Hcontent.
  { destruct content as [nodes|].
    - pose proof (Hnodes nodes initialEncodeState h eq_refl (or_intror eq_refl)
                    _ Hchildren) as Hc.
      by eapply Extends_fresh.
    - injection Hchildren as <- <- <-. apply Extends_refl. }
  set (cites := match caption with
                | Some nodes => concat (map citedIn nodes)
                | None => []
                end).
  apply bind_Some in Hr as ([[captionElements state2] h2] & Hcaptioned & Hr).
  injection Hr as <-.
  assert (Extends cites state h1 captionElements state2 h2) as Hcaption.
  { subst cites. destruct caption as [nodes|].
    - apply (extends_wrapped (concat (map citedIn nodes)) state h1 "caption" []
               (encodeSome nodes state h1)
               (Hnodes nodes state h1 Hrefs (or_introl eq_refl))
               _ Hcaptioned).
    - injection Hcaptioned as <- <- <-. apply Extends_refl. }
  pose proof (Extends_trans _ _ _ _ _ _ _ _ _ _ Hcontent Hcaption) as Hboth.
  unfold ExtendsBy. cbn [fst snd app] in *.
  eapply Extends_elements; [|exact Hboth].
  intros address Hin. rewrite xrefsOf_element, !xrefsOf_app.
  apply elem_of_app. right. apply elem_of_app. by left.
Qed.

(** Encoding a node raises exactly when one of the nodes it encodes cites
    the name of a property of [Object.prototype]. *)
Lemma encodeNode_returns (lib : Lib) (node : Node) :
  forall state h,
    is_Some (encodeNode lib node state h)
    <-> ownNames (allCitedIn node) = true.
Proof.
  induction node using Node_nested_ind; intros state h;
    cbn [encodeNode allCitedIn];
    try (by split);
    try (rewrite fmap_is_Some, ownNames_concat;
         by apply sequence_returns).
  - (* List *)
    rewrite fmap_is_Some, ownNames_concat.
    apply sequence_returns.
    eapply Forall_impl; [eassumption|].
    intros item Hitem state' h'.
    rewrite fmap_is_Some, ownNames_concat. by apply sequence_returns.
  - (* Table *)
    rewrite bind_returns by (by intros [[encoded state1] h1]).
    rewrite ownNames_concat. apply sequence_returns.
    eapply Forall_impl; [eassumption|].
    intros row Hrow state' h'.
    rewrite fmap_is_Some, ownNames_concat. apply sequence_returns.
    eapply Forall_impl; [exact Hrow|].
    intros cell Hcell state'' h''.
    rewrite fmap_is_Some, ownNames_concat. by apply sequence_returns.
  - (* Figure *)
    rewrite ownNames_app.
    rewrite (encodeFigureWith_returns _
               (fun nodes => ownNames (concat (map allCitedIn nodes)))).
    + by destruct content, caption.
    + intros nodes state' h' [-> | ->];
        rewrite ownNames_concat; by apply sequence_returns.
  - (* Cite *)
    rewrite encodeCite_returns. unfold ownNames. simpl.
    by destruct (inheritedName (citeRid target)).
  - (* Collection *)
    case_bool_decide; [|by split].
    rewrite fmap_is_Some, ownNames_concat. apply sequence_returns.
    eapply Forall_impl; [eassumption|].
    intros part Hpart state' h'.
    destruct part; try (by split).
    exact (Hpart state' h').
Qed.

Lemma encodeNodes_returns (lib : Lib) (nodes : list Node) state h :
  is_Some (encodeNodes lib nodes state h)
  <-> ownNames (allCitedInNodes nodes) = true.
Proof.
  unfold allCitedInNodes. rewrite ownNames_concat.
  apply sequence_returns, Forall_forall. intros node _.
  apply encodeNode_returns.
Qed.

(** Encoding a node, from a state without recorded reference, extends the
    citations by one new element for each of the nodes it cites. *)
Lemma encodeNode_extends (lib : Lib) (node : Node) :
  forall state h,
    references state = ∅ ->
    whenReturned (encodeNode lib node state h)
      (ExtendsBy (citedIn node) state h).
Proof.
  induction node using Node_nested_ind; intros state h Hrefs;
    cbn [encodeNode citedIn];
    try (apply whenReturned_Some, Extends_refl);
    try (apply extends_wrapped, sequence_extends; done).
  - (* List *)
    apply extends_wrapped.
    apply (sequence_extends _ (fun item => concat (map citedIn item)));
      [|done].
    eapply Forall_impl; [eassumption|].
    intros item Hitem state' h' Hrefs'.
    by apply extends_wrapped, sequence_extends.
  - (* Table *)
    intros r Hr.
    apply bind_Some in Hr as ([[encoded state1] h1] & Hencoded & Hr).
    injection Hr as <-.
    match type of Hencoded with
    | sequence ?f rows ?counted h = _ =>
        pose proof (sequence_extends f
                      (fun row => concat (map (fun cell =>
                                                 concat (map citedIn cell)) row))
                      rows) as Hrows
    end.
    match type of Hrows with
    | ?premise -> _ => assert premise as Hpremise
    end.
    { eapply Forall_impl; [eassumption|].
      intros row Hrow state' h' Hrefs'.
      apply extends_wrapped.
      apply (sequence_extends _ (fun cell => concat (map citedIn cell)));
        [|done].
      eapply Forall_impl; [exact Hrow|].
      intros cell Hcell state'' h'' Hrefs''.
      by apply extends_wrapped, sequence_extends. }
    specialize (Hrows Hpremise
                  {| tables := S (tables state);
                     citations := citations state;
                     references := references state |} h Hrefs _ Hencoded).
    unfold ExtendsBy in *. cbn [fst snd] in *.
    apply (Extends_same_maps _ state
             {| tables := S (tables state);
                citations := citations state;
                references := references state |}); [done | done |].
    eapply Extends_elements; [|exact Hrows].
    intros address Hin. rewrite xrefsOf_element.
    unfold xrefsOf. simpl. rewrite !app_nil_r.
    apply elem_of_app. by right.
  - (* Figure *)
    apply encodeFigureWith_extends; [|done].
    intros nodes state' h' Hrefs' [-> | ->];
      by apply sequence_extends.
  - (* Cite *)
    by apply encodeCite_extends.
  - (* Collection *)
    case_bool_decide; [|apply whenReturned_Some, Extends_refl].
    apply extends_wrapped.
    apply (sequence_extends _
             (fun part => match part with
                          | Figure _ caption _ =>
                              match caption with
                              | Some nodes => concat (map citedIn nodes)
                              | None => []
                              end
                          | _ => []
                          end)); [|done].
    eapply Forall_impl; [eassumption|].
    intros part Hpart state' h' Hrefs'.
    destruct part; try apply whenReturned_Some, Extends_refl.
    exact (Hpart state' h' Hrefs').
Qed.

Lemma encodeNodes_extends (lib : Lib) (nodes : list Node) state h :
  references state = ∅ ->
  whenReturned (encodeNodes lib nodes state h)
    (ExtendsBy (citedInNodes nodes) state h).
Proof.
  apply sequence_extends, Forall_forall. intros node _.
  apply encodeNode_extends.
Qed.

(** *** The body *)

Lemma concat_pushToLast (sections : list (list Xml)) (el : list Xml) :
  sections <> [] -> concat (pushToLast sections el) = concat sections ++ el.
Proof.
  induction sections as [|section rest IH]; [done|]. intros _.
  destruct rest as [|next rest].
  - simpl. by rewrite !app_nil_r.
  - change (pushToLast (section :: next :: rest) el)
      with (section :: pushToLast (next :: rest) el).
    change (concat (section :: pushToLast (next :: rest) el))
      with (section ++ concat (pushToLast (next :: rest) el)).
    rewrite IH by done. simpl. by rewrite app_assoc.
Qed.

(** The loop of the body raises when [encodeNodes] does on the same
    nodes; otherwise its sections hold, in order, the elements that
    [encodeNodes] gives for the nodes, and the state and the heap end as
    they do after [encodeNodes]. *)
Lemma encodeBodyLoop_nodes (lib : Lib) (nodes : list Node)
  (sections : list (list Xml)) state h :
  match encodeBodyLoop lib nodes sections state h,
        encodeNodes lib nodes state h with
  | Some r, Some e =>
      concat r.1.1 = concat sections ++ e.1.1 /\ r.1.2 = e.1.2 /\ r.2 = e.2
  | None, None => True
  | _, _ => False
  end.
Proof.
  revert sections state h.
  induction nodes as [|node rest IH]; intros sections state h.
  - simpl. by rewrite app_nil_r.
  - unfold encodeNodes in *. cbn [encodeBodyLoop sequence].
    destruct (encodeNode lib node state h) as [[[el state1] h1]|]; [|done].
    cbn [mbind option_bind].
    set (opened := if isHeading node then sections ++ [[]] else sections).
    set (ensured := match opened with [] => [[]] | _ => opened end).
    specialize (IH (pushToLast ensured el) state1 h1).
    destruct (encodeBodyLoop lib rest (pushToLast ensured el) state1 h1)
      as [[[looped state2] h2]|],
      (sequence (encodeNode lib) rest state1 h1) as [[[b state2'] h2']|];
      try done.
    cbn [mbind option_bind fst snd] in *.
    destruct IH as (Hconcat & Hstate & Hheap).
    split; [|done]. rewrite Hconcat, concat_pushToLast.
    + rewrite <-app_assoc. f_equal. subst ensured opened.
      destruct (isHeading node), sections; simpl;
        rewrite ?concat_app; simpl; by rewrite ?app_nil_r.
    + subst ensured. by destruct opened.
Qed.

Lemma xrefsOf_sections (sections : list (list Xml)) :
  xrefsOf (map (XElement "sec" []) sections) = xrefsOf (concat sections).
Proof.
  induction sections as [|section rest IH]; [done|].
  simpl. rewrite xrefsOf_app, <-IH. unfold xrefsOf. simpl. done.
Qed.

Lemma encodeBody_returns (lib : Lib) (nodes : list Node) state h :
  is_Some (encodeBody lib nodes state h)
  <-> ownNames (allCitedInNodes nodes) = true.
Proof.
  rewrite <-(encodeNodes_returns lib nodes state h). unfold encodeBody.
  rewrite bind_returns by (by intros [[sections state1] h1]).
  pose proof (encodeBodyLoop_nodes lib nodes [] state h) as Hloop.
  destruct (encodeBodyLoop lib nodes [] state h),
    (encodeNodes lib nodes state h); done.
Qed.

Lemma encodeBody_extends (lib : Lib) (nodes : list Node) state h :
  references state = ∅ ->
  whenReturned (encodeBody lib nodes state h)
    (fun r => Extends (citedInNodes nodes) state h [r.1.1] r.1.2 r.2).
Proof.
  intros Hrefs r Hr. unfold encodeBody in Hr.
  apply bind_Some in Hr as ([[sections state1] h1] & Hlooped & Hr).
  injection Hr as <-. cbn [fst snd].
  pose proof (encodeBodyLoop_nodes lib nodes [] state h) as Hloop.
  rewrite Hlooped in Hloop.
  destruct (encodeNodes lib nodes state h) as [[[els state1'] h1']|] eqn:Hels;
    [|done].
  pose proof (encodeNodes_extends lib nodes state h Hrefs _ Hels) as Hnodes.
  unfold ExtendsBy in Hnodes.
  cbn [fst snd] in *. destruct Hloop as (Hconcat & -> & ->).
  eapply Extends_elements; [|exact Hnodes].
  intros address Hin.
  by rewrite xrefsOf_element, xrefsOf_sections, Hconcat.
Qed.

(** *** The citation elements while the references are encoded *)

Lemma citationsOf_none state rid :
  citations state = ∅ -> citationsOf state rid = [].
Proof.
  intros H. unfold citationsOf, property. rewrite H, lookup_empty.
  by destruct (inheritedName rid).
Qed.

Lemma citationTextOf_none state rid :
  references state = ∅ -> citationTextOf state rid = None.
Proof.
  intros H. unfold citationTextOf, property. rewrite H, lookup_empty.
  by destruct (inheritedName rid).
Qed.

Lemma citationTextOf_same state state' rid :
  references state' = references state ->
  citationTextOf state' rid = citationTextOf state rid.
Proof. intros H. unfold citationTextOf. by rewrite H. Qed.

Lemma citationsOf_same state state' rid :
  citations state' = citations state ->
  citationsOf state' rid = citationsOf state rid.
Proof. intros H. unfold citationsOf. by rewrite H. Qed.

Lemma Populated_after_body (cites : list string) state h (e : list Xml)
  state' h' :
  references state = ∅ ->
  citations state = ∅ ->
  Extends cites state h e state' h' ->
  Populated state' h'.
Proof.
  intros Hrefs Hcites (Hr & (new & -> & Hnew) & Hc) rid address Hin.
  destruct (Hc rid) as (added & E & _ & F).
  rewrite (citationsOf_none state) in E by done. simpl in E.
  rewrite E in Hin.
  rewrite Forall_forall in F.
  destruct (F address Hin) as (Hle & (xref & Hx & Hrid) & _).
  exists xref. split; [done|]. split; [done|].
  rewrite (citationTextOf_same state) by done.
  rewrite citationTextOf_none by done.
  rewrite lookup_app_r in Hx by done.
  rewrite Forall_forall in Hnew. apply Hnew.
  by eapply list_elem_of_lookup_2.
Qed.

Lemma Populated_grow state h (new : list XrefObject) :
  Populated state h -> Populated state (h ++ new).
Proof.
  intros Hp rid address Hin. destruct (Hp rid address Hin) as (xref & Hx & H).
  exists xref. split; [|done].
  rewrite lookup_app_l; [done|]. by eapply lookup_lt_Some.
Qed.

Lemma encodePhrase_returns (lib : Lib) (phrase : Phrase) h :
  is_Some (encodePhrase lib phrase h)
  <-> ownNames (phraseCites (Some phrase)) = true.
Proof.
  destruct phrase as [value|nodes]; cbn [encodePhrase phraseCites];
    [by split|].
  rewrite bind_returns by (by intros [[els state1] h1]).
  apply encodeNodes_returns.
Qed.

Lemma encodePhrase_grows (lib : Lib) (phrase : Phrase) h :
  whenReturned (encodePhrase lib phrase h)
    (fun r => exists new, r.2 = h ++ new).
Proof.
  intros r Hr. destruct phrase as [value|nodes]; cbn [encodePhrase] in Hr.
  - injection Hr as <-. exists []. by rewrite app_nil_r.
  - apply bind_Some in Hr as ([[els state1] h1] & Hels & Hr).
    injection Hr as <-.
    pose proof (encodeNodes_extends lib nodes initialEncodeState h eq_refl
                  _ Hels) as (_ & (new & Hnew & _) & _).
    by exists new.
Qed.

Lemma optionalPhrase_returns (lib : Lib) (elementName : string)
  (phrase : option Phrase) h :
  is_Some (optionalPhrase lib elementName phrase h)
  <-> ownNames (phraseCites phrase) = true.
Proof.
  destruct phrase as [p|]; cbn [optionalPhrase]; [|by split].
  rewrite bind_returns by (by intros [els h1]).
  apply encodePhrase_returns.
Qed.

Lemma optionalPhrase_grows (lib : Lib) (elementName : string)
  (phrase : option Phrase) h :
  whenReturned (optionalPhrase lib elementName phrase h)
    (fun r => exists new, r.2 = h ++ new).
Proof.
  intros r Hr. destruct phrase as [p|]; cbn [optionalPhrase] in Hr.
  - apply bind_Some in Hr as ([els h1] & Hels & Hr). injection Hr as <-.
    exact (encodePhrase_grows lib p h _ Hels).
  - injection Hr as <-. exists []. by rewrite app_nil_r.
Qed.

Lemma encodePartOf_returns (lib : Lib) (part : option PartOf) h :
  is_Some (encodePartOf lib part h) <-> ownNames (partOfCites part) = true.
Proof.
  destruct part as [[issue|volume|]|]; cbn [encodePartOf partOfCites];
    try (by split).
  - rewrite bind_returns by (by intros [els h1]).
    destruct (issueIsPartOf issue) as [v|]; [|by split].
    unfold encodeVolumeOfIssue.
    rewrite bind_returns by (by intros [els h1]).
    apply optionalPhrase_returns.
  - rewrite bind_returns by (by intros [els h1]).
    apply optionalPhrase_returns.
Qed.

Lemma encodePartOf_grows (lib : Lib) (part : option PartOf) h :
  whenReturned (encodePartOf lib part h)
    (fun r => exists new, r.2 = h ++ new).
Proof.
  assert (exists new : list XrefObject, h = h ++ new) as Hsame
    by (exists []; by rewrite app_nil_r).
  intros r Hr.
  destruct part as [[issue|volume|]|]; cbn [encodePartOf] in Hr;
    try (by injection Hr as <-).
  - apply bind_Some in Hr as ([volume h1] & Hvolume & Hr). injection Hr as <-.
    destruct (issueIsPartOf issue) as [v|]; [|by injection Hvolume as <- <-].
    unfold encodeVolumeOfIssue in Hvolume.
    apply bind_Some in Hvolume as ([source h0] & Hsource & Hvolume).
    injection Hvolume as <- <-.
    exact (optionalPhrase_grows lib "source" (volumeTitle v) h _ Hsource).
  - apply bind_Some in Hr as ([source h1] & Hsource & Hr). injection Hr as <-.
    exact (optionalPhrase_grows lib "source" (volumeTitle volume) h _ Hsource).
Qed.

Lemma populateXref_twice (citeText : string) (xref : XrefObject) :
  populateXref citeText (populateXref citeText xref)
  = populateXref citeText xref.
Proof.
  unfold populateXref. by destruct (default [] (xrefElements xref)).
Qed.

Lemma populateAt_lookup (citeText : string) h (target address : nat) :
  populateAt citeText h target !! address
  = if decide (address = target)
    then populateXref citeText <$> h !! address
    else h !! address.
Proof.
  unfold populateAt. case_decide as Heq.
  - subst. destruct (h !! target) as [xref|] eqn:E; simpl.
    + rewrite list_lookup_insert_eq; [done|]. by eapply lookup_lt_Some.
    + done.
  - destruct (h !! target) as [xref|]; [|done].
    by rewrite list_lookup_insert_ne.
Qed.

(** Filling the elements at [targets] changes exactly those. *)
Lemma fold_populateAt_lookup (citeText : string) (targets : list nat) h
  (address : nat) :
  fold_left (populateAt citeText) targets h !! address
  = if decide (address ∈ targets)
    then populateXref citeText <$> h !! address
    else h !! address.
Proof.
  revert h. induction targets as [|target rest IH]; intros h;
    cbn [fold_left].
  - case_decide; [set_solver | done].
  - rewrite IH, populateAt_lookup.
    destruct (decide (address ∈ rest)), (decide (address = target)),
      (decide (address ∈ target :: rest)); try set_solver.
    destruct (h !! address); simpl; [|done]. by rewrite populateXref_twice.
Qed.

Lemma populateBibrContent_fold rid state h (citeText : string) :
  property (references state) rid = Own citeText ->
  populateBibrContent rid state h
  = Some (fold_left (populateAt citeText) (citationsOf state rid) h).
Proof.
  intros H. unfold populateBibrContent, citationsOf. rewrite H.
  apply property_Own in H as [Hname _].
  rewrite property_own_name by done.
  by destruct (citations state !! rid).
Qed.

Lemma registerReference_spec (work : CreativeWork) state h :
  Populated state h ->
  exists r,
    registerReference work state h = Some r
    /\ Populated r.1 r.2
    /\ citations r.1 = citations state
    /\ tables r.1 = tables state
    /\ forall rid,
         citationTextOf r.1 rid
         = match citationTextOf state rid with
           | Some citeText => Some citeText
           | None =>
               if recordedBy work rid then Some (encodeCitationText work)
               else None
           end.
Proof.
  intros Hp. unfold registerReference, recordedBy.
  assert (forall rid',
            citationTextOf state rid'
            = match citationTextOf state rid' with
              | Some citeText => Some citeText
              | None => None
              end) as Hsame by (intros; by destruct (citationTextOf _ _)).
  destruct (workId work) as [rid|] eqn:Hid;
    [|eexists; split; [done|]; split; [done|]; split; [done|];
      split; [done|]; intros; apply Hsame].
  destruct (truthy (Some rid)) eqn:Htruthy.
  2:{ eexists. split; [done|]. split; [done|]. split; [done|].
      split; [done|]. intros. apply Hsame. }
  destruct (property (references state) rid) as [|known|] eqn:Hknown.
  2:{ eexists. split; [done|]. split; [done|]. split; [done|].
      split; [done|]. intros rid'. cbn [fst snd andb].
      case_bool_decide as Heq; [|apply Hsame].
      injection Heq as <-. unfold citationTextOf. by rewrite Hknown. }
  2:{ eexists. split; [done|]. split; [done|]. split; [done|].
      split; [done|]. intros rid'. cbn [fst snd andb].
      case_bool_decide as Heq; [|apply Hsame].
      injection Heq as <-. unfold property in Hknown.
      destruct (inheritedName rid); [apply Hsame|].
      by destruct (references state !! rid). }
  apply property_Undefined in Hknown as [Hname Hknown].
  set (state1 := {| tables := tables state; citations := citations state;
                    references := <[rid := encodeCitationText work]>
                                    (references state) |}).
  rewrite (populateBibrContent_fold rid state1 h (encodeCitationText work))
    by (cbn [references state1]; rewrite property_own_name by done;
        by rewrite lookup_insert_eq).
  eexists. split; [done|]. cbn [fst snd andb].
  split; [|split; [done|]; split; [done|]].
  - intros rid' address Hin.
    change (citationsOf state1 rid') with (citationsOf state rid') in Hin.
    change (citationsOf state1 rid) with (citationsOf state rid).
    pose proof (citationsOf_elem _ _ _ Hin) as Hname'.
    destruct (Hp rid' address Hin) as (xref & Hx & Hrid & Hcontent).
    rewrite fold_populateAt_lookup, Hx. simpl.
    rewrite citationTextOf_own_name in Hcontent |- * by done.
    cbn [references state1].
    destruct (decide (rid' = rid)) as [->|Hne].
    + rewrite decide_True by done. rewrite Hknown in Hcontent.
      exists (populateXref (encodeCitationText work) xref).
      split; [done|]. unfold populateXref. rewrite Hcontent. simpl.
      split; [done|]. by rewrite lookup_insert_eq.
    + rewrite decide_False.
      * exists xref. split; [done|]. split; [done|].
        by rewrite lookup_insert_ne.
      * intros Hin'. destruct (Hp rid address Hin') as (xref' & Hx' & Hrid' & _).
        congruence.
  - intros rid'.
    destruct (inheritedName rid') eqn:Hname'.
    { unfold citationTextOf. rewrite !property_inherited by done.
      by rewrite andb_false_r. }
    rewrite !citationTextOf_own_name by done. cbn [references state1].
    rewrite andb_true_r.
    destruct (decide (rid = rid')) as [<-|Hne].
    + rewrite lookup_insert_eq, Hknown. by rewrite bool_decide_true.
    + rewrite lookup_insert_ne by done.
      rewrite (bool_decide_false (Some rid = Some rid')) by congruence.
      by destruct (references state !! rid').
Qed.

Lemma registerReference_returns (work : CreativeWork) state h :
  is_Some (registerReference work state h).
Proof.
  unfold registerReference.
  destruct (workId work) as [rid|]; [|done].
  destruct (truthy (Some rid)); [|done].
  destruct (property (references state) rid) as [|known|] eqn:Hknown;
    [|done|done].
  apply property_Undefined in Hknown as [Hname _].
  unfold populateBibrContent. cbn [citations references].
  rewrite !property_own_name by done. rewrite lookup_insert_eq.
  by destruct (citations state !! rid).
Qed.

Lemma encodeReference_returns (lib : Lib) (reference : Reference) state h :
  is_Some (encodeReference lib reference state h)
  <-> ownNames (referenceCites reference) = true.
Proof.
  destruct reference as [value|work];
    cbn [encodeReference referenceCites]; [by split|].
  rewrite ownNames_app.
  assert (is_Some (if phraseTruthy (workTitle work)
                   then optionalPhrase lib "article-title" (workTitle work) h
                   else Some ([], h))
          <-> ownNames (phraseCites (workTitle work)) = true) as Htitle.
  { destruct (phraseTruthy (workTitle work)) eqn:Htruthy.
    - apply optionalPhrase_returns.
    - by destruct (workTitle work) as [[value|nodes]|]. }
  destruct (if phraseTruthy (workTitle work)
            then optionalPhrase lib "article-title" (workTitle work) h
            else Some ([], h)) as [[titleElements h1]|].
  2:{ cbn [mbind option_bind].
      destruct (ownNames (phraseCites (workTitle work)));
        [by destruct (proj2 Htitle eq_refl) | split; [by intros [? ?] | done]]. }
  rewrite (proj1 Htitle) by done. cbn [mbind option_bind andb].
  destruct (hasAuthors work).
  - destruct (registerReference_returns work state h1) as [[state2 h2] ->].
    cbn [mbind option_bind].
    rewrite bind_returns by (by intros [els h3]).
    apply encodePartOf_returns.
  - cbn [mbind option_bind].
    rewrite bind_returns by (by intros [els h3]).
    apply encodePartOf_returns.
Qed.

Lemma encodeReference_spec (lib : Lib) (reference : Reference) state h :
  Populated state h ->
  whenReturned (encodeReference lib reference state h)
    (fun r =>
       Populated r.1.2 r.2
       /\ citations r.1.2 = citations state
       /\ tables r.1.2 = tables state
       /\ forall rid,
            citationTextOf r.1.2 rid
            = match citationTextOf state rid with
              | Some citeText => Some citeText
              | None =>
                  match reference with
                  | ReferenceWork work =>
                      if registers work rid then Some (encodeCitationText work)
                      else None
                  | ReferenceString _ => None
                  end
              end).
Proof.
  intros Hp r Hr.
  assert (forall rid',
            citationTextOf state rid'
            = match citationTextOf state rid' with
              | Some citeText => Some citeText
              | None => None
              end) as Hsame by (intros; by destruct (citationTextOf _ _)).
  destruct reference as [value|work]; cbn [encodeReference] in Hr;
    [by injection Hr as <-|].
  apply bind_Some in Hr as ([titleElements h1] & Htitled & Hr).
  apply bind_Some in Hr as ([[personGroup state2] h2] & Hgroup & Hr).
  apply bind_Some in Hr as ([partElements h3] & Hpart & Hr).
  injection Hr as <-. cbn [fst snd].
  assert (exists new, h1 = h ++ new) as (new1 & ->).
  { destruct (phraseTruthy (workTitle work)).
    - exact (optionalPhrase_grows lib "article-title" (workTitle work) h
               _ Htitled).
    - injection Htitled as <- <-. exists []. by rewrite app_nil_r. }
  pose proof (Populated_grow _ _ new1 Hp) as Hp1.
  destruct (encodePartOf_grows lib (isPartOf work) h2 _ Hpart)
    as (new3 & Hnew3).
  cbn [snd] in Hnew3. subst h3.
  unfold registers.
  destruct (hasAuthors work); cbn [andb].
  - destruct (registerReference_spec work state (h ++ new1) Hp1)
      as ([state2' h2'] & Hregistered & Hp2 & Hc2 & Ht2 & Hr2).
    rewrite Hregistered in Hgroup. cbn [mbind option_bind] in Hgroup.
    injection Hgroup as <- <- <-. cbn [fst snd] in *.
    split; [by apply Populated_grow|]. split; [done|]. split; [done|].
    exact Hr2.
  - injection Hgroup as <- <- <-.
    split; [by apply Populated_grow|]. split; [done|]. split; [done|].
    exact Hsame.
Qed.

Lemma encodeReferenceList_returns (lib : Lib) (refs : list Reference) state h :
  is_Some (encodeReferenceList lib refs state h)
  <-> ownNames (concat (map referenceCites refs)) = true.
Proof.
  revert state h. induction refs as [|reference rest IH]; intros state h.
  - by split.
  - cbn [encodeReferenceList map concat]. rewrite ownNames_app.
    pose proof (encodeReference_returns lib reference state h) as Hone.
    destruct (encodeReference lib reference state h) as [[[one state1] h1]|].
    + rewrite (proj1 Hone) by done. cbn [mbind option_bind andb].
      rewrite bind_returns by (by intros [[more state2] h2]).
      apply IH.
    + cbn [mbind option_bind].
      destruct (ownNames (referenceCites reference));
        [by destruct (proj2 Hone eq_refl) | split; [by intros [? ?] | done]].
Qed.

(** After the references, the citation text recorded for an id is the
    one of the first work that registers for it. *)
Lemma encodeReferenceList_spec (lib : Lib) (refs : list Reference) state h :
  Populated state h ->
  whenReturned (encodeReferenceList lib refs state h)
    (fun r =>
       Populated r.1.2 r.2
       /\ citations r.1.2 = citations state
       /\ tables r.1.2 = tables state
       /\ forall rid,
            citationTextOf r.1.2 rid
            = match citationTextOf state rid with
              | Some citeText => Some citeText
              | None => encodeCitationText <$> registeringWork refs rid
              end).
Proof.
  revert state h. induction refs as [|reference rest IH]; intros state h Hp r Hr.
  - injection Hr as <-. split; [done|]. split; [done|]. split; [done|].
    intros. by destruct (citationTextOf _ _).
  - cbn [encodeReferenceList] in Hr.
    apply bind_Some in Hr as ([[one state1] h1] & Hone & Hr).
    apply bind_Some in Hr as ([[more state2] h2] & Hmore & Hr).
    injection Hr as <-. cbn [fst snd].
    pose proof (encodeReference_spec lib reference state h Hp _ Hone)
      as (Hp1 & Hc1 & Ht1 & Hr1).
    pose proof (IH state1 h1 Hp1 _ Hmore) as (Hp2 & Hc2 & Ht2 & Hr2).
    cbn [fst snd] in *. split; [done|]. split; [congruence|].
    split; [congruence|].
    intros rid. rewrite Hr2, Hr1.
    destruct (citationTextOf state rid); [done|].
    destruct reference as [value|work]; [done|].
    cbn [registeringWork]. by destruct (registers work rid).
Qed.

Lemma encodeReferences_returns (lib : Lib) (refs : option (list Reference))
  state h :
  is_Some (encodeReferences lib refs state h)
  <-> ownNames (concat (map referenceCites (default [] refs))) = true.
Proof.
  destruct refs as [list|]; cbn [encodeReferences]; [|by split].
  rewrite bind_returns by (by intros [[encoded state1] h1]).
  apply encodeReferenceList_returns.
Qed.

Lemma encodeReferences_spec (lib : Lib) (refs : option (list Reference))
  state h :
  Populated state h ->
  whenReturned (encodeReferences lib refs state h)
    (fun r =>
       Populated r.1.2 r.2
       /\ citations r.1.2 = citations state
       /\ tables r.1.2 = tables state
       /\ forall rid,
            citationTextOf r.1.2 rid
            = match citationTextOf state rid with
              | Some citeText => Some citeText
              | None =>
                  encodeCitationText <$> registeringWork (default [] refs) rid
              end).
Proof.
  intros Hp r Hr. destruct refs as [list|]; cbn [encodeReferences] in Hr.
  - apply bind_Some in Hr as ([[encoded state1] h1] & Hencoded & Hr).
    injection Hr as <-.
    exact (encodeReferenceList_spec lib list state h Hp _ Hencoded).
  - injection Hr as <-. split; [done|]. split; [done|]. split; [done|].
    intros. by destruct (citationTextOf _ _).
Qed.

(** *** The article *)

(** The steps of [encodeArticle], for an article that is encoded. *)
Lemma encodeArticle_steps (lib : Lib) (article : Article) (r : Encoded) :
  encodeArticle lib article = Some r ->
  exists h2 h3 state1 (refs : list Xml),
    encodeBody lib (default [] (articleContent article)) initialEncodeState h2
    = Some (bodyElement r, state1, h3)
    /\ encodeReferences lib (articleReferences article) state1 h3
       = Some (refs, finalState r, finalHeap r).
Proof.
  unfold encodeArticle. intros Hr.
  apply bind_Some in Hr as ([title h1] & _ & Hr).
  apply bind_Some in Hr as ([abstract h2] & _ & Hr).
  apply bind_Some in Hr as ([[body state1] h3] & Hbody & Hr).
  apply bind_Some in Hr as ([[refs state2] h4] & Hrefs & Hr).
  injection Hr as <-. by exists h2, h3, state1, refs.
Qed.

(** [encodeArticle] raises exactly when one of the nodes it encodes cites
    the name of a property of [Object.prototype]. *)
Lemma encodeArticle_returns (lib : Lib) (article : Article) :
  is_Some (encodeArticle lib article)
  <-> ownNames (articleCites article) = true.
Proof.
  unfold encodeArticle, articleCites, encodeTitle, encodeAbstract.
  rewrite !ownNames_app.
  assert (forall (a : bool) (P : Prop), a = false -> ~ P -> forall rest,
            P <-> a && rest = true) as Hraised.
  { intros a P -> HP rest. split; [done|]. done. }
  assert (ownNames (phraseCites (articleTitle article))
          = ownNames (phraseCites
                        (Some (default (PhraseString "") (articleTitle article)))))
    as -> by (by destruct (articleTitle article)).
  pose proof (encodePhrase_returns lib
                (default (PhraseString "") (articleTitle article)) [])
    as Htitle.
  destruct (encodePhrase lib (default (PhraseString "") (articleTitle article)) [])
    as [[titleElements h1]|].
  2:{ apply Hraised; [|by intros [? ?]].
      apply not_true_is_false. intros Hown. by destruct (proj2 Htitle Hown). }
  rewrite (proj1 Htitle) by done. cbn [mbind option_bind andb].
  assert (exists abstracted,
            match articleDescription article with
            | None => Some (None, h1)
            | Some phrase =>
                '(els, h0) ← encodePhrase lib phrase h1;
                Some (Some (XElement "abstract" [] [XElement "p" [] els]), h0)
            end = abstracted
            /\ (is_Some abstracted
                <-> ownNames (phraseCites (articleDescription article)) = true))
    as (abstracted & -> & Habstract).
  { eexists. split; [done|].
    destruct (articleDescription article) as [phrase|]; [|by split].
    rewrite bind_returns by (by intros [els h0]).
    apply encodePhrase_returns. }
  destruct abstracted as [[abstract h2]|].
  2:{ apply Hraised; [|by intros [? ?]].
      apply not_true_is_false. intros Hown. by destruct (proj2 Habstract Hown). }
  rewrite (proj1 Habstract) by done. cbn [mbind option_bind andb].
  pose proof (encodeBody_returns lib (default [] (articleContent article))
                initialEncodeState h2) as Hbody.
  destruct (encodeBody lib (default [] (articleContent article))
              initialEncodeState h2) as [[[body state1] h3]|].
  2:{ apply Hraised; [|by intros [? ?]].
      apply not_true_is_false. intros Hown. by destruct (proj2 Hbody Hown). }
  rewrite (proj1 Hbody) by done. cbn [mbind option_bind andb].
  rewrite bind_returns by (by intros [[refs state2] h4]).
  apply encodeReferences_returns.
Qed.

(** What the two phases of [encodeArticle] leave for [rid]: the citation
    elements recorded for it are those that the body added, one for each
    [Cite] node of the content that is encoded with the state of the
    article; each is in the body, and all are as [Populated] has them for
    the citation text of the first work that registers for [rid]. *)
Lemma encodeArticle_citations (lib : Lib) (article : Article) (r : Encoded)
  (rid : string) :
  encodeArticle lib article = Some r ->
  length (citationsOf (finalState r) rid)
  = length (filter (fun cited => cited = rid)
              (citedInNodes (default [] (articleContent article))))
  /\ citationTextOf (finalState r) rid
     = encodeCitationText
       <$> registeringWork (default [] (articleReferences article)) rid
  /\ forall address,
       address ∈ citationsOf (finalState r) rid ->
       address ∈ xrefsIn (bodyElement r)
       /\ exists xref,
            finalHeap r !! address = Some xref
            /\ xrefRid xref = rid
            /\ match citationTextOf (finalState r) rid with
               | Some citeText => xrefElements xref = Some [XText citeText]
               | None => emptyXref xref
               end.
Proof.
  intros Hr.
  destruct (encodeArticle_steps lib article r Hr)
    as (h2 & h3 & state1 & refs & Hbody & Hrefs).
  pose proof (encodeBody_extends lib (default [] (articleContent article))
                initialEncodeState h2 eq_refl _ Hbody) as Hextends.
  cbn [fst snd] in Hextends.
  pose proof (Populated_after_body _ initialEncodeState _ _ _ _
                eq_refl eq_refl Hextends) as Hp.
  pose proof (encodeReferences_spec lib (articleReferences article) state1 h3
                Hp _ Hrefs) as (Hp2 & Hc2 & _ & Hr2).
  cbn [fst snd] in *.
  destruct Hextends as (Hr1 & _ & Hc1).
  destruct (Hc1 rid) as (added & E & L & F).
  rewrite (citationsOf_none initialEncodeState) in E by done.
  cbn [app] in E.
  rewrite (citationsOf_same state1) by done. rewrite E.
  split; [done|]. split.
  { rewrite Hr2, (citationTextOf_same initialEncodeState) by done.
    by rewrite citationTextOf_none. }
  intros address Hin. split.
  - rewrite Forall_forall in F. destruct (F address Hin) as (_ & _ & Hbodyin).
    unfold xrefsOf in Hbodyin. simpl in Hbodyin.
    by rewrite app_nil_r in Hbodyin.
  - apply Hp2. rewrite (citationsOf_same state1) by done. by rewrite E.
Qed.

(** C1, as the code has it: [encodeArticle] raises when one of the
    [Cite] nodes that it encodes targets the name of a property of
    [Object.prototype]. Otherwise, when the references of the article
    hold a work with the cited id and with authors, every citation
    element that the encoding of the body records for that id - one for
    each [Cite] node that is encoded with the state of the article -
    occurs in the encoded body and holds, at the end, one text node with
    the citation text of the first such work, although the body is
    encoded before the references. *)
Theorem citations_populated (lib : Lib) (article : Article) (rid : string)
  (work : CreativeWork) :
  registeringWork (default [] (articleReferences article)) rid = Some work ->
  returnsWhen (articleCites article) (encodeArticle lib article)
    (fun r =>
       let recorded := citationsOf (finalState r) rid in
       length recorded
       = length (filter (fun cited => cited = rid)
                   (citedInNodes (default [] (articleContent article))))
       /\ forall address,
            address ∈ recorded ->
            address ∈ xrefsIn (bodyElement r)
            /\ resolve (finalHeap r) (XRef address)
               = XElement "xref" [("rid", rid); ("ref-type", "bibr")]
                   [XText (encodeCitationText work)]).
Proof.
  intros Hwork.
  apply returnsWhen_split; [apply encodeArticle_returns|].
  intros r Hr.
  destruct (encodeArticle_citations lib article r rid Hr)
    as (Hlength & Htext & Hall).
  split; [done|].
  intros address Hin. destruct (Hall address Hin) as (Hbody & xref & Hx & Hrid & Hcontent).
  split; [done|].
  rewrite Htext, Hwork in Hcontent. cbn [fmap option_fmap option_map] in Hcontent.
  cbn [resolve]. by rewrite Hx, Hrid, Hcontent.
Qed.

(** C1 as the claim states it fails for a reference without authors:
    the article cites [bib1], its references hold a work with that id, and
    the citation element of the encoded body has no content. *)
Lemma citation_of_work_without_authors_unpopulated :
  (fun r => resolve (finalHeap r) (bodyElement r))
  <$> encodeArticle exampleLib
        (exampleArticle [Paragraph [Text "See "; Cite "bib1"]] None)
  = Some (XElement "body" []
            [XElement "sec" []
               [XElement "p" []
                  [XText "See ";
                   XElement "xref" [("rid", "bib1"); ("ref-type", "bibr")] []]]])
  /\ workId (exampleWork None) = Some "bib1".
Proof. split; reflexivity. Qed.

Lemma citations_populated_witness :
  let article :=
    exampleArticle [Paragraph [Text "See "; Cite "bib1"]] exampleThreeAuthors in
  registeringWork (default [] (articleReferences article)) "bib1"
  = Some (exampleWork exampleThreeAuthors)
  /\ exists r,
       encodeArticle exampleLib article = Some r
       /\ citationsOf (finalState r) "bib1" = [0]
       /\ resolve (finalHeap r) (XRef 0)
          = XElement "xref" [("rid", "bib1"); ("ref-type", "bibr")]
              [XText "Smith et al., 1990"].
Proof.
  intros article. split; [reflexivity|].
  pose proof (citations_populated exampleLib article "bib1"
                (exampleWork exampleThreeAuthors) eq_refl) as Hpopulated.
  unfold returnsWhen in Hpopulated.
  destruct (encodeArticle exampleLib article) as [r|] eqn:Hr;
    [|discriminate Hpopulated].
  exists r. split; [reflexivity|].
  assert (citationsOf (finalState r) "bib1" = [0]) as Hrecorded
    by (vm_compute in Hr; by injection Hr as <-).
  split; [exact Hrecorded|].
  destruct Hpopulated as (_ & _ & Hall).
  apply (Hall 0). rewrite Hrecorded. by left.
Defined.

(** An article that cites the name of a property of [Object.prototype]
    is not encoded: [encodeCite] raises. *)
Example encodeArticle_inherited_name :
  encodeArticle exampleLib
    (exampleArticle [Paragraph [Text "See "; Cite "constructor"]]
       exampleThreeAuthors)
  = None.
Proof. reflexivity. Qed.

(** *** Citations without reference *)

(** X14: [encodeArticle] raises when one of the [Cite] nodes that it
    encodes targets the name of a property of [Object.prototype].
    Otherwise, when the references of the article hold no work with the
    cited non-empty id and with authors - also when the article has no
    references - every citation element that the encoding of the body
    records for that id occurs in the encoded body and is, at the end,
    still without content. *)
Theorem citations_without_reference_stay_empty (lib : Lib) (article : Article)
  (rid : string) :
  registeringWork (default [] (articleReferences article)) rid = None ->
  returnsWhen (articleCites article) (encodeArticle lib article)
    (fun r =>
       length (citationsOf (finalState r) rid)
       = length (filter (fun cited => cited = rid)
                   (citedInNodes (default [] (articleContent article))))
       /\ forall address,
            address ∈ citationsOf (finalState r) rid ->
            address ∈ xrefsIn (bodyElement r)
            /\ resolve (finalHeap r) (XRef address)
               = XElement "xref" [("rid", rid); ("ref-type", "bibr")] []).
Proof.
  intros Hnone.
  apply returnsWhen_split; [apply encodeArticle_returns|].
  intros r Hr.
  destruct (encodeArticle_citations lib article r rid Hr)
    as (Hlength & Htext & Hall).
  split; [done|].
  intros address Hin.
  destruct (Hall address Hin) as (Hbody & xref & Hx & Hrid & Hcontent).
  split; [done|].
  rewrite Htext, Hnone in Hcontent. cbn [fmap option_fmap option_map] in Hcontent.
  unfold emptyXref in Hcontent.
  cbn [resolve]. by rewrite Hx, Hrid, Hcontent.
Qed.

Lemma citations_without_reference_stay_empty_witness :
  let article := exampleArticle [Paragraph [Text "See "; Cite "bib1"]] None in
  registeringWork (default [] (articleReferences article)) "bib1" = None
  /\ exists r,
       encodeArticle exampleLib article = Some r
       /\ citationsOf (finalState r) "bib1" = [0]
       /\ resolve (finalHeap r) (XRef 0)
          = XElement "xref" [("rid", "bib1"); ("ref-type", "bibr")] [].
Proof.
  intros article. split; [reflexivity|].
  pose proof (citations_without_reference_stay_empty exampleLib article "bib1"
                eq_refl) as Hempty.
  unfold returnsWhen in Hempty.
  destruct (encodeArticle exampleLib article) as [r|] eqn:Hr;
    [|discriminate Hempty].
  exists r. split; [reflexivity|].
  assert (citationsOf (finalState r) "bib1" = [0]) as Hrecorded
    by (vm_compute in Hr; by injection Hr as <-).
  split; [exact Hrecorded|].
  destruct Hempty as (_ & _ & Hall).
  apply (Hall 0). rewrite Hrecorded. by left.
Defined.

(** *** Counting tables *)

Lemma Counts_wrapped (n : nat) state (elementName : string)
  (attributes : list (string * string)) (r : Result (list Xml)) :
  Counts n state r -> Counts n state (wrapped elementName attributes r).
Proof. by destruct r as [[els state'] h']. Qed.

Lemma counts_wrapped (n : nat) state (elementName : string)
  (attributes : list (string * string)) (call : option (Result (list Xml))) :
  whenReturned call (Counts n state) ->
  whenReturned (wrapped elementName attributes <$> call) (Counts n state).
Proof. apply whenReturned_fmap. intros r. apply Counts_wrapped. Qed.

Lemma Counts_none state (els : list Xml) h : Counts 0 state (els, state, h).
Proof. unfold Counts. simpl. lia. Qed.

Lemma sequence_counts {A : Type}
  (f : A -> EncodeState -> Heap -> option (Result (list Xml)))
  (count : A -> nat) (items : list A) :
  Forall (fun item => forall state h,
            whenReturned (f item state h) (Counts (count item) state))
    items ->
  forall state h,
    whenReturned (sequence f items state h)
      (Counts (sum_list (map count items)) state).
Proof.
  induction 1 as [|item rest Hitem _ IH]; intros state h r Hr.
  - injection Hr as <-. apply Counts_none.
  - apply sequence_cons_Some in Hr
      as (a & state1 & h1 & b & state2 & h2 & Ha & Hb & ->).
    pose proof (Hitem state h _ Ha) as H1.
    pose proof (IH state1 h1 _ Hb) as H2.
    unfold Counts in *. simpl in *. lia.
Qed.

Lemma encodeFigureWith_counts
  (encodeSome : list Node -> EncodeState -> Heap -> option (Result (list Xml)))
  (label : option string) (caption content : option (list Node)) :
  (forall nodes state h,
     caption = Some nodes ->
     whenReturned (encodeSome nodes state h)
       (Counts (sum_list (map tablesIn nodes)) state)) ->
  forall state h,
    whenReturned (encodeFigureWith encodeSome label caption content state h)
      (Counts
         (match caption with
          | Some nodes => sum_list (map tablesIn nodes)
          | None => 0
          end)
         state).
Proof.
  intros Hnodes state h r Hr. unfold encodeFigureWith in Hr.
  apply bind_Some in Hr as ([[children state0] h1] & Hchildren & Hr).
  apply bind_Some in Hr as ([[captionElements state2] h2] & Hcaptioned & Hr).
  injection Hr as <-.
  destruct caption as [nodes|].
  - pose proof (counts_wrapped _ state "caption" [] _
                  (Hnodes nodes state h1 eq_refl) _ Hcaptioned) as Hcount.
    exact Hcount.
  - injection Hcaptioned as <- <- <-. apply Counts_none.
Qed.

Lemma encodeNode_counts (lib : Lib) (node : Node) :
  forall state h,
    whenReturned (encodeNode lib node state h) (Counts (tablesIn node) state).
Proof.
  induction node using Node_nested_ind; intros state h;
    cbn [encodeNode tablesIn];
    try (apply whenReturned_Some, Counts_none);
    try (apply counts_wrapped, sequence_counts; done).
  - (* List *)
    apply counts_wrapped.
    apply (sequence_counts _ (fun item => sum_list (map tablesIn item))).
    eapply Forall_impl; [eassumption|].
    intros item Hitem state' h'.
    by apply counts_wrapped, sequence_counts.
  - (* Table *)
    intros r Hr.
    apply bind_Some in Hr as ([[encoded state1] h1] & Hencoded & Hr).
    injection Hr as <-.
    match type of Hencoded with
    | sequence ?f rows ?counted h = _ =>
        pose proof (sequence_counts f
                      (fun row => sum_list (map (fun cell =>
                                                   sum_list (map tablesIn cell))
                                              row))
                      rows) as Hrows
    end.
    match type of Hrows with
    | ?premise -> _ => assert premise as Hpremise
    end.
    { eapply Forall_impl; [eassumption|].
      intros row Hrow state' h'.
      apply counts_wrapped.
      apply (sequence_counts _ (fun cell => sum_list (map tablesIn cell))).
      eapply Forall_impl; [exact Hrow|].
      intros cell Hcell state'' h''.
      by apply counts_wrapped, sequence_counts. }
    specialize (Hrows Hpremise
                  {| tables := S (tables state);
                     citations := citations state;
                     references := references state |} h _ Hencoded).
    unfold Counts in *. simpl in *. lia.
  - (* Figure *)
    apply encodeFigureWith_counts.
    intros nodes state' h' ->. by apply sequence_counts.
  - (* Cite *)
    intros r Hr. unfold encodeCite in Hr.
    apply bind_Some in Hr as (xrefs & _ & Hr).
    apply bind_Some in Hr as (h2 & _ & Hr).
    injection Hr as <-. unfold Counts. simpl. lia.
  - (* Collection *)
    case_bool_decide; [|apply whenReturned_Some, Counts_none].
    apply counts_wrapped.
    apply (sequence_counts _
             (fun part => match part with
                          | Figure _ caption _ =>
                              match caption with
                              | Some nodes => sum_list (map tablesIn nodes)
                              | None => 0
                              end
                          | _ => 0
                          end)).
    eapply Forall_impl; [eassumption|].
    intros part Hpart state' h'.
    destruct part; try apply whenReturned_Some, Counts_none.
    exact (Hpart state' h').
Qed.

Lemma encodeNodes_counts (lib : Lib) (nodes : list Node) state h :
  whenReturned (encodeNodes lib nodes state h)
    (Counts (tablesInNodes nodes) state).
Proof.
  apply (sequence_counts (encodeNode lib) tablesIn), Forall_forall.
  intros node _. apply encodeNode_counts.
Qed.

(** X15: a call of the encoder raises when one of the [Cite] nodes that
    it encodes targets the name of a property of [Object.prototype].
    Otherwise [state.tables] grows by one for each [Table] node encoded
    with the state, in the order of encoding and through all levels of
    nesting, the content of figures apart; the label of a table is
    [Table n.] with [n] the count after it has been added; and the count
    at the end of [encodeArticle] is the number of such tables in the
    content of the article. *)
Theorem tables_numbered (lib : Lib) :
  (forall nodes state h,
     returnsWhen (allCitedInNodes nodes) (encodeNodes lib nodes state h)
       (fun r => tables r.1.2 = tables state + tablesInNodes nodes))
  /\ (forall id title rows state h,
        returnsWhen (allCitedIn (Table id title rows))
          (encodeNode lib (Table id title rows) state h)
          (fun r =>
             exists attributes rest,
               r.1.1
               = [ XElement "table-wrap" attributes
                     (XElement "label" []
                        [XText ("Table " +:+ pretty (S (tables state))
                                +:+ ".")]
                      :: rest) ]))
  /\ (forall article,
        returnsWhen (articleCites article) (encodeArticle lib article)
          (fun r =>
             tables (finalState r)
             = tablesInNodes (default [] (articleContent article)))).
Proof.
  split; [|split].
  - intros nodes state h.
    apply returnsWhen_split; [apply encodeNodes_returns|].
    apply encodeNodes_counts.
  - intros id title rows state h.
    apply returnsWhen_split; [apply encodeNode_returns|].
    intros r Hr. cbn [encodeNode] in Hr.
    apply bind_Some in Hr as ([[encoded state1] h1] & _ & Hr).
    injection Hr as <-. by eexists _, _.
  - intros article.
    apply returnsWhen_split; [apply encodeArticle_returns|].
    intros r Hr.
    destruct (encodeArticle_steps lib article r Hr)
      as (h2 & h3 & state1 & refs & Hbody & Hrefs).
    pose proof (encodeBody_extends lib (default [] (articleContent article))
                  initialEncodeState h2 eq_refl _ Hbody) as Hextends.
    pose proof (Populated_after_body _ initialEncodeState _ _ _ _
                  eq_refl eq_refl Hextends) as Hp.
    pose proof (encodeReferences_spec lib (articleReferences article) state1 h3
                  Hp _ Hrefs) as (_ & _ & Htables & _).
    cbn [fst snd] in *. rewrite Htables.
    unfold encodeBody in Hbody.
    apply bind_Some in Hbody as ([[sections state1'] h3'] & Hlooped & Hbody).
    injection Hbody as _ <- <-.
    pose proof (encodeBodyLoop_nodes lib (default [] (articleContent article))
                  [] initialEncodeState h2) as Hloop.
    rewrite Hlooped in Hloop.
    pose proof (encodeNodes_counts lib (default [] (articleContent article))
                  initialEncodeState h2) as Hcount.
    destruct (encodeNodes lib (default [] (articleContent article))
                initialEncodeState h2) as [e|]; [|done].
    destruct Hloop as (_ & Hstate & _). cbn [fst snd] in Hstate.
    rewrite Hstate. exact (Hcount _ eq_refl).
Qed.

(** *** The sections of the body *)

Lemma pushToLast_snoc (sections : list (list Xml)) (last el : list Xml) :
  pushToLast (sections ++ [last]) el = sections ++ [last ++ el].
Proof.
  induction sections as [|section rest IH]; [done|].
  simpl. rewrite IH. by destruct (rest ++ [last]) eqn:E; [destruct rest|].
Qed.

Lemma pushToLast_length (sections : list (list Xml)) (el : list Xml) :
  length (pushToLast sections el) = length sections.
Proof.
  induction sections as [|section rest IH]; [done|].
  destruct rest; [done|].
  change (pushToLast (section :: l :: rest) el)
    with (section :: pushToLast (l :: rest) el).
  simpl in *. by rewrite IH.
Qed.

Lemma pushToLast_tail_titles (sections : list (list Xml)) (el : list Xml) :
  Forall startsWithTitle sections ->
  Forall startsWithTitle (pushToLast sections el).
Proof.
  induction 1 as [|section rest (els & more & ->) Hrest IH]; [done|].
  destruct rest as [|next rest].
  - simpl. apply Forall_singleton. by eexists _, _.
  - change (pushToLast (?a :: next :: rest) el)
      with (a :: pushToLast (next :: rest) el).
    apply Forall_cons. split; [by eexists _, _ | done].
Qed.

(** What a heading is encoded to. *)
Lemma encodeNode_heading (lib : Lib) (node : Node) state h
  (r : Result (list Xml)) :
  isHeading node = true ->
  encodeNode lib node state h = Some r ->
  exists els, r.1.1 = [XElement "title" [] els].
Proof.
  intros Hheading Hr. destruct node; try discriminate.
  cbn [encodeNode] in Hr.
  apply fmap_Some in Hr as ([[els state1] h1] & _ & ->). by exists els.
Qed.

(** The invariant of the loop of [encodeBody] once a section is open:
    every section after the first begins with a title. *)
Lemma encodeBodyLoop_open (lib : Lib) (nodes : list Node)
  (first : list Xml) (others : list (list Xml)) state h :
  Forall startsWithTitle others ->
  whenReturned (encodeBodyLoop lib nodes (first :: others) state h)
    (fun r =>
       exists first' others',
         r.1.1 = first' :: others'
         /\ Forall startsWithTitle others'
         /\ (startsWithTitle first -> startsWithTitle first')
         /\ length others'
            = length others
              + length (filter (fun node => isHeading node = true) nodes)).
Proof.
  revert first others state h.
  induction nodes as [|node rest IH]; intros first others state h Hothers r Hr.
  - injection Hr as <-. exists first, others. split; [done|]. split; [done|].
    split; [done|]. simpl. lia.
  - cbn [encodeBodyLoop] in Hr.
    apply bind_Some in Hr as ([[el state1] h1] & Hnode & Hr).
    destruct (isHeading node) eqn:Hheading.
    + destruct (encodeNode_heading lib node state h _ Hheading Hnode)
        as (els & Hels).
      cbn [fst] in Hels. subst el.
      change ((first :: others) ++ [[]]) with (first :: (others ++ [[]])) in Hr.
      cbv beta iota in Hr.
      assert (pushToLast (first :: others ++ [[]]) [XElement "title" [] els]
              = first :: (others ++ [[XElement "title" [] els]])) as Hpushed.
      { change (first :: others ++ [[]]) with ((first :: others) ++ [[]]).
        by rewrite pushToLast_snoc. }
      rewrite Hpushed in Hr.
      destruct (IH first (others ++ [[XElement "title" [] els]]) state1 h1)
        with (r := r) as (first' & others' & E & Hall & Hfirst & Hlen);
        [|done|].
      { apply Forall_app. split; [done|].
        apply Forall_singleton. by eexists _, _. }
      exists first', others'. split; [done|]. split; [done|].
      split; [done|].
      rewrite filter_cons_True by done. rewrite length_app in Hlen.
      simpl in *. lia.
    + cbv beta iota in Hr.
      assert (exists first2 others2,
                pushToLast (first :: others) el = first2 :: others2
                /\ Forall startsWithTitle others2
                /\ (startsWithTitle first -> startsWithTitle first2)
                /\ length others2 = length others)
        as (first2 & others2 & Hpushed & Hall2 & Hfirst2 & Hlen2).
      { destruct others as [|next others].
        - simpl. exists (first ++ el), []. split; [done|]. split; [done|].
          split; [|done]. intros (els & more & ->). by eexists _, _.
        - change (pushToLast (first :: next :: others) el)
            with (first :: pushToLast (next :: others) el).
          exists first, (pushToLast (next :: others) el).
          split; [done|]. split; [by apply pushToLast_tail_titles|].
          split; [done|]. by rewrite pushToLast_length. }
      rewrite Hpushed in Hr.
      destruct (IH first2 others2 state1 h1 Hall2 r Hr)
        as (first' & others' & E & Hall & Hfirst & Hlen).
      exists first', others'. split; [done|]. split; [done|].
      split; [tauto|].
      rewrite filter_cons_False by (rewrite Hheading; done). lia.
Qed.

(** X16: [encodeBody] raises when [encodeNodes] raises on the same
    nodes, that is when one of the [Cite] nodes to encode targets the
    name of a property of [Object.prototype]. Otherwise the body is a row
    of [<sec>] elements that hold, in order, the elements that
    [encodeNodes] gives for the nodes; there is one section for each
    heading, and one before them for the nodes that precede the first
    heading; every section opened by a heading begins with the [<title>]
    of that heading; and the state and the heap end as they do after
    [encodeNodes]. *)
Theorem encodeBody_sections (lib : Lib) (nodes : list Node) state h :
  (is_Some (encodeBody lib nodes state h)
   <-> ownNames (allCitedInNodes nodes) = true)
  /\ match encodeBody lib nodes state h, encodeNodes lib nodes state h with
     | Some body, Some encoded =>
         exists sections,
           body.1.1 = XElement "body" [] (map (XElement "sec" []) sections)
           /\ concat sections = encoded.1.1
           /\ length sections = sectionCount nodes
           /\ Forall startsWithTitle
                (match nodes with
                 | first :: _ =>
                     if isHeading first then sections else drop 1 sections
                 | [] => sections
                 end)
           /\ body.1.2 = encoded.1.2
           /\ body.2 = encoded.2
     | None, None => True
     | _, _ => False
     end.
Proof.
  split; [apply encodeBody_returns|].
  unfold encodeBody.
  pose proof (encodeBodyLoop_nodes lib nodes [] state h) as Hloop.
  destruct (encodeBodyLoop lib nodes [] state h)
    as [[[sections state1] h1]|] eqn:Hlooped;
    destruct (encodeNodes lib nodes state h) as [[[els state2] h2]|];
    try done.
  cbn [mbind option_bind fst snd concat app] in *.
  destruct Hloop as (Hconcat & Hstate & Hheap).
  exists sections. split; [done|]. split; [done|].
  destruct nodes as [|node rest].
  { injection Hlooped as <- <- <-. by repeat split. }
  assert (exists first others,
            sections = first :: others
            /\ Forall startsWithTitle others
            /\ (isHeading node = true -> startsWithTitle first)
            /\ length others
               = length (filter (fun node => isHeading node = true) rest))
    as (first & others & -> & Hall & Hfirst & Hlen).
  { cbn [encodeBodyLoop] in Hlooped.
    apply bind_Some in Hlooped as ([[el state'] h'] & Hnode & Hlooped).
    destruct (isHeading node) eqn:Hheading.
    - destruct (encodeNode_heading lib node state h _ Hheading Hnode)
        as (title & Htitle).
      cbn [fst] in Htitle. subst el. simpl in Hlooped.
      destruct (encodeBodyLoop_open lib rest [XElement "title" [] title] []
                  state' h' (Forall_nil_2 _) _ Hlooped)
        as (first' & others' & E & Hall & Hfirst & Hlen).
      exists first', others'. split; [done|]. split; [done|].
      split; [|done]. intros _. apply Hfirst. by eexists _, _.
    - simpl in Hlooped.
      destruct (encodeBodyLoop_open lib rest el [] state' h'
                  (Forall_nil_2 _) _ Hlooped)
        as (first' & others' & E & Hall & Hfirst & Hlen).
      exists first', others'. split; [done|]. split; [done|].
      split; [done|]. done. }
  split.
  { unfold sectionCount. simpl.
    destruct (isHeading node) eqn:Hheading.
    - rewrite filter_cons_True by done. simpl. lia.
    - rewrite filter_cons_False by (rewrite Hheading; done). lia. }
  split; [|done].
  destruct (isHeading node).
  - apply Forall_cons. split; [by apply Hfirst | done].
  - simpl. by rewrite drop_0.
Qed.

(** *** Citations after their reference *)

(** X17: a citation that is encoded when the citation text of its id is
    already recorded - which it never is for the name of a property of
    [Object.prototype] - gets that text at once: the new element holds
    one text node with it, the element is recorded for the id, and the
    elements that are not recorded for the id are left as they are. *)
Theorem encodeCite_known_reference (target : string) state h
  (citeText : string) :
  citationTextOf state (citeRid target) = Some citeText ->
  exists r,
    encodeCite target state h = Some r
    /\ r.1.1 = [XRef (length h)]
    /\ resolve r.2 (XRef (length h))
       = XElement "xref" [("rid", citeRid target); ("ref-type", "bibr")]
           [XText citeText]
    /\ references r.1.2 = references state
    /\ citationsOf r.1.2 (citeRid target)
       = citationsOf state (citeRid target) ++ [length h]
    /\ forall address,
         address ∉ citationsOf state (citeRid target) ->
         address < length h ->
         r.2 !! address = h !! address.
Proof.
  intros Hknown. unfold encodeCite.
  set (rid := citeRid target) in *.
  assert (property (references state) rid = Own citeText) as Hown.
  { unfold citationTextOf in Hknown.
    by destruct (property (references state) rid) as [|known|];
      [|injection Hknown as ->|]. }
  pose proof (property_Own _ _ _ Hown) as [Hname _].
  assert (match property (citations state) rid with
          | Undefined => Some []
          | Own xrefs => Some xrefs
          | Inherited => None
          end = Some (citationsOf state rid)) as ->.
  { unfold citationsOf. rewrite property_own_name by done.
    by destruct (citations state !! rid). }
  cbn [mbind option_bind].
  set (state1 := {| tables := tables state;
                    citations :=
                      <[rid := citationsOf state rid ++ [length h]]>
                        (citations state);
                    references := references state |}).
  assert (citationsOf state1 rid = citationsOf state rid ++ [length h])
    as Hrecorded.
  { rewrite (citationsOf_own_name state1) by done.
    cbn [citations state1]. by rewrite lookup_insert_eq. }
  rewrite (populateBibrContent_fold rid state1 _ citeText) by done.
  rewrite Hrecorded. cbn [mbind option_bind].
  eexists. split; [done|]. cbn [fst snd].
  split; [done|]. split.
  { cbn [resolve]. rewrite fold_populateAt_lookup.
    rewrite decide_True by (apply elem_of_app; right; by left).
    by rewrite lookup_app_r, Nat.sub_diag. }
  split; [done|]. split; [done|].
  intros address Hnot Hlt. rewrite fold_populateAt_lookup.
  rewrite decide_False.
  - by rewrite lookup_app_l.
  - intros [Hin | Hin%list_elem_of_singleton]%elem_of_app; [done | lia].
Qed.

Lemma encodeCite_known_reference_witness :
  let state :=
    {| tables := 0; citations := ∅;
       references := {["bib1" := "Smith et al., 1990"]} |} in
  citationTextOf state (citeRid "#bib1") = Some "Smith et al., 1990"
  /\ exists r,
       encodeCite "#bib1" state [] = Some r
       /\ resolve r.2 (XRef 0)
          = XElement "xref" [("rid", "bib1"); ("ref-type", "bibr")]
              [XText "Smith et al., 1990"].
Proof.
  intros state. split; [reflexivity|].
  destruct (encodeCite_known_reference "#bib1" state [] "Smith et al., 1990"
              eq_refl) as (r & Hr & _ & Hresolved & _).
  by exists r.
Defined.
(** *** The citation text *)

Lemma splitOn_absent (c : ascii) (s : string) :
  includesChar c s = false -> splitOn c s = [s].
Proof.
  induction s as [|d r IH]; [done|]. simpl.
  destruct (Ascii.eqb c d); [done|]. by intros ->%IH.
Qed.

Lemma splitOn_first (c : ascii) (a b : string) :
  includesChar c a = false ->
  splitOn c (a +:+ String c b) = a :: splitOn c b.
Proof.
  induction a as [|d r IH]; simpl.
  - by rewrite Ascii.eqb_refl.
  - destruct (Ascii.eqb c d); [done|]. by intros ->%IH.
Qed.

(** X18: for a work whose first person among the authors has family
    names and whose date is a string with a hyphen, the citation text is
    the family names of that person, followed for exactly two persons by
    [and] and the family names of the second - with no space before
    [and] - and for three or more persons by [ et al.], then a comma and
    the part of the date before its first hyphen. Authors that are
    organizations do not count. *)
Theorem encodeCitationText_cases (work : CreativeWork) (first : Person)
  (others : list Person) (family : list string) (year rest : string) :
  persons (default [] (workAuthors work)) = first :: others ->
  familyNames first = Some family ->
  datePublished work = Some (DateString (year +:+ "-" +:+ rest)) ->
  includesChar "-"%char year = false ->
  (others = [] ->
   encodeCitationText work = join " " family +:+ ", " +:+ year)
  /\ (forall second family2,
        others = [second] -> familyNames second = Some family2 ->
        encodeCitationText work
        = join " " family +:+ "and " +:+ join " " family2 +:+ ", " +:+ year)
  /\ (2 <= length others ->
      encodeCitationText work = join " " family +:+ " et al." +:+ ", " +:+ year).
Proof.
  intros Hpersons Hfamily Hdate Hyear. unfold encodeCitationText.
  rewrite Hpersons, Hfamily, Hdate. cbn [dateText].
  assert (publishedYear (year +:+ "-" +:+ rest) = year) as ->.
  { unfold publishedYear. change ("-" +:+ rest) with (String "-"%char rest).
    by rewrite splitOn_first. }
  split; [|split].
  - intros ->. by rewrite JSFacts.append_assoc.
  - intros second family2 -> ->. by rewrite !JSFacts.append_assoc.
  - intros Hlen. destruct others as [|second [|third more]];
      [simpl in Hlen; lia..|]. by rewrite !JSFacts.append_assoc.
Qed.

Lemma encodeCitationText_cases_witness :
  encodeCitationText (exampleWork exampleThreeAuthors) = "Smith et al., 1990".
Proof.
  apply (proj2 (proj2 (encodeCitationText_cases
                         (exampleWork exampleThreeAuthors)
                         {| familyNames := Some ["Smith"]; givenNames := None;
                            personName := None; honorificPrefix := None;
                            honorificSuffix := None |}
                         (persons [examplePerson "Jones"; examplePerson "Brown"])
                         ["Smith"] "1990" "05-01"
                         eq_refl eq_refl eq_refl eq_refl))).
  simpl. lia.
Defined.

(** *** The reference list *)

Lemma encodeReference_isRefOf (lib : Lib) (reference : Reference) state h :
  whenReturned (encodeReference lib reference state h)
    (fun r => isRefOf reference r.1.1).
Proof.
  intros r Hr. destruct reference as [value|work];
    cbn [encodeReference] in Hr; [by injection Hr as <-|].
  apply bind_Some in Hr as ([titleElements h1] & _ & Hr).
  apply bind_Some in Hr as ([[personGroup state2] h2] & _ & Hr).
  apply bind_Some in Hr as ([partElements h3] & _ & Hr).
  injection Hr as <-. by eexists.
Qed.

Lemma encodeReferenceList_each (lib : Lib) (refs : list Reference) state h :
  whenReturned (encodeReferenceList lib refs state h)
    (fun r => Forall2 isRefOf refs r.1.1).
Proof.
  revert state h. induction refs as [|reference rest IH]; intros state h r Hr.
  - injection Hr as <-. constructor.
  - cbn [encodeReferenceList] in Hr.
    apply bind_Some in Hr as ([[one state1] h1] & Hone & Hr).
    apply bind_Some in Hr as ([[more state2] h2] & Hmore & Hr).
    injection Hr as <-. constructor.
    + exact (encodeReference_isRefOf lib reference state h _ Hone).
    + exact (IH state1 h1 _ Hmore).
Qed.

(** X19: an article without references gets no [<ref-list>]. Encoding
    references raises when a title among them holds a [Cite] node that
    targets the name of a property of [Object.prototype]; otherwise the
    list holds the title [References] and then one [<ref>] for each
    reference, in order: an empty element for a reference given as a
    string, and for a work an element with the id of the work around one
    [<element-citation>]. *)
Theorem encodeReferences_shape (lib : Lib) state h :
  (encodeReferences lib None state h = Some ([], state, h))
  /\ forall refs,
       returnsWhen (concat (map referenceCites refs))
         (encodeReferences lib (Some refs) state h)
         (fun r =>
            exists encoded,
              r.1.1
              = [ XElement "ref-list" []
                    (XElement "title" [] [XText "References"] :: encoded) ]
              /\ Forall2 isRefOf refs encoded).
Proof.
  split; [done|]. intros refs.
  apply returnsWhen_split;
    [apply (encodeReferences_returns lib (Some refs))|].
  intros r Hr. cbn [encodeReferences] in Hr.
  apply bind_Some in Hr as ([[encoded state1] h1] & Hencoded & Hr).
  injection Hr as <-. exists encoded. split; [done|].
  exact (encodeReferenceList_each lib refs state h _ Hencoded).
Qed.

(** *** Media types *)

Lemma append_empty_r (s : string) : s +:+ "" = s.
Proof.
  induction s as [|c r IH]; [done|].
  change (String c r +:+ "") with (String c (r +:+ "")). by rewrite IH.
Qed.

Lemma attributeOf_app (a b : list (string * string)) (name : string) :
  attributeOf (a ++ b) name
  = match attributeOf a name with
    | Some value => Some value
    | None => attributeOf b name
    end.
Proof.
  induction a as [|[key value] a IH]; [done|]. simpl.
  by destruct (String.eqb key name).
Qed.

Lemma attributeOf_attrIf (key name : string) (value : option string) :
  attributeOf (attrIf key value) name
  = if String.eqb key name then value else None.
Proof.
  destruct value as [v|]; simpl.
  - by destruct (String.eqb key name).
  - by destruct (String.eqb key name).
Qed.

Lemma attributeOf_mediaAttributes (media : Media) (name : string) :
  name = "mimetype" \/ name = "mime-subtype" ->
  attributeOf (mediaAttributes media) name
  = attributeOf (applyMimetype media) name.
Proof.
  intros Hname. unfold mediaAttributes.
  rewrite !attributeOf_app, !attributeOf_attrIf.
  by destruct Hname as [-> | ->].
Qed.

(** X20: provided that [attr] reads the attributes of an element,
    [extractMimetype] reads back, from the element that [encodeMedia]
    makes, the format of the media object when it has no [/] or is made
    of two non-empty parts around one [/]; without format it reads the
    empty string. *)
Theorem mimetype_round_trip (xml : XmlReader) (media : Media)
  (elementName : string) :
  readsAttributes xml ->
  exists elem,
    encodeMedia media elementName = [elem]
    /\ (forall format,
          mediaFormat media = Some format ->
          includesChar "/"%char format = false ->
          extractMimetype xml elem = format)
    /\ (forall type subtype,
          mediaFormat media = Some (type +:+ "/" +:+ subtype) ->
          includesChar "/"%char type = false ->
          includesChar "/"%char subtype = false ->
          type <> "" -> subtype <> "" ->
          extractMimetype xml elem = type +:+ "/" +:+ subtype)
    /\ (mediaFormat media = None -> extractMimetype xml elem = "").
Proof.
  intros Hreads.
  exists (XElement elementName (mediaAttributes media) []).
  split; [done|].
  unfold extractMimetype. rewrite !Hreads.
  rewrite !attributeOf_mediaAttributes by auto.
  unfold applyMimetype. split; [|split].
  - intros format -> Hslash. rewrite (splitOn_absent _ _ Hslash).
    destruct format as [|c r]; [done|]. simpl.
    change ("" +:+ "") with "". by rewrite append_empty_r.
  - intros type subtype -> Htype Hsubtype Hnonempty Hsub.
    change ("/" +:+ subtype) with (String "/"%char subtype).
    destruct type as [|c r]; [done|].
    destruct subtype as [|d s]; [done|].
    change (truthy (Some (String c r +:+ String "/"%char (String d s))))
      with true. cbn iota.
    rewrite (splitOn_first _ _ _ Htype), (splitOn_absent _ _ Hsubtype).
    reflexivity.
  - by intros ->.
Qed.

Lemma mimetype_round_trip_witness :
  let media :=
    {| contentUrl := Some "a.png"; mediaFormat := Some "image/png";
       metaInline := false; metaUsage := None; metaLinkType := None |} in
  readsAttributes exampleReader
  /\ exists elem,
       encodeMedia media "graphic" = [elem]
       /\ extractMimetype exampleReader elem = "image/png".
Proof.
  intros media.
  assert (readsAttributes exampleReader) as Hreads by (intros ? ? ? ?; reflexivity).
  split; [exact Hreads|].
  destruct (mimetype_round_trip exampleReader media "graphic" Hreads)
    as (elem & Hencoded & _ & Htwo & _).
  exists elem. split; [exact Hencoded|].
  apply (Htwo "image" "png"); try reflexivity; discriminate.
Defined.

(** *** Identifiers *)

Lemma replaceDots_fixed (s : string) :
  includesChar "."%char s = false -> replaceDots s = s.
Proof.
  induction s as [|c r IH]; [done|]. cbn [includesChar replaceDots].
  rewrite (Ascii.eqb_sym c).
  destruct (Ascii.eqb "." c); [done|]. by intros ->%IH.
Qed.

Lemma replaceDots_none (s : string) :
  includesChar "."%char (replaceDots s) = false.
Proof.
  induction s as [|c r IH]; [done|]. cbn [includesChar replaceDots].
  destruct (Ascii.eqb c ".") eqn:E; [done|].
  by rewrite Ascii.eqb_sym, E.
Qed.

(** The element that [encodeCite] makes, as it is when the call
    returns. *)
Lemma encodeCite_element (target : string) state h :
  whenReturned (encodeCite target state h)
    (fun r =>
       exists elements,
         resolve r.2 (XRef (length h))
         = XElement "xref" [("rid", citeRid target); ("ref-type", "bibr")]
             elements).
Proof.
  intros r Hr. unfold encodeCite in Hr.
  apply bind_Some in Hr as (xrefs & _ & Hr).
  apply bind_Some in Hr as (h2 & Hpopulated & Hr).
  injection Hr as <-. cbn [fst snd resolve].
  set (rid := citeRid target) in *.
  set (new := {| xrefRid := rid; xrefElements := Some [] |}) in *.
  assert ((h ++ [new]) !! length h = Some new) as Hnew
    by (by rewrite lookup_app_r, Nat.sub_diag).
  assert (h2 = h ++ [new]
          \/ exists citeText targets,
               h2 = fold_left (populateAt citeText) targets (h ++ [new]))
    as [-> | (citeText & targets & ->)].
  { unfold populateBibrContent in Hpopulated.
    repeat match type of Hpopulated with
           | context [match property ?object ?key with _ => _ end] =>
               destruct (property object key)
           end;
      try discriminate; injection Hpopulated as <-;
      first [by left | right; by eexists _, _]. }
  - rewrite Hnew. by eexists.
  - rewrite fold_populateAt_lookup, Hnew.
    case_decide; by eexists.
Qed.

(** X21: [encodeCite] raises when the target is the name of a property
    of [Object.prototype]. Otherwise the element that it makes carries
    the target of the citation, without a leading [#], as [rid] and
    [bibr] as [ref-type]; provided that [attr] reads the attributes of an
    element, [decodeXRef] reads that element as a citation whose target
    is that id with every dot replaced by a hyphen, so that a target
    without dot and without leading [#] is read back as it was. A decoded
    id holds no dot, and decoding it again changes nothing. *)
Theorem decodeXRef_of_cite (xml : XmlReader) (target : string) state h :
  readsAttributes xml ->
  returnsWhen [citeRid target] (encodeCite target state h)
    (fun r =>
       let elem := resolve r.2 (XRef (length h)) in
       (exists elements,
          elem = XElement "xref" [("rid", citeRid target); ("ref-type", "bibr")]
                   elements)
       /\ decodeXRefTarget xml elem = CiteTarget (replaceDots (citeRid target))
       /\ (includesChar "."%char target = false ->
           String.prefix "#" target = false ->
           decodeXRefTarget xml elem = CiteTarget target))
  /\ includesChar "."%char (replaceDots (citeRid target)) = false
  /\ replaceDots (replaceDots (citeRid target)) = replaceDots (citeRid target).
Proof.
  intros Hreads.
  split; [|split; [apply replaceDots_none
                  | apply replaceDots_fixed, replaceDots_none]].
  apply returnsWhen_split.
  { rewrite encodeCite_returns. unfold ownNames. simpl.
    by destruct (inheritedName (citeRid target)). }
  intros r Hr elem.
  destruct (encodeCite_element target state h r Hr) as [elements Helem].
  fold elem in Helem.
  assert (decodeXRefTarget xml elem
          = CiteTarget (replaceDots (citeRid target))) as Hdecode.
  { rewrite Helem. unfold decodeXRefTarget. rewrite !Hreads.
    cbn [attributeOf].
    change (String.eqb "rid" "ref-type") with false.
    change (String.eqb "ref-type" "ref-type") with true.
    change (String.eqb "rid" "rid") with true. cbv iota.
    by rewrite bool_decide_true. }
  split; [by exists elements|]. split; [done|].
  intros Hdots Hprefix. rewrite Hdecode. unfold citeRid.
  rewrite Hprefix. by rewrite replaceDots_fixed.
Qed.

Lemma decodeXRef_of_cite_witness :
  readsAttributes exampleReader
  /\ exists r,
       encodeCite "bib1" initialEncodeState [] = Some r
       /\ decodeXRefTarget exampleReader (resolve r.2 (XRef 0))
          = CiteTarget "bib1".
Proof.
  assert (readsAttributes exampleReader) as Hreads by (intros ? ? ? ?; reflexivity).
  split; [exact Hreads|].
  pose proof (proj1 (decodeXRef_of_cite exampleReader "bib1"
                       initialEncodeState [] Hreads)) as Hdecoded.
  unfold returnsWhen in Hdecoded.
  destruct (encodeCite "bib1" initialEncodeState []) as [r|];
    [|discriminate Hdecoded].
  exists r. split; [reflexivity|].
  destruct Hdecoded as (_ & _ & _ & Hback). by apply Hback.
Defined.
End JatsFacts.
